(** * Onlyfans-downloader: background service and content script

    A shallow embedding of [src/background.js] (class
    [OnlyFansBackgroundService]) and of the content-script class
    [OnlyFansDownloader] of [src/popup.js], with the properties of the
    design document checked against it.

    Conventions of the embedding.
    - A JavaScript string is a sequence of UTF-16 code units.  Every
      string operation of the source that is modelled here ([split] on a
      one-character separator, [includes], the global replacement of a
      character class) acts code unit by code unit.  The payloads, URLs,
      selectors and attribute values of the development are [string]s,
      whose code units are below 256; [generateFilename], which receives
      a creator name as the page shows it, is given for all code units in
      the module [Utf16], of which the [string] version is the
      restriction.
    - A JavaScript number is an integer [Z]; payload identifiers, tab ids,
      download ids and clock readings are integers.
    - A thrown exception is the [Throw] result; [try]/[catch] is a match.
    - An [async] method is cut at its [await]s: the part that runs
      synchronously is one function, its continuation another, and the host
      (storage, download service, timers) drives the continuations through
      the events of a transition system. *)

From Stdlib Require Import Bool Ascii String List ZArith NArith Lia DecimalString DecimalZ Permutation.
Import ListNotations.
Local Open Scope list_scope.
Local Open Scope string_scope.
Local Open Scope Z_scope.

(* ================================================================== *)
(** * JavaScript values *)
(* ================================================================== *)

(** Result of an expression that may throw. *)
Inductive Res (A : Type) : Type :=
| Ok (a : A)
| Throw.
Arguments Ok {A} a.
Arguments Throw {A}.

Definition bind {A B : Type} (r : Res A) (k : A -> Res B) : Res B :=
  match r with
  | Ok a => k a
  | Throw => Throw
  end.

Notation "x <- e ;; k" := (bind e (fun x => k))
  (at level 61, e at next level, right associativity).

(** JSON-like values: what [response.json()] and the message channel
    deliver. *)
#[local] Set Warnings "-register-all".
Inductive JsVal : Type :=
| JUndef
| JNull
| JBool (b : bool)
| JNum (z : Z)
| JStr (s : string)
| JArr (items : list JsVal)
| JObj (fields : list (string * JsVal)).

(** [Boolean(v)], the test of [if (v)], [!v], [a || b] and [&&]. *)
Definition truthy (v : JsVal) : bool :=
  match v with
  | JUndef | JNull => false
  | JBool b => b
  | JNum z => negb (z =? 0)
  | JStr s => negb (s =? "")%string
  | JArr _ | JObj _ => true
  end.

(** [a || b] *)
Definition js_or (a b : JsVal) : JsVal := if truthy a then a else b.

Definition isArray (v : JsVal) : bool :=
  match v with
  | JArr _ => true
  | _ => false
  end.

Fixpoint assoc {A : Type} (k : string) (l : list (string * A)) : option A :=
  match l with
  | [] => None
  | (k', v) :: l' => if (k =? k')%string then Some v else assoc k l'
  end.

(** [v.k] for the property names the source reads from payloads and
    settings ([list], [id], [media], [type], [source], [videoSources],
    [preview], [squarePreview], [thumb], [src], [autoCreateFolder]); none of
    them is defined on the prototype of a primitive or of an array, so only
    the own fields of an object answer.  Reading a property of [null] or
    [undefined] throws a TypeError. *)
Definition prop (v : JsVal) (k : string) : Res JsVal :=
  match v with
  | JUndef | JNull => Throw
  | JObj fs => Ok (match assoc k fs with Some x => x | None => JUndef end)
  | _ => Ok JUndef
  end.

(** The decimal spelling of an index, as used for a property key. *)
Definition index_key (n : nat) : string :=
  NilEmpty.string_of_uint (Nat.to_uint n).

(** [v[n]] for a numeric literal [n]: an array element, a one-unit string
    of a string, or the own field spelled [n] of an object. *)
Definition prop_idx (v : JsVal) (n : nat) : Res JsVal :=
  match v with
  | JUndef | JNull => Throw
  | JObj fs => Ok (match assoc (index_key n) fs with Some x => x | None => JUndef end)
  | JArr l => Ok (nth n l JUndef)
  | JStr s => Ok (match String.get n s with
                  | Some c => JStr (String c EmptyString)
                  | None => JUndef
                  end)
  | _ => Ok JUndef
  end.

(** [v?.k] and [v?.[n]] *)
Definition opt_prop (v : JsVal) (k : string) : JsVal :=
  match prop v k with
  | Ok x => x
  | Throw => JUndef
  end.

Definition opt_prop_idx (v : JsVal) (n : nat) : JsVal :=
  match prop_idx v n with
  | Ok x => x
  | Throw => JUndef
  end.

(** SameValueZero, the key comparison of [Map].  Objects and arrays are
    compared by reference; values that come out of [JSON.parse] are fresh,
    so such a key is never the same as another key. *)
Definition sameValueZero (a b : JsVal) : bool :=
  match a, b with
  | JUndef, JUndef => true
  | JNull, JNull => true
  | JBool x, JBool y => Bool.eqb x y
  | JNum x, JNum y => (x =? y)
  | JStr x, JStr y => (x =? y)%string
  | _, _ => false
  end.

(** A [Map]: its entries in insertion order. *)
Definition JsMap : Type := list (JsVal * JsVal).

Fixpoint Map_get (m : JsMap) (k : JsVal) : option JsVal :=
  match m with
  | [] => None
  | (k', v) :: m' => if sameValueZero k k' then Some v else Map_get m' k
  end.

Definition Map_has (m : JsMap) (k : JsVal) : bool :=
  match Map_get m k with
  | Some _ => true
  | None => false
  end.

Fixpoint Map_set (m : JsMap) (k v : JsVal) : JsMap :=
  match m with
  | [] => [(k, v)]
  | (k', v') :: m' =>
      if sameValueZero k k' then (k', v) :: m' else (k', v') :: Map_set m' k v
  end.

(* ================================================================== *)
(** * Strings *)
(* ================================================================== *)

(** [s.split(sep)] for a separator of one code unit. *)
Fixpoint split (sep : ascii) (s : string) : list string :=
  match s with
  | EmptyString => [EmptyString]
  | String c s' =>
      if Ascii.eqb c sep then EmptyString :: split sep s'
      else match split sep s' with
           | seg :: rest => String c seg :: rest
           | [] => [String c EmptyString]
           end
  end.

(** [parts[0]] and [parts[parts.length - 1]] of a split. *)
Definition first_part (parts : list string) : string := hd EmptyString parts.
Definition last_part (parts : list string) : string := last parts EmptyString.

(** [s.includes(t)] *)
Fixpoint includes (s t : string) : bool :=
  String.prefix t s ||
  match s with
  | EmptyString => false
  | String _ s' => includes s' t
  end.

Definition is_digit (c : ascii) : bool :=
  let n := nat_of_ascii c in (Nat.leb 48 n && Nat.leb n 57)%bool.

(** The class [[a-zA-Z0-9]]. *)
Definition is_alnum (c : ascii) : bool :=
  let n := nat_of_ascii c in
  ((Nat.leb 97 n && Nat.leb n 122) || (Nat.leb 65 n && Nat.leb n 90)
   || (Nat.leb 48 n && Nat.leb n 57))%bool.

Fixpoint map_units (f : ascii -> ascii) (s : string) : string :=
  match s with
  | EmptyString => EmptyString
  | String c s' => String (f c) (map_units f s')
  end.

(** [creator.replace(/[^a-zA-Z0-9]/g, '_')] on a creator whose code units
    are below 256; [Utf16.clean_creator] is the replacement on all code
    units. *)
Definition clean_creator (creator : string) : string :=
  map_units (fun c => if is_alnum c then c else "_"%char) creator.

(** [String(n)] of an integer, as a template literal spells it. *)
Definition number_to_string (z : Z) : string :=
  NilEmpty.string_of_int (Z.to_int z).

(** ** background.js: generateFilename *)

(** [generateFilename(url, creator, type, settings)] on the values of the
    [string] model; [now] is the reading of [Date.now()] that the [catch]
    branch takes.  [url.split] and [creator.replace] exist on strings
    only.  [Utf16.generateFilename] is the method on strings of all code
    units. *)
Definition generateFilename (url creator type settings : JsVal) (now : Z) : string :=
  let body : Res string :=
    match url with
    | JStr u =>
        let urlParts := split "/" (first_part (split "?" u)) in
        let filename := last_part urlParts in
        match creator with
        | JStr c =>
            let cleanCreator := clean_creator c in
            acf <- prop settings "autoCreateFolder" ;;
            if truthy acf then Ok (cleanCreator ++ "/" ++ filename)
            else Ok filename
        | _ => Throw
        end
    | _ => Throw
    end in
  match body with
  | Ok name => name
  | Throw => "download_" ++ number_to_string now ++ ".file"
  end.

(* ================================================================== *)
(** * background.js: interception and re-fetch *)
(* ================================================================== *)

(** The [details] of a [webRequest.onSendHeaders] event.  The headers are
    present when the host honours the ["requestHeaders"] option. *)
Record Header : Type := { h_name : string; h_value : string }.

Record Details : Type := {
  tabId : Z;
  url : string;
  requestHeaders : option (list Header)
}.

(** A call of the host's [fetch]; the method is always GET. *)
Record FetchCall : Type := {
  fetch_url : string;
  fetch_headers : list (string * string);
  fetch_tab : Z
}.

(** The private fragment that marks a re-fetch. *)
Definition trilobite : string := "#trilobite".

Definition excludedHeaders : list string :=
  ["Sec-Fetch-Site"; "Sec-Fetch-Mode"; "Sec-Fetch-Dest"; "Sec-Fetch-User";
   "DNT"; "User-Agent"].

Definition Set_has (s : list string) (x : string) : bool :=
  existsb (fun y => (x =? y)%string) s.

(** [obj[k] = v] on an object used as a dictionary. *)
Fixpoint obj_set {A : Type} (o : list (string * A)) (k : string) (v : A)
  : list (string * A) :=
  match o with
  | [] => [(k, v)]
  | (k', v') :: o' =>
      if (k =? k')%string then (k', v) :: o' else (k', v') :: obj_set o' k v
  end.

(** [headers[name] = value] on the object literal [headers], for a value
    that is a string.  Any name but [__proto__] becomes (or updates) an own
    property.  The name [__proto__] reaches the setter that
    [Object.prototype] has for it, which ignores a value that is neither
    an object nor [null]: no property is created. *)
Definition header_set (headers : list (string * string)) (name value : string)
  : list (string * string) :=
  if (name =? "__proto__")%string then headers else obj_set headers name value.

(** [extractHeaders(requestHeaders)]; iterating [undefined] throws. *)
Definition extractHeaders (rh : option (list Header)) : Res (list (string * string)) :=
  match rh with
  | None => Throw
  | Some hs =>
      Ok (fold_left
            (fun headers header =>
               if negb (Set_has excludedHeaders (h_name header))
               then header_set headers (h_name header) (h_value header)
               else headers)
            hs [])
  end.

Fixpoint string_drop (n : nat) (s : string) : string :=
  match n, s with
  | O, _ => s
  | S n', String _ s' => string_drop n' s'
  | S _, EmptyString => EmptyString
  end.

Fixpoint skip_digits (s : string) : string :=
  match s with
  | String c s' => if is_digit c then skip_digits s' else s
  | EmptyString => EmptyString
  end.

(** [[0-9]+\/] at the start of [s]. *)
Definition digits_then_slash (s : string) : bool :=
  match s with
  | String c s' =>
      is_digit c &&
      match skip_digits s' with
      | String "/"%char _ => true
      | _ => false
      end
  | EmptyString => false
  end.

(** [/onlyfans\.com\/[0-9]+\//] somewhere in [s]. *)
Fixpoint numeric_path (s : string) : bool :=
  (String.prefix "onlyfans.com/" s
   && digits_then_slash (string_drop 13 s))
  || match s with
     | EmptyString => false
     | String _ s' => numeric_path s'
     end.

(** [url.match(/(onlyfans\.com\/api2\/v2\/(users|posts|chats)|onlyfans\.com\/[0-9]+\/)/)]
    as a truth value. *)
Definition isRelevantEndpoint (u : string) : bool :=
  includes u "onlyfans.com/api2/v2/users"
  || includes u "onlyfans.com/api2/v2/posts"
  || includes u "onlyfans.com/api2/v2/chats"
  || numeric_path u.

(** The synchronous part of [fetchApiData(url, headers)]: the call
    [fetch(url + '#trilobite', {method: 'GET', headers})]. *)
Definition fetchApiData (u : string) (headers : list (string * string)) (tab : Z)
  : FetchCall :=
  {| fetch_url := u ++ trilobite; fetch_headers := headers; fetch_tab := tab |}.

(** The synchronous part of [sendToContentScript(url, headers, tabId)]: it
    runs up to the [await] of [fetchApiData], whose own first step is the
    host call. *)
Definition sendToContentScript (u : string) (headers : list (string * string)) (tab : Z)
  : list FetchCall :=
  [fetchApiData u headers tab].

(** [handleApiRequest(details)]: the re-fetches it issues.  An exception
    inside the [try] is logged and nothing is issued. *)
Definition handleApiRequest (details : Details) : list FetchCall :=
  if (tabId details <? 0) || includes (url details) trilobite then []
  else if negb (isRelevantEndpoint (url details)) then []
  else match extractHeaders (requestHeaders details) with
       | Ok headers => sendToContentScript (url details) headers (tabId details)
       | Throw => []
       end.

(** The listener of [setupWebRequestListener] over a sequence of observed
    requests. *)
Definition observeRequests (ds : list Details) : list FetchCall :=
  flat_map handleApiRequest ds.

(** What the host's [fetch] delivers. *)
Inductive FetchOutcome : Type :=
| NetworkError
| Response (ok : bool) (json : option JsVal).

(** The continuation of [fetchApiData] after the [await]s: the parsed body,
    or [null] when the status is not ok, the body is not JSON or the
    request failed. *)
Definition fetchApiData_resume (o : FetchOutcome) : JsVal :=
  match o with
  | Response true (Some data) => data
  | _ => JNull
  end.

(** [processApiResponse(data)] *)
Definition processApiResponse (data : JsVal) : JsVal :=
  let body : Res JsVal :=
    if isArray data then Ok data
    else
      l <- prop data "list" ;;
      if truthy l then Ok l
      else
        i <- prop data "id" ;;
        m <- (if truthy i then prop data "media" else Ok JUndef) ;;
        if truthy i && isArray m then Ok data
        else Ok JNull in
  match body with
  | Ok v => v
  | Throw => JNull
  end.

(** The message of [chrome.tabs.sendMessage]. *)
Record TabMessage : Type := {
  msg_tab : Z;
  msg_type : string;
  msg_data : JsVal;
  msg_isForDm : bool;
  msg_headers : list (string * string)
}.

(** The continuation of [sendToContentScript] once the re-fetch has
    settled: the message handed to the tab, if any. *)
Definition sendToContentScript_resume
  (u : string) (headers : list (string * string)) (tab : Z) (o : FetchOutcome)
  : option TabMessage :=
  let response := fetchApiData_resume o in
  if negb (truthy response) then None
  else
    let data := processApiResponse response in
    if negb (truthy data) then None
    else Some {| msg_tab := tab; msg_type := "apiData"; msg_data := data;
                 msg_isForDm := includes u "messages"; msg_headers := headers |}.

(* ================================================================== *)
(** * background.js: the download queue *)
(* ================================================================== *)

(** An entry of [downloadQueue]. *)
Record DownloadItem : Type := {
  d_url : JsVal;
  d_filename : string;
  d_creator : JsVal;
  d_type : JsVal
}.

(** The acknowledgement passed to [sendResponse]. *)
Record Ack : Type := { success : bool; error : option string }.

(** A call of [handleDownloadRequest] suspended at
    [await this.getUserSettings()]: its [url], [creator] and [type]. *)
Record Request : Type := { r_url : JsVal; r_creator : JsVal; r_type : JsVal }.

(** Where the one activation of [processDownloadQueue] is suspended. *)
Inductive Drain : Type :=
| NotRunning
| AwaitDownload (d : DownloadItem)  (* at [await this.executeDownload(download)] *)
| AwaitTimer (set_at : Z).          (* at [await new Promise(... setTimeout(resolve, 100))] *)

(** What the service does, in the order in which it does it: its calls of
    the host, the push onto [downloadQueue] and the return of
    [executeDownload]. *)
Inductive Effect : Type :=
| Respond (a : Ack)                          (* [sendResponse(...)] *)
| Enqueue (t : Z) (d : DownloadItem)         (* [downloadQueue.push(...)] *)
| Start (t : Z) (d : DownloadItem)           (* [chrome.downloads.download(...)] is called *)
| End (t : Z) (d : DownloadItem) (ok : bool) (* [executeDownload] returns *)
| Notify (title message : string).           (* [chrome.notifications.create(...)] *)

(** The service: its two fields of the source, the suspended continuations,
    the clock of the last event, and the effects so far, newest first. *)
Record Service : Type := {
  downloadQueue : list DownloadItem;
  isProcessingQueue : bool;
  drain : Drain;
  pending : list Request;
  clock : Z;
  trace : list Effect
}.

Definition emit (e : Effect) (s : Service) : Service :=
  {| downloadQueue := downloadQueue s; isProcessingQueue := isProcessingQueue s;
     drain := drain s; pending := pending s; clock := clock s;
     trace := e :: trace s |}.

(** The constructor. *)
Definition initial : Service :=
  {| downloadQueue := []; isProcessingQueue := false; drain := NotRunning;
     pending := []; clock := 0; trace := [] |}.

(** The cool-down between two downloads, in milliseconds. *)
Definition cooldown : Z := 100.

(** The defaults of [getUserSettings]. *)
Definition defaultSettings : JsVal :=
  JObj [("quality", JStr "full"); ("autoCreateFolder", JBool true)].

(** [getUserSettings()] once the settings store has answered ([Some]) or
    failed ([None]). *)
Definition getUserSettings (stored : option JsVal) : JsVal :=
  match stored with
  | Some result => result
  | None => defaultSettings
  end.

(** The head of the [while] loop of [processDownloadQueue]: either one item
    is shifted and [executeDownload] runs up to its host call, or the loop
    and the [finally] block end the activation. *)
Definition drainLoop (now : Z) (s : Service) : Service :=
  match downloadQueue s with
  | download :: rest =>
      {| downloadQueue := rest; isProcessingQueue := isProcessingQueue s;
         drain := AwaitDownload download; pending := pending s; clock := clock s;
         trace := Start now download :: trace s |}
  | [] =>
      {| downloadQueue := []; isProcessingQueue := false;
         drain := NotRunning; pending := pending s; clock := clock s;
         trace := trace s |}
  end.

(** [processDownloadQueue()] up to its first [await]. *)
Definition processDownloadQueue (now : Z) (s : Service) : Service :=
  if isProcessingQueue s || (Nat.eqb (length (downloadQueue s)) 0) then s
  else
    drainLoop now
      {| downloadQueue := downloadQueue s; isProcessingQueue := true;
         drain := drain s; pending := pending s; clock := clock s;
         trace := trace s |}.

(** The synchronous part of [handleDownloadRequest([url, creator, type])]:
    a missing URL throws inside the [try], which only logs; otherwise the
    call suspends on the settings. *)
Definition handleDownloadRequest (message : list JsVal) (s : Service) : Service :=
  let u := nth 0 message JUndef in
  let creator := nth 1 message JUndef in
  let type := nth 2 message JUndef in
  if negb (truthy u) then s
  else
    {| downloadQueue := downloadQueue s; isProcessingQueue := isProcessingQueue s;
       drain := drain s;
       pending := (pending s ++ [{| r_url := u; r_creator := creator; r_type := type |}])%list;
       clock := clock s; trace := trace s |}.

(** The continuation of [handleDownloadRequest] with the settings: the
    [enqueue] of the design. *)
Definition handleDownloadRequest_resume
  (r : Request) (settings : JsVal) (now : Z) (s : Service) : Service :=
  let filename := generateFilename (r_url r) (r_creator r) (r_type r) settings now in
  let download := {| d_url := r_url r; d_filename := filename;
                     d_creator := r_creator r; d_type := r_type r |} in
  let s1 := {| downloadQueue := (downloadQueue s ++ [download])%list;
               isProcessingQueue := isProcessingQueue s; drain := drain s;
               pending := pending s; clock := clock s;
               trace := Enqueue now download :: trace s |} in
  if negb (isProcessingQueue s1) then processDownloadQueue now s1 else s1.

(** The listener of [setupMessageListener]. *)
Definition onMessage (message : JsVal) (s : Service) : Service :=
  match message with
  | JArr items =>
      if Nat.leb 3 (length items)
      then emit (Respond {| success := true; error := None |})
                (handleDownloadRequest items s)
      else emit (Respond {| success := false; error := Some "Invalid message format" |}) s
  | _ => emit (Respond {| success := false; error := Some "Invalid message format" |}) s
  end.

(** What the host's download service answers to one call. *)
Inductive DownloadOutcome : Type :=
| Resolved (downloadId : JsVal)
| Rejected.

(** [showNotification(title, message)] *)
Definition showNotification (title message : string) (s : Service) : Service :=
  emit (Notify title message) s.

(** The continuation of [executeDownload(download)] after the host has
    answered, up to its return. *)
Definition executeDownload_resume
  (download : DownloadItem) (o : DownloadOutcome) (now : Z) (s : Service) : Service :=
  let started :=
    match o with
    | Resolved downloadId => truthy downloadId
    | Rejected => false
    end in
  if started then emit (End now download true) s
  else
    emit (End now download false)
      (showNotification "Download Failed"
         ("Failed to download " ++ d_filename download) s).

(** The events by which the host drives the service. *)
Inductive Event : Type :=
| Message (m : JsVal)                             (* [runtime.onMessage] *)
| SettingsLoaded (k : nat) (stored : option JsVal) (* the [k]-th suspended request resumes *)
| DownloadSettled (o : DownloadOutcome)           (* the download promise settles *)
| TimerFired.                                     (* the cool-down timer fires *)

Definition tick (now : Z) (s : Service) : Service :=
  {| downloadQueue := downloadQueue s; isProcessingQueue := isProcessingQueue s;
     drain := drain s; pending := pending s; clock := now; trace := trace s |}.

Definition set_drain (d : Drain) (s : Service) : Service :=
  {| downloadQueue := downloadQueue s; isProcessingQueue := isProcessingQueue s;
     drain := d; pending := pending s; clock := clock s; trace := trace s |}.

Definition set_pending (p : list Request) (s : Service) : Service :=
  {| downloadQueue := downloadQueue s; isProcessingQueue := isProcessingQueue s;
     drain := drain s; pending := p; clock := clock s; trace := trace s |}.

Fixpoint remove_nth {A : Type} (k : nat) (l : list A) : list A :=
  match k, l with
  | _, [] => []
  | O, _ :: l' => l'
  | S k', x :: l' => x :: remove_nth k' l'
  end.

(** One event at time [now].  [None] when the host cannot deliver the event:
    time does not run backwards, a continuation resumes only where it is
    suspended, and a timer set at [t] for 100 ms fires no earlier than
    [t + 100]. *)
Definition step (s : Service) (now : Z) (e : Event) : option Service :=
  if now <? clock s then None
  else
    let s := tick now s in
    match e with
    | Message m => Some (onMessage m s)
    | SettingsLoaded k stored =>
        match nth_error (pending s) k with
        | Some r =>
            Some (handleDownloadRequest_resume r (getUserSettings stored) now
                    (set_pending (remove_nth k (pending s)) s))
        | None => None
        end
    | DownloadSettled o =>
        match drain s with
        | AwaitDownload download =>
            Some (set_drain (AwaitTimer now) (executeDownload_resume download o now s))
        | _ => None
        end
    | TimerFired =>
        match drain s with
        | AwaitTimer set_at =>
            if now <? set_at + cooldown then None
            else Some (drainLoop now s)
        | _ => None
        end
    end.

Fixpoint run (s : Service) (evs : list (Z * Event)) : option Service :=
  match evs with
  | [] => Some s
  | (now, e) :: evs' =>
      match step s now e with
      | Some s' => run s' evs'
      | None => None
      end
  end.

(* ================================================================== *)
(** * The document *)
(* ================================================================== *)

(** What an element carries besides its children: tag name (lower case),
    class list, attributes, and the corner of its bounding rectangle as the
    layout reports it. *)
Record ElemData : Type := {
  tag : string;
  classes : list string;
  attrs : list (string * string);
  rect_top : Z;
  rect_left : Z
}.

Inductive Node : Type :=
| Text (s : string)
| Elem (d : ElemData) (children : list Node).

(** The selectors of the source are lists of compound selectors without
    combinators. *)
Inductive Simple : Type :=
| STag (t : string)
| SClass (c : string)
| SAttr (name : string)
| SAttrEq (name value : string).

Definition Compound : Type := list Simple.
Definition Selector : Type := list Compound.

Definition matches_simple (d : ElemData) (s : Simple) : bool :=
  match s with
  | STag t => (tag d =? t)%string
  | SClass c => existsb (fun c' => (c' =? c)%string) (classes d)
  | SAttr n => match assoc n (attrs d) with Some _ => true | None => false end
  | SAttrEq n v =>
      match assoc n (attrs d) with
      | Some v' => (v' =? v)%string
      | None => false
      end
  end.

Definition matches (d : ElemData) (sel : Selector) : bool :=
  existsb (fun c => forallb (matches_simple d) c) sel.

Definition node_matches (n : Node) (sel : Selector) : bool :=
  match n with
  | Text _ => false
  | Elem d _ => matches d sel
  end.

(** The element descendants of a node, in document order. *)
Fixpoint descendants (n : Node) : list Node :=
  match n with
  | Text _ => []
  | Elem _ cs =>
      flat_map (fun c => match c with
                         | Text _ => []
                         | Elem _ _ => c :: descendants c
                         end) cs
  end.

(** [n.querySelectorAll(sel)] and [n.querySelector(sel)] *)
Definition querySelectorAll (n : Node) (sel : Selector) : list Node :=
  filter (fun c => node_matches c sel) (descendants n).

Definition querySelector (n : Node) (sel : Selector) : option Node :=
  hd_error (querySelectorAll n sel).

(** [n.getAttribute(name)] *)
Definition getAttribute (n : Node) (name : string) : option string :=
  match n with
  | Text _ => None
  | Elem d _ => assoc name (attrs d)
  end.

(** The [src] property of a media element: its [src] attribute as the
    host resolves it, the empty string when there is none. *)
Definition src (n : Node) : string :=
  match getAttribute n "src" with
  | Some u => u
  | None => ""
  end.

(** [n.textContent] *)
Fixpoint textContent (n : Node) : string :=
  match n with
  | Text s => s
  | Elem _ cs => fold_right (fun c acc => textContent c ++ acc) "" cs
  end.

(** [parent.appendChild(child)] *)
Definition appendChild (parent child : Node) : Node :=
  match parent with
  | Text _ => parent
  | Elem d cs => Elem d (cs ++ [child])%list
  end.

(** [n.querySelector(sel).appendChild(child)] seen from [n]: the first
    descendant in document order that matches receives the child; [None]
    when no descendant matches. *)
Fixpoint appendChildAt (sel : Selector) (child : Node) (n : Node) : option Node :=
  match n with
  | Text _ => None
  | Elem d cs =>
      let fix go (l : list Node) : option (list Node) :=
        match l with
        | [] => None
        | x :: l' =>
            if node_matches x sel then Some (appendChild x child :: l')
            else match appendChildAt sel child x with
                 | Some x' => Some (x' :: l')
                 | None => option_map (cons x) (go l')
                 end
        end in
      option_map (Elem d) (go cs)
  end.

(** [n.querySelectorAll(sel).forEach(btn => btn.remove())] seen from [n]. *)
Fixpoint removeAll (sel : Selector) (n : Node) : Node :=
  match n with
  | Text _ => n
  | Elem d cs =>
      let fix go (l : list Node) : list Node :=
        match l with
        | [] => []
        | x :: l' =>
            if node_matches x sel then go l' else removeAll sel x :: go l'
        end in
      Elem d (go cs)
  end.

(** [document.createElement(tag)] *)
Definition createElement (t : string) : ElemData :=
  {| tag := t; classes := []; attrs := []; rect_top := 0; rect_left := 0 |}.

(* ================================================================== *)
(** * popup.js: the content script *)
(* ================================================================== *)

(** Modelled from the spec: the values that the settings store holds for
    [quality].  The page that writes them is not under src/; section 6 of
    the design gives [quality ∈ {preview, 240, 720, full}], default
    [full]. *)
Inductive Quality : Type := QPreview | Q240 | Q720 | QFull.

Record Settings : Type := { quality : Quality; autoCreateFolder : bool }.

(** The fields of [OnlyFansDownloader] that the modelled methods use. *)
Record Downloader : Type := {
  mediaStore : JsMap;
  videoStore : JsMap;
  imageStore : JsMap;
  settings : Settings;
  uniqueClass : string
}.

(** The constructor, for the class name that [generateUniqueClass] drew. *)
Definition newDownloader (cls : string) : Downloader :=
  {| mediaStore := []; videoStore := []; imageStore := [];
     settings := {| quality := QFull; autoCreateFolder := true |};
     uniqueClass := cls |}.

(** The [store] argument of [processMediaItem] is a reference to one of two
    fields. *)
Inductive StoreRef : Type := MediaStore | VideoStore.

Definition store_set (r : StoreRef) (k v : JsVal) (s : Downloader) : Downloader :=
  match r with
  | MediaStore =>
      {| mediaStore := Map_set (mediaStore s) k v; videoStore := videoStore s;
         imageStore := imageStore s; settings := settings s;
         uniqueClass := uniqueClass s |}
  | VideoStore =>
      {| mediaStore := mediaStore s; videoStore := Map_set (videoStore s) k v;
         imageStore := imageStore s; settings := settings s;
         uniqueClass := uniqueClass s |}
  end.

Definition imageStore_set (k v : JsVal) (s : Downloader) : Downloader :=
  {| mediaStore := mediaStore s; videoStore := videoStore s;
     imageStore := Map_set (imageStore s) k v; settings := settings s;
     uniqueClass := uniqueClass s |}.

(** A method body that mutates the stores and may throw: the stores keep
    what was written before the exception. *)
Definition M (A : Type) : Type := Downloader -> Downloader * Res A.

Definition ret {A : Type} (a : A) : M A := fun s => (s, Ok a).
Definition raise {A : Type} : M A := fun s => (s, Throw).
Definition lift {A : Type} (r : Res A) : M A := fun s => (s, r).

Definition mbind {A B : Type} (m : M A) (k : A -> M B) : M B :=
  fun s =>
    match m s with
    | (s', Ok a) => k a s'
    | (s', Throw) => (s', Throw)
    end.

Notation "x <~ e ;; k" := (mbind e (fun x => k))
  (at level 61, e at next level, right associativity).
Notation "e ;;; k" := (mbind e (fun _ => k))
  (at level 61, right associativity).

(** [items.forEach(f)] *)
Fixpoint forEach (f : JsVal -> M unit) (items : list JsVal) : M unit :=
  match items with
  | [] => ret tt
  | x :: items' => f x ;;; forEach f items'
  end.

(** [cleanUrl(url)]: [split] exists on strings only. *)
Definition cleanUrl (u : JsVal) : Res JsVal :=
  if truthy u then
    match u with
    | JStr s => Ok (JStr (first_part (split "?" s)))
    | _ => Throw
    end
  else Ok u.

(** [[media.preview, media.squarePreview, media.thumb].filter(Boolean)] *)
Definition previewsOf (media : JsVal) : Res (list JsVal) :=
  p <- prop media "preview" ;;
  q <- prop media "squarePreview" ;;
  t <- prop media "thumb" ;;
  Ok (filter truthy [p; q; t]).

(** [videoMap[k] = v] on the object literal under construction. *)
Definition videoMap_set (k : string) (v : JsVal) (videoMap : list (string * JsVal))
  : list (string * JsVal) :=
  obj_set videoMap k v.

(** The quality map that [processVideoMedia(media)] builds before it
    touches the store. *)
Definition buildVideoMap (media : JsVal) : Res JsVal :=
  source <- prop media "source" ;;
  let full := opt_prop source "source" in
  let videoMap := if truthy full then videoMap_set "full" full [] else [] in
  videoSources <- prop media "videoSources" ;;
  if truthy videoSources then
    v240 <- prop_idx videoSources 240 ;;
    let videoMap := if truthy v240 then videoMap_set "240" v240 videoMap else videoMap in
    v720 <- prop_idx videoSources 720 ;;
    let videoMap := if truthy v720 then videoMap_set "720" v720 videoMap else videoMap in
    Ok (JObj videoMap)
  else Ok (JObj videoMap).

(** [processVideoMedia(media)] *)
Definition processVideoMedia (media : JsVal) : M unit :=
  videoMap <~ lift (buildVideoMap media) ;;
  previews <~ lift (previewsOf media) ;;
  forEach (fun preview =>
             if truthy preview then
               key <~ lift (cleanUrl preview) ;;
               fun s => (imageStore_set key videoMap s, Ok tt)
             else ret tt)
          previews.

(** [processImageMedia(media)] *)
Definition processImageMedia (media : JsVal) : M unit :=
  previews <~ lift (previewsOf media) ;;
  forEach (fun preview =>
             media_src <~ lift (if truthy preview then prop media "src" else Ok JUndef) ;;
             if truthy preview && truthy media_src then
               key <~ lift (cleanUrl preview) ;;
               fun s => (imageStore_set key media_src s, Ok tt)
             else ret tt)
          previews.

(** [processMediaItem(item, store)] *)
Definition processMediaItem (item : JsVal) (store : StoreRef) : M unit :=
  id <~ lift (prop item "id") ;;
  (if truthy id then fun s => (store_set store id item s, Ok tt) else ret tt) ;;;
  media <~ lift (prop item "media") ;;
  match media with
  | JArr entries =>
      forEach (fun m =>
                 type <~ lift (prop m "type") ;;
                 if sameValueZero type (JStr "video") then processVideoMedia m
                 else processImageMedia m)
              entries
  | _ => ret tt
  end.

(** [processApiData(data, isForDm)]: whatever is thrown inside is logged;
    what was stored before stays. *)
Definition processApiData (data : JsVal) (isForDm : bool) (s : Downloader) : Downloader :=
  let store := if isForDm then VideoStore else MediaStore in
  let body : M unit :=
    match data with
    | JArr items => forEach (fun item => processMediaItem item store) items
    | _ =>
        id <~ lift (prop data "id") ;;
        media <~ lift (if truthy id then prop data "media" else Ok JUndef) ;;
        if truthy id && isArray media then processMediaItem data store
        else ret tt
    end in
  fst (body s).

(** The [runtime.onMessage] listener of the content script. *)
Definition onTabMessage (m : TabMessage) (s : Downloader) : Downloader :=
  if (msg_type m =? "apiData")%string
  then processApiData (msg_data m) (msg_isForDm m) s
  else s.

(** One intercepted response from the re-fetch to the stores: the
    continuation of [sendToContentScript] in the background, then the
    listener in the page. *)
Definition recordResponse (u : string) (o : FetchOutcome) (s : Downloader) : Downloader :=
  match sendToContentScript_resume u [] 0 o with
  | Some m => onTabMessage m s
  | None => s
  end.

(** ** Resolution of a video URL *)

(** A [for (const x of xs) { ... return ...; }] loop whose body may return
    or throw. *)
Fixpoint firstReturn {A B : Type} (body : A -> Res (option B)) (xs : list A)
  : Res (option B) :=
  match xs with
  | [] => Ok None
  | x :: xs' =>
      match body x with
      | Ok None => firstReturn body xs'
      | r => r
      end
  end.

(** What [for ... of] iterates: arrays and strings are iterable, the other
    values are not. *)
Definition iterate (v : JsVal) : Res (list JsVal) :=
  match v with
  | JArr l => Ok l
  | JStr s => Ok (map (fun c => JStr (String c EmptyString)) (list_ascii_of_string s))
  | _ => Throw
  end.

(** [qualityMap[this.settings.quality]] on the literal
    [{full: ..., 240: ..., 720: ...}]. *)
Definition qualityMap_get (full v240 v720 : JsVal) (q : Quality) : JsVal :=
  match q with
  | QFull => full
  | Q240 => v240
  | Q720 => v720
  | QPreview => JUndef
  end.

(** A non-empty string read from the document, as a returned value. *)
Definition nonEmpty (u : string) : option JsVal :=
  if (u =? "")%string then None else Some (JStr u).

Definition sel_video_vjs_tech : Selector := [[STag "video"; SClass "vjs-tech"]].
Definition sel_source_original : Selector := [[STag "source"; SAttrEq "label" "original"]].
Definition sel_source : Selector := [[STag "source"]].
Definition sel_video : Selector := [[STag "video"]].
Definition sel_data_any : Selector :=
  [[SAttr "data-video"]; [SAttr "data-src"]; [SAttr "data-url"]].

(** The body of the loop of Method 2 of [extractVideoUrl]. *)
Definition videoUrlOfMedia (q : Quality) (media : JsVal) : Res (option JsVal) :=
  type <- prop media "type" ;;
  if sameValueZero type (JStr "video") then
    source <- prop media "source" ;;
    videoSources <- prop media "videoSources" ;;
    let full := opt_prop source "source" in
    let videoUrl :=
      js_or (qualityMap_get full (opt_prop_idx videoSources 240)
               (opt_prop_idx videoSources 720) q)
            full in
    if truthy videoUrl then Ok (Some videoUrl) else Ok None
  else Ok None.

(** Method 1 of [extractVideoUrl]: the [video.vjs-tech] of the wrapper, its
    [source[label="original"]], any [source] of it, its own [src]. *)
Definition method1 (wrapper : Node) : option JsVal :=
  match querySelector wrapper sel_video_vjs_tech with
  | Some video =>
      match match querySelector video sel_source_original with
            | Some source => nonEmpty (src source)
            | None => None
            end with
      | Some u => Some u
      | None =>
          match match querySelector video sel_source with
                | Some anySource => nonEmpty (src anySource)
                | None => None
                end with
          | Some u => Some u
          | None => nonEmpty (src video)
          end
      end
  | None => None
  end.

(** Method 2: the API data in [mediaStore]; [post] is [None] for [null]. *)
Definition method2 (s : Downloader) (post : option Node) : Res (option JsVal) :=
  let postId := match post with
                | Some p => getAttribute p "data-id"
                | None => None
                end in
  match postId with
  | Some id =>
      if negb (id =? "")%string && Map_has (mediaStore s) (JStr id) then
        match Map_get (mediaStore s) (JStr id) with
        | Some postData =>
            media <- prop postData "media" ;;
            mediaList <- iterate (js_or media (JArr [])) ;;
            firstReturn (videoUrlOfMedia (quality (settings s))) mediaList
        | None => Throw
        end
      else Ok None
  | None => Ok None
  end.

(** Method 3: the data attributes of the first [video]. *)
Definition method3 (wrapper : Node) : option JsVal :=
  match querySelector wrapper sel_video with
  | Some videoElement =>
      match getAttribute videoElement "data-src" with
      | Some dataSrc =>
          if negb (dataSrc =? "")%string then Some (JStr dataSrc)
          else match getAttribute videoElement "data-video" with
               | Some dataVideo => nonEmpty dataVideo
               | None => None
               end
      | None =>
          match getAttribute videoElement "data-video" with
          | Some dataVideo => nonEmpty dataVideo
          | None => None
          end
      end
  | None => None
  end.

(** Method 4: the [data-src] of the wrapper. *)
Definition method4 (wrapper : Node) : option JsVal :=
  match getAttribute wrapper "data-src" with
  | Some wrapperDataSrc => nonEmpty wrapperDataSrc
  | None => None
  end.

(** Method 5: the [video]s in the wrapper, and their [source]s. *)
Definition method5 (wrapper : Node) : Res (option JsVal) :=
  firstReturn
    (fun video =>
       match nonEmpty (src video) with
       | Some u => Ok (Some u)
       | None =>
           firstReturn (fun source => Ok (nonEmpty (src source)))
             (querySelectorAll video sel_source)
       end)
    (querySelectorAll wrapper sel_video).

(** Method 6: any element with a video-related data attribute. *)
Definition method6 (wrapper : Node) : Res (option JsVal) :=
  firstReturn
    (fun element =>
       let attr n := match getAttribute element n with
                     | Some v => JStr v
                     | None => JNull
                     end in
       match js_or (js_or (attr "data-video") (attr "data-src")) (attr "data-url") with
       | JStr videoUrl =>
           if negb (videoUrl =? "")%string && includes videoUrl "http"
           then Ok (Some (JStr videoUrl)) else Ok None
       | _ => Ok None
       end)
    (querySelectorAll wrapper sel_data_any).

(** [extractVideoUrl(wrapper, post)]: the six methods, each returning from
    the function when it finds a URL.  The result is [None] for [null]. *)
Definition extractVideoUrl (s : Downloader) (wrapper : Node) (post : option Node)
  : Res (option JsVal) :=
  match method1 wrapper with
  | Some u => Ok (Some u)
  | None =>
      match method2 s post with
      | Throw => Throw
      | Ok (Some u) => Ok (Some u)
      | Ok None =>
          match method3 wrapper with
          | Some u => Ok (Some u)
          | None =>
              match method4 wrapper with
              | Some u => Ok (Some u)
              | None =>
                  match method5 wrapper with
                  | Throw => Throw
                  | Ok (Some u) => Ok (Some u)
                  | Ok None => method6 wrapper
                  end
              end
          end
      end
  end.

(** [extractVideoUrlFromElement(video)] *)
Definition extractVideoUrlFromElement (video : Node) : option JsVal :=
  match match querySelector video sel_source_original with
        | Some source => nonEmpty (src source)
        | None => None
        end with
  | Some u => Some u
  | None =>
      match match querySelector video sel_source with
            | Some anySource => nonEmpty (src anySource)
            | None => None
            end with
      | Some u => Some u
      | None =>
          match nonEmpty (src video) with
          | Some u => Some u
          | None =>
              match match getAttribute video "data-src" with
                    | Some dataSrc => nonEmpty dataSrc
                    | None => None
                    end with
              | Some u => Some u
              | None =>
                  match getAttribute video "data-video" with
                  | Some dataVideo => nonEmpty dataVideo
                  | None => None
                  end
              end
          end
      end
  end.

Definition dataAttributes : list string :=
  ["data-src"; "data-video"; "data-url"; "data-source"].

(** The inner [for (const attr of dataAttributes)] loop of
    [extractVideoUrlFromDataAttributes] on one element. *)
Definition dataAttributeOf (n : Node) : option JsVal :=
  match firstReturn
          (fun attr =>
             match getAttribute n attr with
             | Some value =>
                 if negb (value =? "")%string && includes value "http"
                 then Ok (Some (JStr value)) else Ok None
             | None => Ok None
             end)
          dataAttributes with
  | Ok r => r
  | Throw => None
  end.

(** The [while (parent && depth < 3)] loop over the chain of
    [parentElement]s, nearest first. *)
Fixpoint parentsLoop (depth : nat) (parents : list Node) : option JsVal :=
  match depth, parents with
  | S depth', parent :: parents' =>
      match dataAttributeOf parent with
      | Some u => Some u
      | None => parentsLoop depth' parents'
      end
  | _, _ => None
  end.

(** [extractVideoUrlFromDataAttributes(video)]; [parents] is the chain of
    [parentElement]s of [video], nearest first. *)
Definition extractVideoUrlFromDataAttributes (video : Node) (parents : list Node)
  : option JsVal :=
  match dataAttributeOf video with
  | Some u => Some u
  | None => parentsLoop 3 parents
  end.

(** ** Collecting the media of a container *)

(** The page around the container: what
    [document.querySelector('h1.g-page-title')] finds, and
    [window.location.pathname]. *)
Record Page : Type := { pageTitle : option Node; pathname : string }.

(** White space of [trim()] among the code units below 256. *)
Definition is_space (c : ascii) : bool :=
  let n := nat_of_ascii c in
  ((Nat.leb 9 n && Nat.leb n 13) || Nat.eqb n 32 || Nat.eqb n 160)%bool.

Fixpoint trimStart (s : string) : string :=
  match s with
  | String c s' => if is_space c then trimStart s' else s
  | EmptyString => EmptyString
  end.

Fixpoint trimEnd (s : string) : string :=
  match s with
  | EmptyString => EmptyString
  | String c s' =>
      match trimEnd s' with
      | EmptyString => if is_space c then EmptyString else String c EmptyString
      | t => String c t
      end
  end.

(** [s.trim()] *)
Definition trim (s : string) : string := trimEnd (trimStart s).

(** [s.replace('@', '')]: the first occurrence only. *)
Fixpoint removeFirstAt (s : string) : string :=
  match s with
  | EmptyString => EmptyString
  | String c s' => if Ascii.eqb c "@" then s' else String c (removeFirstAt s')
  end.

Definition sel_class (c : string) : Selector := [[SClass c]].
Definition sel_tag_class (t c : string) : Selector := [[STag t; SClass c]].

(** [getCreatorUsername(element)] *)
Definition getCreatorUsername (pg : Page) (element : Node) : string :=
  match querySelector element (sel_class "g-user-username") with
  | Some usernameElement => removeFirstAt (trim (textContent usernameElement))
  | None =>
      match pageTitle pg with
      | Some title => trim (textContent title)
      | None =>
          let pathParts := split "/" (pathname pg) in
          let p1 := nth 1 pathParts EmptyString in
          if (p1 =? "")%string then "unknown_creator" else p1
      end
  end.

(** An entry [[url, creator, type]] of [mediaToDownload]. *)
Definition Media : Type := (JsVal * string * string)%type.

Definition rectOf (n : Node) : Z * Z :=
  match n with
  | Elem d _ => (rect_top d, rect_left d)
  | Text _ => (0, 0)
  end.

(** [isVideoThumbnail(img, videoWrappers)] *)
Definition isVideoThumbnail (img : Node) (videoWrappers : list Node) : bool :=
  let imgSrc := src img in
  existsb (fun wrapper =>
             let (wt, wl) := rectOf wrapper in
             let (it, il) := rectOf img in
             Z.abs (wt - it) + Z.abs (wl - il) <? 100)
          videoWrappers
  || includes imgSrc "thumb" || includes imgSrc "preview" || includes imgSrc "small".

(** The [videoWrappers.forEach] of [extractMediaFromPost]: the videos found,
    in order; an exception of [extractVideoUrl] ends the method. *)
Fixpoint collectVideos (s : Downloader) (post : Node) (creator : string)
  (wrappers : list Node) : Res (list Media) :=
  match wrappers with
  | [] => Ok []
  | wrapper :: wrappers' =>
      videoUrl <- extractVideoUrl s wrapper (Some post) ;;
      rest <- collectVideos s post creator wrappers' ;;
      match videoUrl with
      | Some u => Ok ((u, creator, "download video") :: rest)
      | None => Ok rest
      end
  end.

(** [extractMediaFromPost(post)] *)
Definition extractMediaFromPost (pg : Page) (s : Downloader) (post : Node)
  : Res (list Media) :=
  let creatorUsername := getCreatorUsername pg post in
  let videoWrappers := querySelectorAll post (sel_tag_class "div" "video-wrapper") in
  videos <- collectVideos s post creatorUsername videoWrappers ;;
  let hasVideo := negb (Nat.eqb (length videos) 0) in
  let images := querySelectorAll post (sel_tag_class "img" "b-post__media__img") in
  let kept :=
    filter (fun img =>
              negb (src img =? "")%string &&
              (if hasVideo then negb (isVideoThumbnail img videoWrappers) else true))
           images in
  Ok (videos ++ map (fun img => (JStr (src img), creatorUsername, "download")) kept)%list.

(** [extractMediaFromMessage(message)] *)
Definition extractMediaFromMessage (pg : Page) (message : Node) : list Media :=
  let creatorUsername := getCreatorUsername pg message in
  match querySelector message (sel_class "b-chat__message__media") with
  | None => []
  | Some mediaContainer =>
      let images := filter (fun img => negb (src img =? "")%string)
                      (querySelectorAll mediaContainer [[STag "img"]]) in
      let videos := querySelectorAll mediaContainer sel_video in
      (map (fun img => (JStr (src img), creatorUsername, "download")) images
       ++ flat_map (fun video =>
                      match extractVideoUrlFromElement video with
                      | Some u => [(u, creatorUsername, "download video")]
                      | None => []
                      end) videos)%list
  end.

(** ** The injected control *)

(** [groupMediaByType(mediaToDownload)]: the non-empty groups in the order
    [video], [image], [mixed]. *)
Definition groupMediaByType (mediaToDownload : list Media) : list (list Media) :=
  let isVideo := fun m : Media => includes (snd m) "video" in
  let video := filter isVideo mediaToDownload in
  let image := filter (fun m => negb (isVideo m)) mediaToDownload in
  let groups :=
    if negb (Nat.eqb (length video) 0) && negb (Nat.eqb (length image) 0)
    then [[]; []; (video ++ image)%list]
    else [video; image; []] in
  filter (fun group => negb (Nat.eqb (length group) 0)) groups.

(** [createSmartDownloadButton(mediaGroup)]: the element; its listeners
    hold the group and are not part of the tree. *)
Definition createSmartDownloadButton (mediaGroup : list Media) : Node :=
  let isVideo := existsb (fun m : Media => includes (snd m) "video") mediaGroup in
  let isMixed := Nat.ltb 1 (length mediaGroup) in
  let label :=
    if isMixed
    then "📥 Download All (" ++ number_to_string (Z.of_nat (length mediaGroup)) ++ ")"
    else if isVideo then "🎬 Download Video" else "📷 Download Image" in
  let css :=
    "padding: 8px 12px; background-color: "
    ++ (if isVideo then "#007bff" else "#28a745")
    ++ "; color: white; border: none; border-radius: 4px; cursor: pointer; "
    ++ "font-size: 12px; transition: background-color 0.2s;" in
  Elem {| tag := "button"; classes := []; attrs := [("style", css)];
          rect_top := 0; rect_left := 0 |}
       [Text label].

(** [createDownloadButtonContainer(mediaToDownload)] *)
Definition createDownloadButtonContainer (s : Downloader) (mediaToDownload : list Media)
  : Node :=
  Elem {| tag := "div"; classes := [uniqueClass s];
          attrs := [("style", "margin: 10px 0; display: flex; gap: 5px; flex-wrap: wrap;")];
          rect_top := 0; rect_left := 0 |}
       (map createSmartDownloadButton (groupMediaByType mediaToDownload)).

(** The selector [`.${this.uniqueClass}`]. *)
Definition sel_unique (s : Downloader) : Selector := sel_class (uniqueClass s).

(** The injected controls that a container carries. *)
Definition controls (s : Downloader) (container : Node) : nat :=
  length (querySelectorAll container (sel_unique s)).

(** ** The injection paths *)

(** A [forEach] over the containers that a [querySelectorAll] of the
    document returned (containers do not nest): an exception leaves the
    remaining ones untouched. *)
Fixpoint forEachNode (f : Node -> Res Node) (l : list Node) : list Node * Res unit :=
  match l with
  | [] => ([], Ok tt)
  | x :: l' =>
      match f x with
      | Ok x' => let (r, e) := forEachNode f l' in (x' :: r, e)
      | Throw => (x :: l', Throw)
      end
  end.

(** The body of the [forEach] of [handleFeedPosts] on one post. *)
Definition handleFeedPost (pg : Page) (s : Downloader) (post : Node) : Res Node :=
  match querySelector post (sel_unique s) with
  | Some _ => Ok post
  | None =>
      mediaToDownload <- extractMediaFromPost pg s post ;;
      if Nat.ltb 0 (length mediaToDownload) then
        let buttonContainer := createDownloadButtonContainer s mediaToDownload in
        match appendChildAt (sel_class "b-post__tools") buttonContainer post with
        | Some post' => Ok post'
        | None => Ok post
        end
      else Ok post
  end.

(** [handleFeedPosts()] on the posts of the document. *)
Definition handleFeedPosts (pg : Page) (s : Downloader) (posts : list Node)
  : list Node * Res unit :=
  forEachNode (handleFeedPost pg s) posts.

(** The body of the [forEach] of [handleChatMessages] on one message. *)
Definition handleChatMessage (pg : Page) (s : Downloader) (message : Node) : Res Node :=
  match querySelector message (sel_unique s) with
  | Some _ => Ok message
  | None =>
      let mediaToDownload := extractMediaFromMessage pg message in
      if Nat.ltb 0 (length mediaToDownload) then
        let buttonContainer := createDownloadButtonContainer s mediaToDownload in
        match appendChildAt (sel_class "b-chat__message__body") buttonContainer message with
        | Some message' => Ok message'
        | None => Ok message
        end
      else Ok message
  end.

(** [handleChatMessages()] on the messages of the document. *)
Definition handleChatMessages (pg : Page) (s : Downloader) (messages : list Node)
  : list Node * Res unit :=
  forEachNode (handleChatMessage pg s) messages.

(** [createVideoDownloadButton(container, videoUrl)] *)
Definition createVideoDownloadButton (pg : Page) (s : Downloader)
  (container : Node) (videoUrl : JsVal) : Node :=
  let creatorUsername := getCreatorUsername pg container in
  let downloadData := [(videoUrl, creatorUsername, "download video")] in
  appendChild (removeAll (sel_unique s) container)
    (createDownloadButtonContainer s downloadData).

(** [handleNewPost(postElement)]; [setupMultiMediaHandlingForPost] only
    adds listeners. *)
Definition handleNewPost (pg : Page) (s : Downloader) (postElement : Node) : Res Node :=
  mediaToDownload <- extractMediaFromPost pg s postElement ;;
  if Nat.ltb 0 (length mediaToDownload) then
    Ok (appendChild postElement (createDownloadButtonContainer s mediaToDownload))
  else Ok postElement.

(** [handleNewMedia(mediaElement)] seen from the post that
    [mediaElement.closest('.b-post')] finds. *)
Definition handleNewMedia (pg : Page) (s : Downloader) (post : Node) : Res Node :=
  mediaToDownload <- extractMediaFromPost pg s post ;;
  if Nat.ltb 0 (length mediaToDownload) then
    Ok (appendChild (removeAll (sel_unique s) post)
          (createDownloadButtonContainer s mediaToDownload))
  else Ok post.

(** The body of the [forEach] of [checkForNewContent], and of the
    intersection callback, on one post. *)
Definition ensureButtons (pg : Page) (s : Downloader) (post : Node) : Res Node :=
  match querySelector post (sel_unique s) with
  | Some _ => Ok post
  | None =>
      mediaToDownload <- extractMediaFromPost pg s post ;;
      if Nat.ltb 0 (length mediaToDownload) then
        Ok (appendChild post (createDownloadButtonContainer s mediaToDownload))
      else Ok post
  end.

(* ================================================================== *)
(** * Vocabulary of the properties *)
(* ================================================================== *)

(** ** The steps of [extractVideoUrl], one by one *)

Definition sourceUrl (source : option Node) : option JsVal :=
  match source with
  | Some n => nonEmpty (src n)
  | None => None
  end.

(** Method 1, first [if]: the [source[label="original"]] of [video.vjs-tech]. *)
Definition originalSource (wrapper : Node) : option JsVal :=
  match querySelector wrapper sel_video_vjs_tech with
  | Some video => sourceUrl (querySelector video sel_source_original)
  | None => None
  end.

(** Method 1, second [if]: any [source] of [video.vjs-tech]. *)
Definition anySource (wrapper : Node) : option JsVal :=
  match querySelector wrapper sel_video_vjs_tech with
  | Some video => sourceUrl (querySelector video sel_source)
  | None => None
  end.

(** Method 1, third [if]: the [src] of [video.vjs-tech]. *)
Definition directSrc (wrapper : Node) : option JsVal :=
  sourceUrl (querySelector wrapper sel_video_vjs_tech).

(** Method 2: [mediaStore] under the [data-id] of the post. *)
Definition storeLookup (s : Downloader) (post : option Node) : Res (option JsVal) :=
  match post with
  | Some p =>
      match getAttribute p "data-id" with
      | Some id =>
          if (id =? "")%string then Ok None
          else match Map_get (mediaStore s) (JStr id) with
               | Some postData =>
                   media <- prop postData "media" ;;
                   mediaList <- iterate (js_or media (JArr [])) ;;
                   firstReturn (videoUrlOfMedia (quality (settings s))) mediaList
               | None => Ok None
               end
      | None => Ok None
      end
  | None => Ok None
  end.

Definition attrUrl (n : Node) (name : string) : option JsVal :=
  match getAttribute n name with
  | Some v => nonEmpty v
  | None => None
  end.

(** Method 3: [data-src], then [data-video], of the first [video]. *)
Definition videoDataAttribute (wrapper : Node) : option JsVal :=
  match querySelector wrapper sel_video with
  | Some videoElement =>
      match attrUrl videoElement "data-src" with
      | Some u => Some u
      | None => attrUrl videoElement "data-video"
      end
  | None => None
  end.

(** Method 4: [data-src] of the wrapper. *)
Definition wrapperDataSrc (wrapper : Node) : option JsVal :=
  attrUrl wrapper "data-src".

(** Method 5: every nested [video], its [src] and then its [source]s. *)
Definition scanVideos (wrapper : Node) : option JsVal :=
  match firstReturn
          (fun video =>
             match nonEmpty (src video) with
             | Some u => Ok (Some u)
             | None => firstReturn (fun source => Ok (nonEmpty (src source)))
                         (querySelectorAll video sel_source)
             end)
          (querySelectorAll wrapper sel_video) with
  | Ok r => r
  | Throw => None
  end.

(** Method 6: the first nested element whose [data-video], [data-src] or
    [data-url] holds a value with [http] in it. *)
Definition scanDataAttributes (wrapper : Node) : option JsVal :=
  match firstReturn
          (fun element =>
             let pick :=
               match attrUrl element "data-video" with
               | Some u => Some u
               | None =>
                   match attrUrl element "data-src" with
                   | Some u => Some u
                   | None => attrUrl element "data-url"
                   end
               end in
             match pick with
             | Some (JStr videoUrl) =>
                 if includes videoUrl "http" then Ok (Some (JStr videoUrl)) else Ok None
             | _ => Ok None
             end)
          (querySelectorAll wrapper sel_data_any) with
  | Ok r => r
  | Throw => None
  end.

(** First success wins; an exception ends the cascade. *)
Definition firstSuccess (strategies : list (Res (option JsVal))) : Res (option JsVal) :=
  firstReturn (fun r => r) strategies.

(** The steps of [extractVideoUrl] in the order of the source. *)
Definition strategiesOfSource (s : Downloader) (wrapper : Node) (post : option Node)
  : list (Res (option JsVal)) :=
  [Ok (originalSource wrapper); Ok (anySource wrapper); Ok (directSrc wrapper);
   storeLookup s post;
   Ok (videoDataAttribute wrapper); Ok (wrapperDataSrc wrapper);
   Ok (scanVideos wrapper); Ok (scanDataAttributes wrapper)].

(** The steps of [extractVideoUrlFromElement] in the order of the source. *)
Definition strategiesOfElement (video : Node) : list (Res (option JsVal)) :=
  [Ok (sourceUrl (querySelector video sel_source_original));
   Ok (sourceUrl (querySelector video sel_source));
   Ok (nonEmpty (src video));
   Ok (attrUrl video "data-src"); Ok (attrUrl video "data-video")].

(** ** The cascade as the design words it

    The six strategies of section 4.2, for a container, its post, and the
    chain of ancestors of its media element (nearest first). *)

(** The media element of a container: its first [video]. *)
Definition mediaElement (container : Node) : option Node :=
  querySelector container sel_video.

(** 5. Declared data-attributes carrying a URL ([data-src], [data-video],
    [data-url], [data-source]) on the element or up to 3 ancestor levels. *)
Definition spec_dataAttributes (container : Node) (ancestors : list Node)
  : option JsVal :=
  match mediaElement container with
  | Some el =>
      let on n := match firstReturn (fun a => Ok (attrUrl n a)) dataAttributes with
                  | Ok r => r
                  | Throw => None
                  end in
      match firstReturn (fun n => Ok (on n)) (el :: firstn 3 ancestors) with
      | Ok r => r
      | Throw => None
      end
  | None => None
  end.

(** 6. Exhaustive scan of all nested media/source elements for any
    non-empty URL. *)
Definition spec_scan (container : Node) : option JsVal :=
  match firstReturn (fun n => Ok (nonEmpty (src n)))
          (querySelectorAll container [[STag "video"]; [STag "source"]]) with
  | Ok r => r
  | Throw => None
  end.

Definition spec_cascade (s : Downloader) (container : Node) (post : option Node)
  (ancestors : list Node) : Res (option JsVal) :=
  firstSuccess
    [ (* 1. an explicit embedded source labeled "original" *)
      Ok (sourceUrl (querySelector container sel_source_original));
      (* 2. any embedded source element *)
      Ok (sourceUrl (querySelector container sel_source));
      (* 3. a direct source attribute on the media element itself *)
      Ok (sourceUrl (mediaElement container));
      (* 4. lookup in the store by the post identifier, preferred quality
            with fallback to full *)
      storeLookup s post;
      Ok (spec_dataAttributes container ancestors);
      Ok (spec_scan container) ].

(** ** Reading the trace of the service *)

(** The items pushed, started and finished so far, oldest first. *)
Fixpoint pushes (tr : list Effect) : list DownloadItem :=
  match tr with
  | [] => []
  | Enqueue _ d :: tr' => d :: pushes tr'
  | _ :: tr' => pushes tr'
  end.

Fixpoint starts (tr : list Effect) : list (Z * DownloadItem) :=
  match tr with
  | [] => []
  | Start t d :: tr' => (t, d) :: starts tr'
  | _ :: tr' => starts tr'
  end.

Fixpoint ends (tr : list Effect) : list (Z * DownloadItem) :=
  match tr with
  | [] => []
  | End t d _ :: tr' => (t, d) :: ends tr'
  | _ :: tr' => ends tr'
  end.

Definition enqueued (s : Service) : list DownloadItem := rev (pushes (trace s)).
Definition started (s : Service) : list DownloadItem := rev (map snd (starts (trace s))).
Definition completed (s : Service) : list DownloadItem := rev (map snd (ends (trace s))).

(** The instants at which the transfers started, oldest first. *)
Definition startTimes (s : Service) : list Z := rev (map fst (starts (trace s))).

(** The transfer that the drain loop is waiting for. *)
Definition inFlight (s : Service) : list DownloadItem :=
  match drain s with
  | AwaitDownload d => [d]
  | _ => []
  end.

(** Consecutive instants are at least [gap] apart. *)
Fixpoint spaced (gap : Z) (ts : list Z) : Prop :=
  match ts with
  | t1 :: (t2 :: _) as ts' => t1 + gap <= t2 /\ spaced gap ts'
  | _ => True
  end.

(** Events that only let the transfers and the timers proceed. *)
Definition hostOnly (e : Z * Event) : Prop :=
  match snd e with
  | DownloadSettled _ | TimerFired => True
  | _ => False
  end.

Definition failed (o : DownloadOutcome) : bool :=
  match o with
  | Resolved downloadId => negb (truthy downloadId)
  | Rejected => true
  end.

(** The notifications shown so far, oldest first. *)
Fixpoint notifications (tr : list Effect) : list (string * string) :=
  match tr with
  | [] => []
  | Notify title message :: tr' => (notifications tr' ++ [(title, message)])%list
  | _ :: tr' => notifications tr'
  end.

(** The acknowledgements sent so far, newest first. *)
Fixpoint responses (tr : list Effect) : list Ack :=
  match tr with
  | [] => []
  | Respond a :: tr' => a :: responses tr'
  | _ :: tr' => responses tr'
  end.

(** No code unit of [s] is [c]. *)
Definition free_of (c : ascii) (s : string) : Prop :=
  ~ In c (list_ascii_of_string s).

(** [s] is empty or ends with [c]. *)
Definition empty_or_ends_with (c : ascii) (s : string) : Prop :=
  s = EmptyString \/ exists s', s = s' ++ String c EmptyString.

(** [s] is empty or starts with [c]. *)
Definition empty_or_starts_with (c : ascii) (s : string) : Prop :=
  s = EmptyString \/ exists s', s = String c s'.

(** The newest start and the newest end, if any. *)
Definition lastStart (s : Service) : option Z :=
  match starts (trace s) with
  | (t, _) :: _ => Some t
  | [] => None
  end.

Definition lastEnd (s : Service) : option Z :=
  match ends (trace s) with
  | (t, _) :: _ => Some t
  | [] => None
  end.

(** Every start comes at least the cool-down after the end before it. *)
Fixpoint cooled (tr : list Effect) : Prop :=
  match tr with
  | [] => True
  | Start t _ :: tr' =>
      match ends tr' with
      | (t', _) :: _ => t' + cooldown <= t
      | [] => True
      end /\ cooled tr'
  | _ :: tr' => cooled tr'
  end.

(** What holds of the service between two events. *)
Record Inv (s : Service) : Prop := {
  inv_flag : isProcessingQueue s = match drain s with NotRunning => false | _ => true end;
  inv_idle : drain s = NotRunning -> downloadQueue s = [];
  inv_fifo : (started s ++ downloadQueue s)%list = enqueued s;
  inv_flight : started s = (completed s ++ inFlight s)%list;
  inv_spaced : spaced cooldown (startTimes s);
  inv_cooled : cooled (trace s);
  inv_time : forall t, lastStart s = Some t ->
                       match drain s with
                       | AwaitDownload _ => t <= clock s
                       | AwaitTimer t0 => t <= t0
                       | NotRunning => t + cooldown <= clock s
                       end;
  inv_end : forall t, lastEnd s = Some t ->
                      match drain s with
                      | AwaitDownload _ => True
                      | AwaitTimer t0 => t <= t0
                      | NotRunning => t + cooldown <= clock s
                      end
}.

(** ** A run of three requests

    The scenario of section 8: three requests of creator "Bob" with folder
    organization on; the first transfer is rejected by the host. *)

Definition request (u type : string) : JsVal :=
  JArr [JStr u; JStr "Bob"; JStr type].

Definition scenario : list (Z * Event) :=
  [ (0, Message (request "https://cdn.example/a/u1.jpg?sig=1" "download"));
    (0, Message (request "https://cdn.example/a/u2.jpg" "download"));
    (1, Message (request "https://cdn.example/v/u3.mp4?sig=3" "download video"));
    (2, SettingsLoaded 0 (Some defaultSettings));
    (2, SettingsLoaded 0 (Some defaultSettings));
    (3, SettingsLoaded 0 None);
    (40, DownloadSettled Rejected);
    (140, TimerFired);
    (150, DownloadSettled (Resolved (JNum 7)));
    (260, TimerFired);
    (300, DownloadSettled (Resolved (JNum 8)));
    (400, TimerFired) ].

Definition scenario_end : Service :=
  match run initial scenario with
  | Some s => s
  | None => initial
  end.

(** The scenario up to the first answer of the host. *)
Definition scenario_start : Service :=
  match run initial (firstn 6 scenario) with
  | Some s => s
  | None => initial
  end.

(** ** Vocabulary for the stores *)

(** The spelling of a quality tier as a key of a quality map. *)
Definition quality_key (q : Quality) : string :=
  match q with
  | QPreview => "preview"
  | Q240 => "240"
  | Q720 => "720"
  | QFull => "full"
  end.

(** The downloader with another preferred quality. *)
Definition withQuality (q : Quality) (s : Downloader) : Downloader :=
  {| mediaStore := mediaStore s; videoStore := videoStore s;
     imageStore := imageStore s;
     settings := {| quality := q; autoCreateFolder := autoCreateFolder (settings s) |};
     uniqueClass := uniqueClass s |}.

(** The downloader with other contents of [videoStore] and [imageStore]. *)
Definition withSideStores (videos images : JsMap) (s : Downloader) : Downloader :=
  {| mediaStore := mediaStore s; videoStore := videos; imageStore := images;
     settings := settings s; uniqueClass := uniqueClass s |}.

(** The shapes that the design lets the normalizer accept: an array, a
    [{list: [...]}] envelope, a single object with an id and its own media
    array. *)
Definition spec_accepts (data : JsVal) : bool :=
  isArray data
  || isArray (opt_prop data "list")
  || (truthy (opt_prop data "id") && isArray (opt_prop data "media")).

(** The shapes that [processApiResponse] lets through. *)
Definition accepted (data : JsVal) : bool :=
  isArray data
  || truthy (opt_prop data "list")
  || (truthy (opt_prop data "id") && isArray (opt_prop data "media")).

(** An element without layout. *)
Definition element (t : string) (cls : list string) (ats : list (string * string))
  (children : list Node) : Node :=
  Elem {| tag := t; classes := cls; attrs := ats; rect_top := 0; rect_left := 0 |}
       children.

(** The payload of the end-to-end scenario of section 8. *)
Definition payload42 : JsVal :=
  JObj [("id", JStr "42");
        ("media",
         JArr [JObj [("type", JStr "video");
                     ("preview", JStr "https://x/p.jpg?z=1");
                     ("source", JObj [("source", JStr "https://x/full.mp4")]);
                     ("videoSources", JObj [("720", JStr "https://x/720.mp4")])]])].

(** A player shell without any source, and a post around it. *)
Definition shell : Node := element "div" ["video-wrapper"] [] [].

Definition postWithId (id : string) : Node :=
  element "div" ["b-post"] [("data-id", id)] [shell].

(** The stores after the payload of the scenario has been recorded. *)
Definition recorded42 : Downloader :=
  recordResponse "https://onlyfans.com/api2/v2/posts/42"
    (Response true (Some payload42)) (newDownloader "of-downloader-k3v9x2a").

(** Nothing but [imageStore] differs between [s] and [s']. *)
Definition sameButImages (s s' : Downloader) : Prop :=
  mediaStore s' = mediaStore s /\ videoStore s' = videoStore s
  /\ settings s' = settings s /\ uniqueClass s' = uniqueClass s.

(** A method body that writes to [imageStore] only. *)
Definition writesImagesOnly {A : Type} (m : M A) : Prop :=
  forall s, sameButImages s (fst (m s)).

(** ** Sample containers *)

(** A player whose only trace of a URL is a [data-source] attribute. *)
Definition lazyVideo : Node :=
  element "video" [] [("data-source", "https://x/v.mp4")] [].

Definition lazyWrapper : Node := element "div" ["video-wrapper"] [] [lazyVideo].

(** A post of the feed with one image and its tool bar. *)
Definition imagePost : Node :=
  element "div" ["b-post"] [("data-id", "42")]
    [ element "div" ["g-user-username"] [] [Text " @bob "];
      element "img" ["b-post__media__img"] [("src", "https://x/a.jpg")] [];
      element "div" ["b-post__tools"] [] [] ].

Definition feedPage : Page := {| pageTitle := None; pathname := "/bob" |}.

Definition downloader0 : Downloader := newDownloader "of-downloader-k3v9x2a".

(** An observed request of the page for a listing of posts. *)
Definition postsRequest : Details :=
  {| tabId := 7;
     url := "https://onlyfans.com/api2/v2/posts/42?limit=10";
     requestHeaders :=
       Some [ {| h_name := "Cookie"; h_value := "sess=1" |};
              {| h_name := "User-Agent"; h_value := "UA" |} ] |}.

(* ================================================================== *)
(** * popup.js: the paths that update the control of a post *)
(* ================================================================== *)

(** [n.classList.contains(c)] *)
Definition classList_contains (n : Node) (c : string) : bool :=
  node_matches n (sel_class c).

(** [n.tagName], in lower case. *)
Definition tagName (n : Node) : string :=
  match n with
  | Elem d _ => tag d
  | Text _ => EmptyString
  end.

Definition sel_media_items : Selector :=
  [[SClass "b-post__media__img"]; [SClass "b-post__media__video"]].

Definition sel_img : Selector := [[STag "img"]].

(** What a node that [querySelectorAll] found before the controls were
    removed looks like after the removal. *)
Definition afterRemoval (s : Downloader) (n : Node) : Node :=
  removeAll (sel_unique s) n.

(** The end of the three [updateButtonsFor...] methods:
    [if (mediaUrl) { ... post.appendChild(buttonContainer) }]. *)
Definition appendControlFor (pg : Page) (s : Downloader) (post : Node)
  (mediaUrl : option JsVal) (buttonLabel : string) : Node :=
  match mediaUrl with
  | Some u =>
      let creatorUsername := getCreatorUsername pg post in
      appendChild post
        (createDownloadButtonContainer s [(u, creatorUsername, buttonLabel)])
  | None => post
  end.

(** [updateButtonsForMediaIndex(post, currentIndex, totalItems)];
    [totalItems] is only logged. *)
Definition updateButtonsForMediaIndex (pg : Page) (s : Downloader) (post : Node)
  (currentIndex : nat) : Node :=
  match nth_error (querySelectorAll post sel_media_items) currentIndex with
  | None => post
  | Some item =>
      let post := afterRemoval s post in
      let currentItem := afterRemoval s item in
      if classList_contains currentItem "b-post__media__video" then
        match querySelector currentItem sel_video with
        | Some video =>
            appendControlFor pg s post (extractVideoUrlFromElement video) "download video"
        | None => appendControlFor pg s post None "download"
        end
      else
        match querySelector currentItem sel_img with
        | Some img => appendControlFor pg s post (nonEmpty (src img)) "download"
        | None => appendControlFor pg s post None "download"
        end
  end.

(** [updateButtonsForMediaElement(post, mediaElement)]; [mediaElement] is a
    node of the post as it was found before the call. *)
Definition updateButtonsForMediaElement (pg : Page) (s : Downloader)
  (post mediaElement : Node) : Node :=
  let post := afterRemoval s post in
  let mediaElement := afterRemoval s mediaElement in
  if (tagName mediaElement =? "video")%string then
    appendControlFor pg s post (extractVideoUrlFromElement mediaElement) "download video"
  else if (tagName mediaElement =? "img")%string then
    appendControlFor pg s post (nonEmpty (src mediaElement)) "download"
  else
    match querySelector mediaElement sel_video with
    | Some video =>
        appendControlFor pg s post (extractVideoUrlFromElement video) "download video"
    | None =>
        match querySelector mediaElement sel_img with
        | Some img => appendControlFor pg s post (nonEmpty (src img)) "download"
        | None => appendControlFor pg s post None "download"
        end
    end.

(** [updateButtonsForClickedImage(post, clickedImage, imageIndex,
    totalImages)]; [videoContainer] is what
    [clickedImage.closest('.b-post__media__video')] finds, the two numbers
    are only logged. *)
Definition updateButtonsForClickedImage (pg : Page) (s : Downloader)
  (post clickedImage : Node) (videoContainer : option Node) : Node :=
  let post := afterRemoval s post in
  let clickedImage := afterRemoval s clickedImage in
  let imageUrl := nonEmpty (src clickedImage) in
  let videoUrl :=
    match videoContainer with
    | Some container =>
        match querySelector (afterRemoval s container) sel_video with
        | Some video => extractVideoUrlFromElement video
        | None => None
        end
    | None => None
    end in
  match videoUrl with
  | Some u => appendControlFor pg s post (Some u) "download video"
  | None => appendControlFor pg s post imageUrl "download"
  end.

(** [handleVideoLoad(video)] seen from [video.parentElement]; without a
    parent nothing happens. *)
Definition handleVideoLoad (pg : Page) (s : Downloader) (video parent : Node) : Node :=
  match extractVideoUrlFromElement video with
  | None => parent
  | Some videoUrl =>
      let creatorUsername := getCreatorUsername pg video in
      let downloadData := [(videoUrl, creatorUsername, "download video")] in
      match querySelector parent (sel_unique s) with
      | Some _ => parent
      | None => appendChild parent (createDownloadButtonContainer s downloadData)
      end
  end.

(** [retryVideoExtraction(element)]; [post] is what
    [element.closest('.b-post')] finds. *)
Definition retryVideoExtraction (pg : Page) (s : Downloader) (element : Node)
  (post : option Node) : Res Node :=
  if classList_contains element "video-wrapper" then
    videoUrl <- extractVideoUrl s element post ;;
    match videoUrl with
    | Some u =>
        let creatorUsername := getCreatorUsername pg element in
        let downloadData := [(u, creatorUsername, "download video")] in
        Ok (appendChild (removeAll (sel_unique s) element)
              (createDownloadButtonContainer s downloadData))
    | None => Ok element
    end
  else
    match querySelector element sel_video with
    | Some video =>
        match extractVideoUrlFromElement video with
        | Some u =>
            let creatorUsername := getCreatorUsername pg video in
            let downloadData := [(u, creatorUsername, "download video")] in
            match querySelector element (sel_unique s) with
            | Some _ => Ok element
            | None => Ok (appendChild element (createDownloadButtonContainer s downloadData))
            end
        | None => Ok element
        end
    | None => Ok element
    end.

(** ** Waiting for the content of the page *)




(** ** Reading a run of the service *)

(** The items whose transfer failed, oldest first. *)
Fixpoint failures (tr : list Effect) : list DownloadItem :=
  match tr with
  | [] => []
  | End _ d false :: tr' => (failures tr' ++ [d])%list
  | _ :: tr' => failures tr'
  end.

(** The notification of [executeDownload] for a failed item. *)
Definition failureNotice (d : DownloadItem) : string * string :=
  ("Download Failed", "Failed to download " ++ d_filename d).

(** The messages of a run, in order. *)
Definition messagesOf (evs : list (Z * Event)) : list JsVal :=
  flat_map (fun e => match snd e with
                     | Message m => [m]
                     | _ => []
                     end) evs.

(** An array of three elements or more. *)
Definition wellShaped (m : JsVal) : bool :=
  match m with
  | JArr items => Nat.leb 3 (length items)
  | _ => false
  end.

(** A well-shaped message whose first element is truthy. *)
Definition hasUrl (m : JsVal) : bool :=
  match m with
  | JArr items => Nat.leb 3 (length items) && truthy (nth 0 items JUndef)
  | _ => false
  end.

Definition accepted_ack : Ack := {| success := true; error := None |}.
Definition refused_ack : Ack :=
  {| success := false; error := Some "Invalid message format" |}.

(** The request that a message with a URL leaves behind. *)
Definition requestOf (m : JsVal) : list Request :=
  match m with
  | JArr items =>
      if hasUrl m
      then [{| r_url := nth 0 items JUndef; r_creator := nth 1 items JUndef;
               r_type := nth 2 items JUndef |}]
      else []
  | _ => []
  end.

(** The queue entry that [handleDownloadRequest] builds for a request. *)
Definition itemOf (r : Request) (settings : JsVal) (now : Z) : DownloadItem :=
  {| d_url := r_url r;
     d_filename := generateFilename (r_url r) (r_creator r) (r_type r) settings now;
     d_creator := r_creator r; d_type := r_type r |}.

(** ** Vocabulary for what the stores keep *)

(** Every key of [m] is a key of [m']. *)
Definition keepsKeys (m m' : JsMap) : Prop :=
  forall k, Map_has m k = true -> Map_has m' k = true.

(** From [s] to [s'] no store has lost a key, and the settings and the
    marker class are the same. *)
Definition grown (s s' : Downloader) : Prop :=
  keepsKeys (mediaStore s) (mediaStore s')
  /\ keepsKeys (videoStore s) (videoStore s')
  /\ keepsKeys (imageStore s) (imageStore s')
  /\ settings s' = settings s /\ uniqueClass s' = uniqueClass s.

(** A method body all of whose runs are related by [R]. *)
Definition preserves {A : Type} (R : Downloader -> Downloader -> Prop) (m : M A) : Prop :=
  forall s, R s (fst (m s)).

(** The fingerprint of a preview URL. *)
Definition fingerprint (preview : string) : JsVal :=
  JStr (first_part (split "?" preview)).

(** The store that [processApiData] selects. *)
Definition storeFor (isForDm : bool) : StoreRef :=
  if isForDm then VideoStore else MediaStore.

(** The records of a payload as [processApiData] takes them. *)
Definition recordsOf (data : JsVal) : list JsVal :=
  match data with
  | JArr items => items
  | _ => [data]
  end.

(** The id of a record is no string. *)
Definition idIsNoString (item : JsVal) : Prop :=
  forall i, prop item "id" <> Ok (JStr i).

(** [s] and [s'] answer alike to every string key of [mediaStore], and
    have the same settings. *)
Definition sameStringKeys (s s' : Downloader) : Prop :=
  (forall id, Map_get (mediaStore s') (JStr id) = Map_get (mediaStore s) (JStr id))
  /\ settings s' = settings s.

(** A record of the feed whose media list begins with [null]. *)
Definition brokenRecord : JsVal :=
  JObj [("id", JStr "42"); ("media", JArr [JNull])].

(** A video record as the listing endpoints give it, with a number for
    its id. *)
Definition numberedRecord : JsVal :=
  JObj [("id", JNum 42);
        ("media",
         JArr [JObj [("type", JStr "video");
                     ("source", JObj [("source", JStr "https://x/full.mp4")])]])].

(** The test [type.includes('video')] of [groupMediaByType]. *)
Definition isVideoEntry (m : Media) : bool := includes (snd m) "video".

(** The number of nodes among [n] and its element descendants that match. *)
Definition matching (sel : Selector) (n : Node) : nat :=
  length (filter (fun x => node_matches x sel)
            (match n with
             | Text _ => []
             | Elem _ _ => n :: descendants n
             end)).

Definition sel_tools : Selector := sel_class "b-post__tools".
Definition sel_message_body : Selector := sel_class "b-chat__message__body".

(** A chat message with one image and its body. *)
Definition chatMessage : Node :=
  element "div" ["b-chat__message"] []
    [ element "div" ["b-chat__message__body"] []
        [ element "div" ["b-chat__message__media"] []
            [ element "img" [] [("src", "https://x/m.jpg")] [] ] ] ].

(** A video of a lazy player whose wrapper carries the address. *)
Definition bareVideo : Node := element "video" [] [("data-src", "blob")] [].
Definition carrier : Node :=
  element "div" [] [("data-url", "https://cdn/v.mp4")] [bareVideo].

(** ** Requests and the order of their settings lookups *)








(** ** Vocabulary for the records of [mediaStore] *)

(** The record does not carry the string [id] as its id. *)
Definition otherId (id : string) (item : JsVal) : Prop :=
  prop item "id" <> Ok (JStr id).

(** An entry of a media list whose type can be read and is not "video". *)
Definition noVideo (m : JsVal) : Prop :=
  exists t, prop m "type" = Ok t /\ sameValueZero t (JStr "video") = false.

(** A listing with another record before the record of the scenario, and
    the record of another post. *)
Definition listing42 : JsVal :=
  JArr [JObj [("id", JStr "41"); ("media", JArr [])]; payload42].

Definition record43 : JsVal :=
  JObj [("id", JStr "43");
        ("media", JArr [JObj [("type", JStr "photo"); ("src", JStr "https://x/i.jpg")]])].

(* ================================================================== *)
(** * background.js: generateFilename on UTF-16 code units *)
(* ================================================================== *)

Module Utf16.

(** A JavaScript string: its UTF-16 code units. *)
Definition ustring : Type := list N.

(** The code units of a [string]. *)
Definition units (s : string) : ustring :=
  map N_of_ascii (list_ascii_of_string s).

(** [s.split(sep)] for a separator of one code unit. *)
Fixpoint split (sep : N) (s : ustring) : list ustring :=
  match s with
  | [] => [[]]
  | c :: s' =>
      if (c =? sep)%N then [] :: split sep s'
      else match split sep s' with
           | seg :: rest => (c :: seg) :: rest
           | [] => [[c]]
           end
  end.

(** [parts[0]] and [parts[parts.length - 1]] of a split. *)
Definition first_part (parts : list ustring) : ustring := hd [] parts.
Definition last_part (parts : list ustring) : ustring := last parts [].

(** The class [[a-zA-Z0-9]]: the code units of [a]-[z], [A]-[Z], [0]-[9]. *)
Definition is_alnum (c : N) : bool :=
  ((97 <=? c) && (c <=? 122) || (65 <=? c) && (c <=? 90)
   || (48 <=? c) && (c <=? 57))%N.

(** [creator.replace(/[^a-zA-Z0-9]/g, '_')]: without the [u] flag the
    replacement goes code unit by code unit. *)
Definition clean_creator (creator : ustring) : ustring :=
  map (fun c => if is_alnum c then c else 95%N) creator.

(** The name that the [catch] branch builds from the clock. *)
Definition placeholder (now : Z) : ustring :=
  (units "download_" ++ units (number_to_string now) ++ units ".file")%list.

(** [generateFilename(url, creator, type, settings)]; an argument is
    [Some] string or [None] for a value that is no string, [now] is the
    reading of [Date.now()] that the [catch] branch takes.  [url.split]
    and [creator.replace] exist on strings only. *)
Definition generateFilename (url creator type : option ustring) (settings : JsVal)
  (now : Z) : ustring :=
  let body : Res ustring :=
    match url with
    | Some u =>
        let urlParts := split 47 (first_part (split 63 u)) in
        let filename := last_part urlParts in
        match creator with
        | Some c =>
            let cleanCreator := clean_creator c in
            acf <- prop settings "autoCreateFolder" ;;
            if truthy acf then Ok (cleanCreator ++ 47%N :: filename)%list
            else Ok filename
        | None => Throw
        end
    | None => Throw
    end in
  match body with
  | Ok name => name
  | Throw => placeholder now
  end.

(** A value of the [string] model as an argument. *)
Definition arg (v : JsVal) : option ustring :=
  match v with
  | JStr s => Some (units s)
  | _ => None
  end.

End Utf16.

(* ================================================================== *)
(* ================================================================== *)
(** * Properties *)
(* ================================================================== *)
(* ================================================================== *)

(* ================================================================== *)
(** * Filename synthesis *)
(* ================================================================== *)

Section SplitFacts.

Variable sep : ascii.

Lemma split_not_nil (s : string) : split sep s <> [].
Proof.
  destruct s as [|c s]; simpl; [discriminate|].
  destruct (Ascii.eqb c sep); [discriminate|].
  destruct (split sep s); discriminate.
Qed.

Lemma free_of_cons (c : ascii) (s : string) :
  free_of sep (String c s) <-> c <> sep /\ free_of sep s.
Proof.
  unfold free_of; simpl; split.
  - intros H; split; intro K; apply H; [left; congruence | right; exact K].
  - intros [H1 H2] [K|K]; [congruence | contradiction].
Qed.

Lemma free_of_empty : free_of sep EmptyString.
Proof. intros []. Qed.

(** The first part of a split: everything before the first separator. *)
Lemma split_first (s : string) :
  exists rest,
    s = first_part (split sep s) ++ rest
    /\ free_of sep (first_part (split sep s))
    /\ empty_or_starts_with sep rest.
Proof.
  induction s as [|c s IH]; simpl.
  - exists EmptyString; repeat split; [apply free_of_empty | left; reflexivity].
  - destruct (Ascii.eqb_spec c sep) as [E|N].
    + exists (String c s); subst c; repeat split;
        [apply free_of_empty | right; eexists; reflexivity].
    + destruct IH as (rest & E & F & R).
      pose proof (split_not_nil s) as NN.
      destruct (split sep s) as [|seg parts]; [contradiction|].
      unfold first_part in *; simpl in *.
      exists rest; repeat split; [congruence | apply free_of_cons; auto | exact R].
Qed.

(** A split has one part, the whole string without separator, or its
    last part follows the last separator. *)
Lemma split_shape (s : string) :
  match split sep s with
  | [] => False
  | [seg] => s = seg /\ free_of sep s
  | _ :: parts =>
      exists p, s = (p ++ String sep EmptyString) ++ last parts EmptyString
                /\ free_of sep (last parts EmptyString)
  end.
Proof.
  induction s as [|c s IH]; simpl.
  - split; [reflexivity | apply free_of_empty].
  - destruct (Ascii.eqb_spec c sep) as [E|N].
    + subst c. destruct (split sep s) as [|seg [|seg' parts]]; [contradiction| |].
      * destruct IH as [<- F]. exists EmptyString; split; [reflexivity | exact F].
      * destruct IH as (p & E & F). exists (String sep p); split;
          [simpl; f_equal; exact E | exact F].
    + destruct (split sep s) as [|seg [|seg' parts]]; [contradiction| |].
      * destruct IH as [<- F]. split; [reflexivity | apply free_of_cons; auto].
      * destruct IH as (p & E & F). exists (String c p); split;
          [simpl; f_equal; exact E | exact F].
Qed.

(** The last part of a split: everything after the last separator. *)
Lemma split_last (s : string) :
  exists pre,
    s = pre ++ last_part (split sep s)
    /\ free_of sep (last_part (split sep s))
    /\ empty_or_ends_with sep pre.
Proof.
  pose proof (split_shape s) as H. unfold last_part.
  destruct (split sep s) as [|seg [|seg' parts]]; [contradiction| |].
  - destruct H as [<- F]. exists EmptyString; repeat split; [exact F | left; reflexivity].
  - destruct H as (p & E & F).
    exists (p ++ String sep EmptyString).
    change (last (seg :: seg' :: parts) EmptyString)
      with (last (seg' :: parts) EmptyString).
    repeat split; [exact E | exact F | right; exists p; reflexivity].
Qed.

End SplitFacts.

Lemma append_assoc (a b c : string) : (a ++ b) ++ c = a ++ (b ++ c).
Proof. induction a as [|x a IH]; simpl; [reflexivity | rewrite IH; reflexivity]. Qed.

Lemma append_empty_r (a : string) : a ++ "" = a.
Proof. induction a as [|x a IH]; simpl; [reflexivity | rewrite IH; reflexivity]. Qed.

(** ** Code units *)

Section UnitSplit.

Variable sep : N.

Lemma usplit_not_nil (s : Utf16.ustring) : Utf16.split sep s <> [].
Proof.
  destruct s as [|c s]; cbn [Utf16.split]; [discriminate|].
  destruct (c =? sep)%N; [discriminate|].
  destruct (Utf16.split sep s); discriminate.
Qed.

(** The first part of a split: everything before the first separator. *)
Lemma usplit_first (s : Utf16.ustring) :
  exists rest,
    s = (Utf16.first_part (Utf16.split sep s) ++ rest)%list
    /\ ~ In sep (Utf16.first_part (Utf16.split sep s))
    /\ (rest = [] \/ exists r, rest = sep :: r).
Proof.
  induction s as [|c s IH]; cbn [Utf16.split].
  - exists []. repeat split; [intros [] | left; reflexivity].
  - destruct (N.eqb_spec c sep) as [E|N].
    + exists (c :: s). subst c. repeat split; [intros [] | right; eexists; reflexivity].
    + destruct IH as (rest & E & F & R).
      pose proof (usplit_not_nil s) as NN.
      destruct (Utf16.split sep s) as [|seg parts]; [contradiction|].
      unfold Utf16.first_part in *. cbn [hd app] in *.
      exists rest. repeat split; [congruence | | exact R].
      intros [K|K]; [congruence | exact (F K)].
Qed.

(** A split has one part, the whole string without separator, or its
    last part follows the last separator. *)
Lemma usplit_shape (s : Utf16.ustring) :
  match Utf16.split sep s with
  | [] => False
  | [seg] => s = seg /\ ~ In sep s
  | _ :: parts =>
      exists p, s = ((p ++ [sep]) ++ last parts [])%list /\ ~ In sep (last parts [])
  end.
Proof.
  induction s as [|c s IH]; cbn [Utf16.split].
  - split; [reflexivity | intros []].
  - destruct (N.eqb_spec c sep) as [E|N].
    + subst c. destruct (Utf16.split sep s) as [|seg [|seg' parts]]; [contradiction| |].
      * destruct IH as [<- F]. exists []. split; [reflexivity | exact F].
      * destruct IH as (p & E & F). exists (sep :: p). split;
          [cbn [app]; f_equal; exact E | exact F].
    + destruct (Utf16.split sep s) as [|seg [|seg' parts]]; [contradiction| |].
      * destruct IH as [<- F]. split; [reflexivity|].
        intros [K|K]; [congruence | exact (F K)].
      * destruct IH as (p & E & F). exists (c :: p). split;
          [cbn [app]; f_equal; exact E | exact F].
Qed.

(** The last part of a split: everything after the last separator. *)
Lemma usplit_last (s : Utf16.ustring) :
  exists pre,
    s = (pre ++ Utf16.last_part (Utf16.split sep s))%list
    /\ ~ In sep (Utf16.last_part (Utf16.split sep s))
    /\ (pre = [] \/ exists p, pre = (p ++ [sep])%list).
Proof.
  pose proof (usplit_shape s) as H. unfold Utf16.last_part.
  destruct (Utf16.split sep s) as [|seg [|seg' parts]]; [contradiction| |].
  - destruct H as [<- F]. exists []. repeat split; [exact F | left; reflexivity].
  - destruct H as (p & E & F).
    exists (p ++ [sep])%list.
    change (last (seg :: seg' :: parts) []) with (last (seg' :: parts) []).
    repeat split; [exact E | exact F | right; exists p; reflexivity].
Qed.

End UnitSplit.

(** ** The [string] model is the restriction of the model on code units *)

Lemma units_app (a b : string) :
  Utf16.units (a ++ b) = (Utf16.units a ++ Utf16.units b)%list.
Proof.
  unfold Utf16.units. induction a as [|x a IH]; cbn [append list_ascii_of_string map app].
  - reflexivity.
  - rewrite IH. reflexivity.
Qed.

Lemma N_of_ascii_eqb (c d : ascii) : (N_of_ascii c =? N_of_ascii d)%N = Ascii.eqb c d.
Proof.
  destruct (Ascii.eqb_spec c d) as [->|N].
  - apply N.eqb_refl.
  - apply N.eqb_neq. intros E. apply N.
    rewrite <- (ascii_N_embedding c), <- (ascii_N_embedding d), E. reflexivity.
Qed.

Lemma split_units (sep : ascii) (s : string) :
  Utf16.split (N_of_ascii sep) (Utf16.units s) = map Utf16.units (split sep s).
Proof.
  induction s as [|c s IH]; [reflexivity|].
  change (Utf16.units (String c s)) with (N_of_ascii c :: Utf16.units s).
  cbn [Utf16.split split]. rewrite N_of_ascii_eqb, IH.
  destruct (Ascii.eqb c sep); [reflexivity|].
  pose proof (split_not_nil sep s) as NN.
  destruct (split sep s) as [|seg parts]; [contradiction | reflexivity].
Qed.

Lemma first_part_units (parts : list string) :
  Utf16.first_part (map Utf16.units parts) = Utf16.units (first_part parts).
Proof. destruct parts; reflexivity. Qed.

Lemma last_part_units (parts : list string) :
  Utf16.last_part (map Utf16.units parts) = Utf16.units (last_part parts).
Proof.
  unfold Utf16.last_part, last_part.
  induction parts as [|p [|p' parts] IH]; try reflexivity.
  exact IH.
Qed.

Lemma is_alnum_units (c : ascii) : Utf16.is_alnum (N_of_ascii c) = is_alnum c.
Proof.
  destruct c as [[] [] [] [] [] [] [] []]; vm_compute; reflexivity.
Qed.

Lemma clean_creator_units (c : string) :
  Utf16.clean_creator (Utf16.units c) = Utf16.units (clean_creator c).
Proof.
  unfold Utf16.clean_creator, clean_creator, Utf16.units.
  induction c as [|x c IH]; [reflexivity|].
  cbn [list_ascii_of_string map map_units]. rewrite is_alnum_units, IH.
  destruct (is_alnum x); reflexivity.
Qed.

Lemma generateFilename_units (url creator type settings : JsVal) (now : Z) :
  Utf16.generateFilename (Utf16.arg url) (Utf16.arg creator) (Utf16.arg type) settings now
  = Utf16.units (generateFilename url creator type settings now).
Proof.
  assert (P : Utf16.placeholder now
              = Utf16.units ("download_" ++ number_to_string now ++ ".file")).
  { unfold Utf16.placeholder. rewrite !units_app. reflexivity. }
  unfold Utf16.generateFilename, generateFilename.
  destruct url as [| | | |u| |]; cbn [Utf16.arg]; try exact P.
  destruct creator as [| | | |c| |]; cbn [Utf16.arg]; try exact P.
  change 63%N with (N_of_ascii "?"). change 47%N with (N_of_ascii "/").
  rewrite split_units, first_part_units, split_units, last_part_units, clean_creator_units.
  destruct (prop settings "autoCreateFolder") as [acf|]; cbn [bind]; [|exact P].
  destruct (truthy acf); [|reflexivity].
  rewrite !units_app. reflexivity.
Qed.

(** The digits of the placeholder spell the reading of the clock. *)
Lemma number_to_string_spells (z : Z) :
  option_map Z.of_int (NilEmpty.int_of_string (number_to_string z)) = Some z.
Proof.
  unfold number_to_string. rewrite NilEmpty.isi. cbn [option_map].
  rewrite DecimalZ.of_to. reflexivity.
Qed.

(** C2.  Filename synthesis, for strings of any code units.  For a URL and
    a creator that are strings, the name is built from [base], the part
    of the URL after the last [/] of what precedes the first [?], and
    from the creator with every code unit outside [0]-[9] (48 to 57),
    [A]-[Z] (65 to 90) and [a]-[z] (97 to 122) replaced by [_] (95), the
    others kept ("Jane Doe#1" gives "Jane_Doe_1"; a code unit above 255
    gives [_] as well): [<cleanCreator>/<base>] when [autoCreateFolder]
    is set, [base] otherwise.  Whatever the arguments are, a name comes
    out: when the synthesis throws (the URL or the creator is no string,
    the settings are null), it is the placeholder [download_<now>.file],
    whose digits spell the reading of the clock in decimal.  On strings
    whose code units are below 256 this is the [generateFilename] of the
    queue. *)
Theorem generateFilename_synthesis :
  (forall (u c : list N) (type : option (list N)) (settings : JsVal) (now : Z),
      exists dir base query,
        u = ((dir ++ base) ++ query)%list
        /\ ~ In 63%N (dir ++ base) /\ (query = [] \/ exists q, query = 63%N :: q)
        /\ ~ In 47%N base /\ (dir = [] \/ exists d, dir = (d ++ [47%N])%list)
        /\ Utf16.generateFilename (Some u) (Some c) type settings now =
             match prop settings "autoCreateFolder" with
             | Ok enabled =>
                 if truthy enabled then (Utf16.clean_creator c ++ 47%N :: base)%list
                 else base
             | Throw => Utf16.placeholder now
             end)
  /\ (forall c : list N,
         length (Utf16.clean_creator c) = length c
         /\ forall i x,
              nth_error c i = Some x ->
              nth_error (Utf16.clean_creator c) i
              = Some (if ((48 <=? x) && (x <=? 57) || (65 <=? x) && (x <=? 90)
                          || (97 <=? x) && (x <=? 122))%N
                      then x else 95%N))
  /\ Utf16.clean_creator (Utf16.units "Jane Doe#1") = Utf16.units "Jane_Doe_1"
  /\ Utf16.clean_creator [47; 48; 57; 58; 64; 65; 90; 91; 96; 97; 122; 123; 233; 8364; 55357]%N
     = [95; 48; 57; 95; 95; 65; 90; 95; 95; 97; 122; 95; 95; 95; 95]%N
  /\ (forall (url creator type : option (list N)) (settings : JsVal) (now : Z),
         (exists u c, url = Some u /\ creator = Some c
                      /\ settings <> JNull /\ settings <> JUndef)
         \/ Utf16.generateFilename url creator type settings now = Utf16.placeholder now)
  /\ (forall now : Z,
         exists digits,
           Utf16.placeholder now
           = (Utf16.units "download_" ++ Utf16.units digits ++ Utf16.units ".file")%list
           /\ option_map Z.of_int (NilEmpty.int_of_string digits) = Some now)
  /\ Utf16.generateFilename None (Some (Utf16.units "Bob")) None defaultSettings
       1700000000000
     = Utf16.units "download_1700000000000.file"
  /\ Utf16.generateFilename (Some (Utf16.units "https://cdn.example/a/u1.jpg?sig=1"))
       (Some (Utf16.units "Jane Doe#1")) None defaultSettings 0
     = Utf16.units "Jane_Doe_1/u1.jpg"
  /\ (forall (url creator type settings : JsVal) (now : Z),
         Utf16.generateFilename (Utf16.arg url) (Utf16.arg creator) (Utf16.arg type)
           settings now
         = Utf16.units (generateFilename url creator type settings now)).
Proof.
  split; [|split; [|split; [|split; [|split; [|split; [|split; [|split]]]]]]].
  - intros u c type settings now.
    destruct (usplit_first 63 u) as (query & Eu & Fq & Sq).
    destruct (usplit_last 47 (Utf16.first_part (Utf16.split 63 u)))
      as (dir & Eb & Fb & Sd).
    exists dir, (Utf16.last_part (Utf16.split 47 (Utf16.first_part (Utf16.split 63 u)))),
      query.
    rewrite <- Eb.
    repeat split; try assumption.
    unfold Utf16.generateFilename.
    destruct (prop settings "autoCreateFolder") as [enabled|]; cbn [bind]; [|reflexivity].
    destruct (truthy enabled); reflexivity.
  - intros c. split; [apply length_map|].
    intros i x H. unfold Utf16.clean_creator. rewrite nth_error_map, H. cbn [option_map].
    f_equal. unfold Utf16.is_alnum.
    destruct ((97 <=? x) && (x <=? 122))%N, ((65 <=? x) && (x <=? 90))%N,
      ((48 <=? x) && (x <=? 57))%N; reflexivity.
  - vm_compute. reflexivity.
  - vm_compute. reflexivity.
  - intros url0 creator type settings now.
    destruct url0 as [u|]; [|right; reflexivity].
    destruct creator as [c|]; [|right; reflexivity].
    destruct settings; try (right; reflexivity);
      left; do 2 eexists; repeat split; discriminate.
  - intros now. exists (number_to_string now). split; [reflexivity|].
    apply number_to_string_spells.
  - vm_compute. reflexivity.
  - vm_compute. reflexivity.
  - apply generateFilename_units.
Qed.

(* ================================================================== *)
(** * The re-fetch does not recurse *)
(* ================================================================== *)

Lemma prefix_refl (t : string) : String.prefix t t = true.
Proof.
  induction t as [|c t IH]; simpl; [reflexivity|].
  destruct (ascii_dec c c); [exact IH | contradiction].
Qed.

Lemma prefix_append (t s : string) : String.prefix t (t ++ s) = true.
Proof.
  induction t as [|c t IH]; simpl; [destruct s; reflexivity|].
  destruct (ascii_dec c c); [exact IH | contradiction].
Qed.

Lemma includes_append_r (s t : string) : includes (s ++ t) t = true.
Proof.
  induction s as [|c s IH]; simpl.
  - destruct t; simpl; [reflexivity|].
    rewrite prefix_refl.
    destruct (ascii_dec a a); [reflexivity | contradiction].
  - rewrite IH. apply orb_true_r.
Qed.

Lemma handleApiRequest_fetches (d : Details) (f : FetchCall) :
  In f (handleApiRequest d) ->
  fetch_url f = url d ++ trilobite /\ fetch_tab f = tabId d
  /\ (tabId d <? 0) = false /\ includes (url d) trilobite = false.
Proof.
  unfold handleApiRequest.
  destruct (tabId d <? 0) eqn:T; simpl; [intros []|].
  destruct (includes (url d) trilobite) eqn:I; simpl; [intros []|].
  destruct (isRelevantEndpoint (url d)); simpl; [|intros []].
  destruct (extractHeaders (requestHeaders d)); simpl; [|intros []].
  intros [<-|[]]; simpl; auto.
Qed.

(** C7.  The re-fetch cannot recurse.  Every URL that the service fetches
    is the observed URL followed by the private fragment; a request whose
    URL carries the fragment, or whose tab id is negative, issues no fetch;
    so, over any sequence of observed requests, no fetch that was issued
    issues a fetch when it is observed in its turn, whatever tab and headers
    the host reports for it. *)
Theorem refetch_never_refetched :
  (forall d f, In f (handleApiRequest d) ->
               fetch_url f = url d ++ trilobite
               /\ includes (fetch_url f) trilobite = true)
  /\ (forall d, includes (url d) trilobite = true \/ tabId d < 0 ->
                handleApiRequest d = [])
  /\ (forall ds f tab hs,
         In f (observeRequests ds) ->
         handleApiRequest
           {| tabId := tab; url := fetch_url f; requestHeaders := hs |} = []).
Proof.
  assert (skip : forall d, includes (url d) trilobite = true \/ tabId d < 0 ->
                           handleApiRequest d = []).
  { intros d H. unfold handleApiRequest.
    destruct H as [H|H].
    - rewrite H, orb_true_r. reflexivity.
    - apply Z.ltb_lt in H. rewrite H. reflexivity. }
  split; [|split].
  - intros d f H. apply handleApiRequest_fetches in H as (E & _).
    split; [exact E|]. rewrite E. apply includes_append_r.
  - exact skip.
  - intros ds f tab hs H.
    apply in_flat_map in H as (d & _ & H).
    apply handleApiRequest_fetches in H as (E & _).
    apply skip. left. simpl. rewrite E. apply includes_append_r.
Qed.

(** The re-fetch of a listing of posts carries the fragment and the
    replayed headers without the denied ones, and is skipped when it is
    observed, even if the host reported the tab of the page for it. *)
Lemma refetch_never_refetched_witness :
  exists f,
    handleApiRequest postsRequest = [f]
    /\ fetch_url f = "https://onlyfans.com/api2/v2/posts/42?limit=10#trilobite"
    /\ fetch_headers f = [("Cookie", "sess=1")]
    /\ handleApiRequest
         {| tabId := 7; url := fetch_url f; requestHeaders := requestHeaders postsRequest |}
       = [].
Proof.
  destruct refetch_never_refetched as (_ & _ & K).
  eexists. split; [reflexivity|]. split; [reflexivity|]. split; [reflexivity|].
  apply (K [postsRequest]). left. reflexivity.
Defined.

(* ================================================================== *)
(** * The download queue *)
(* ================================================================== *)

Arguments generateFilename : simpl never.
Arguments String.append : simpl never.

Lemma spaced_snoc (g : Z) (l : list Z) (x t : Z) :
  spaced g (l ++ [x]) -> x + g <= t -> spaced g ((l ++ [x]) ++ [t]).
Proof.
  induction l as [|a l IH]; simpl; intros H Hx.
  - split; [exact Hx | exact I].
  - destruct (l ++ [x])%list as [|b m] eqn:E.
    + destruct l; discriminate.
    + simpl in *. destruct H as [Hab Hm]. split; [exact Hab | apply IH; assumption].
Qed.

Ltac unfold_views :=
  unfold started, completed, enqueued, startTimes, inFlight, lastStart, lastEnd,
    drainLoop in *.

Ltac inv_fields := split; unfold_views; simpl.

Lemma Inv_initial : Inv initial.
Proof. inv_fields; try reflexivity; try discriminate; auto. Qed.

Lemma startTimes_start (t : Z) (tr : list Effect) :
  spaced cooldown (rev (map fst (starts tr))) ->
  (forall t', match starts tr with (t0, _) :: _ => Some t0 | [] => None end = Some t' ->
              t' + cooldown <= t) ->
  spaced cooldown (rev (map fst (starts tr)) ++ [t]).
Proof.
  destruct (starts tr) as [|[t0 d0] m]; simpl; intros H K; [exact I|].
  apply spaced_snoc; [exact H | apply K; reflexivity].
Qed.

Lemma cooled_start (t : Z) (tr : list Effect) :
  cooled tr ->
  (forall t', match ends tr with (t0, _) :: _ => Some t0 | [] => None end = Some t' ->
              t' + cooldown <= t) ->
  match ends tr with
  | (t', _) :: _ => t' + cooldown <= t
  | [] => True
  end /\ cooled tr.
Proof.
  intros C K. split; [|exact C].
  destruct (ends tr) as [|[t0 d0] m]; [exact I | apply K; reflexivity].
Qed.

Lemma Inv_tick (s : Service) (now : Z) : clock s <= now -> Inv s -> Inv (tick now s).
Proof.
  intros Hn [F I0 Q L S C T U]. split; simpl; auto.
  - intros t Ht. specialize (T t Ht). destruct (drain s); lia.
  - intros t Ht. specialize (U t Ht). destruct (drain s); auto; lia.
Qed.

Lemma Inv_onMessage (m : JsVal) (s : Service) : Inv s -> Inv (onMessage m s).
Proof.
  intros [F I0 Q L S C T U].
  assert (H : forall a s', trace s' = trace s -> downloadQueue s' = downloadQueue s ->
                           isProcessingQueue s' = isProcessingQueue s ->
                           drain s' = drain s -> clock s' = clock s ->
                           Inv (emit (Respond a) s')).
  { intros a s' Et Eq Ep Ed Ec.
    split; unfold_views; simpl; rewrite ?Et, ?Eq, ?Ep, ?Ed, ?Ec; auto. }
  unfold onMessage.
  destruct m; try (apply H; reflexivity).
  destruct (Nat.leb 3 (length items)); [|apply H; reflexivity].
  apply H; unfold handleDownloadRequest;
    destruct (negb (truthy (nth 0 items JUndef))); reflexivity.
Qed.

Lemma Inv_resume (r : Request) (settings : JsVal) (now : Z) (p : list Request) (s : Service) :
  clock s = now -> Inv s ->
  Inv (handleDownloadRequest_resume r settings now (set_pending p s)).
Proof.
  intros Hc [F I0 Q L S C T U].
  unfold handleDownloadRequest_resume, processDownloadQueue; simpl.
  destruct s as [q b dr pd ck tr]; simpl in *.
  unfold_views; simpl in *.
  destruct dr; subst b; simpl.
  - (* no activation: the item starts at once *)
    rewrite (I0 eq_refl) in *; simpl.
    rewrite app_nil_r in Q.
    inv_fields; auto; try discriminate.
    + rewrite app_nil_r, Q. reflexivity.
    + rewrite L. simpl. rewrite app_nil_r. reflexivity.
    + apply startTimes_start; [exact S|].
      intros t' Ht'. specialize (T t' Ht'). lia.
    + apply cooled_start; [exact C|].
      intros t' Ht'. specialize (U t' Ht'). lia.
    + intros t Ht. injection Ht as <-. lia.
  - inv_fields; auto; try discriminate.
    rewrite app_assoc, Q. reflexivity.
  - inv_fields; auto; try discriminate.
    rewrite app_assoc, Q. reflexivity.
Qed.

(** What [executeDownload_resume] leaves behind. *)
Lemma executeDownload_resume_trace (d : DownloadItem) (o : DownloadOutcome) (now : Z)
  (s : Service) :
  trace (executeDownload_resume d o now s) =
    (End now d (negb (failed o))
     :: (if failed o
         then [Notify "Download Failed" ("Failed to download " ++ d_filename d)]
         else []) ++ trace s)%list
  /\ downloadQueue (executeDownload_resume d o now s) = downloadQueue s
  /\ clock (executeDownload_resume d o now s) = clock s
  /\ isProcessingQueue (executeDownload_resume d o now s) = isProcessingQueue s
  /\ pending (executeDownload_resume d o now s) = pending s.
Proof.
  unfold executeDownload_resume, failed.
  destruct o as [id|]; [destruct (truthy id)|]; simpl; auto.
Qed.

Lemma Inv_settled (d : DownloadItem) (o : DownloadOutcome) (now : Z) (s : Service) :
  clock s = now -> drain s = AwaitDownload d -> Inv s ->
  Inv (set_drain (AwaitTimer now) (executeDownload_resume d o now s)).
Proof.
  intros Hc Hd [F I0 Q L S C T U].
  destruct (executeDownload_resume_trace d o now s) as (En & Eq & Ec & Eb & _).
  unfold_views. rewrite Hd in *.
  inv_fields; rewrite ?En, ?Eq, ?Ec, ?Eb; destruct (failed o); simpl;
    auto; try discriminate.
  all: try (rewrite L, app_nil_r; reflexivity).
  all: try (intros t Ht; specialize (T t Ht); lia).
  all: intros t [= <-]; lia.
Qed.

Lemma Inv_drainLoop (t0 now : Z) (s : Service) :
  clock s = now -> drain s = AwaitTimer t0 -> t0 + cooldown <= now -> Inv s ->
  Inv (drainLoop now s).
Proof.
  intros Hc Hd Ht [F I0 Q L S C T U].
  unfold_views.
  rewrite Hd in *.
  destruct (downloadQueue s) as [|d q] eqn:Eq.
  - inv_fields; auto.
    + intros t K. specialize (T t K). lia.
    + intros t K. specialize (U t K). lia.
  - inv_fields; auto; try discriminate.
    + rewrite <- Q, <- app_assoc. reflexivity.
    + rewrite L, app_nil_r. reflexivity.
    + apply startTimes_start; [exact S|].
      intros t' K. specialize (T t' K). lia.
    + apply cooled_start; [exact C|].
      intros t' K. specialize (U t' K). lia.
    + intros t K. injection K as <-. lia.
Qed.

Lemma Inv_step (s s' : Service) (now : Z) (e : Event) :
  Inv s -> step s now e = Some s' -> Inv s'.
Proof.
  intros H. unfold step.
  destruct (now <? clock s) eqn:Hn; [discriminate|].
  apply Z.ltb_ge in Hn.
  pose proof (Inv_tick s now Hn H) as Ht.
  destruct e as [m|k stored|o|].
  - intros [= <-]. apply Inv_onMessage, Ht.
  - destruct (nth_error (pending (tick now s)) k); [|discriminate].
    intros [= <-]. apply Inv_resume; [reflexivity | exact Ht].
  - destruct (drain (tick now s)) eqn:Hd; try discriminate.
    intros [= <-]. apply Inv_settled; [reflexivity | exact Hd | exact Ht].
  - destruct (drain (tick now s)) eqn:Hd; try discriminate.
    destruct (now <? set_at + cooldown) eqn:Hc; [discriminate|].
    apply Z.ltb_ge in Hc.
    intros [= <-]. eapply Inv_drainLoop; [reflexivity | exact Hd | exact Hc | exact Ht].
Qed.

Lemma Inv_run (evs : list (Z * Event)) : forall s s',
  Inv s -> run s evs = Some s' -> Inv s'.
Proof.
  induction evs as [|[now e] evs IH]; simpl; intros s s' H.
  - intros [= <-]. exact H.
  - destruct (step s now e) as [s1|] eqn:E; [|discriminate].
    apply IH. eapply Inv_step; eassumption.
Qed.

Lemma run_app (evs1 evs2 : list (Z * Event)) : forall s s1,
  run s evs1 = Some s1 -> run s (evs1 ++ evs2) = run s1 evs2.
Proof.
  induction evs1 as [|[now e] evs1 IH]; simpl; intros s s1.
  - intros [= <-]. reflexivity.
  - destruct (step s now e) as [s'|]; [apply IH | discriminate].
Qed.

(** ** The drain loop runs to its end *)

Lemma step_settled (s : Service) (d : DownloadItem) (o : DownloadOutcome) (now : Z) :
  drain s = AwaitDownload d -> clock s <= now ->
  step s now (DownloadSettled o) =
    Some (set_drain (AwaitTimer now) (executeDownload_resume d o now (tick now s))).
Proof.
  intros Hd Hn. unfold step.
  apply Z.ltb_ge in Hn. rewrite Hn. simpl. rewrite Hd. reflexivity.
Qed.

Lemma step_timer (s : Service) (t0 now : Z) :
  drain s = AwaitTimer t0 -> clock s <= now -> t0 + cooldown <= now ->
  step s now TimerFired = Some (drainLoop now (tick now s)).
Proof.
  intros Hd Hn Ht. unfold step.
  apply Z.ltb_ge in Hn. rewrite Hn. simpl. rewrite Hd.
  apply Z.ltb_ge in Ht. rewrite Ht. reflexivity.
Qed.

(** Whatever the host answers to each download ([o]), the transfers and
    timers alone bring the loop to its end, and nothing is pushed on the
    way. *)
Lemma drain_terminates (o : DownloadOutcome) (n : nat) : forall s,
  length (downloadQueue s) = n ->
  exists host s',
    Forall hostOnly host /\ run s host = Some s' /\ drain s' = NotRunning
    /\ enqueued s' = enqueued s /\ pending s' = pending s.
Proof.
  assert (settle : forall s d,
             (forall s1, length (downloadQueue s1) = length (downloadQueue s) ->
                         (exists t0, drain s1 = AwaitTimer t0) ->
                         exists host s', Forall hostOnly host /\ run s1 host = Some s'
                                         /\ drain s' = NotRunning
                                         /\ enqueued s' = enqueued s1
                                         /\ pending s' = pending s1) ->
             drain s = AwaitDownload d ->
             exists host s', Forall hostOnly host /\ run s host = Some s'
                             /\ drain s' = NotRunning /\ enqueued s' = enqueued s
                             /\ pending s' = pending s).
  { intros s d K Hd.
    pose (s1 := set_drain (AwaitTimer (clock s))
                  (executeDownload_resume d o (clock s) (tick (clock s) s))).
    destruct (executeDownload_resume_trace d o (clock s) (tick (clock s) s))
      as (En & Eq & Ec & Eb & Ep).
    destruct (K s1) as (host & s' & Hh & Hr & Hd' & He & Hp).
    - unfold s1; simpl. rewrite Eq. reflexivity.
    - exists (clock s). reflexivity.
    - exists ((clock s, DownloadSettled o) :: host), s'.
      repeat split.
      + constructor; [exact I | exact Hh].
      + simpl. rewrite (step_settled s d o (clock s) Hd (Z.le_refl _)). exact Hr.
      + exact Hd'.
      + rewrite He. unfold enqueued, s1; simpl. rewrite En.
        destruct (failed o); reflexivity.
      + rewrite Hp. unfold s1; simpl. rewrite Ep. reflexivity. }
  assert (timer : forall n s t0, length (downloadQueue s) = n -> drain s = AwaitTimer t0 ->
             exists host s', Forall hostOnly host /\ run s host = Some s'
                             /\ drain s' = NotRunning /\ enqueued s' = enqueued s
                             /\ pending s' = pending s).
  { clear n. induction n as [|n IH]; intros s t0 Hl Hd.
    - pose (now := Z.max (clock s) (t0 + cooldown)).
      exists [(now, TimerFired)], (drainLoop now (tick now s)).
      repeat split.
      + constructor; [exact I | constructor].
      + simpl. rewrite (step_timer s t0 now Hd); [reflexivity | unfold now; lia ..].
      + unfold drainLoop; simpl. destruct (downloadQueue s); [reflexivity | discriminate].
      + unfold drainLoop, enqueued; simpl. destruct (downloadQueue s); [reflexivity | discriminate].
      + unfold drainLoop; simpl. destruct (downloadQueue s); reflexivity.
    - pose (now := Z.max (clock s) (t0 + cooldown)).
      destruct (downloadQueue s) as [|d q] eqn:Eq; [discriminate|].
      injection Hl as Hl.
      pose (s1 := drainLoop now (tick now s)).
      assert (E1 : step s now TimerFired = Some s1)
        by (apply (step_timer s t0 now Hd); unfold now; lia).
      assert (Hd1 : drain s1 = AwaitDownload d)
        by (unfold s1, drainLoop; simpl; rewrite Eq; reflexivity).
      assert (Hq1 : downloadQueue s1 = q)
        by (unfold s1, drainLoop; simpl; rewrite Eq; reflexivity).
      destruct (settle s1 d) as (host & s' & Hh & Hr & Hd' & He & Hp).
      + intros s2 Hl2 [t2 Hd2]. apply (IH s2 t2); [|exact Hd2].
        rewrite Hl2, Hq1. exact Hl.
      + exact Hd1.
      + exists ((now, TimerFired) :: host), s'. repeat split.
        * constructor; [exact I | exact Hh].
        * simpl. rewrite E1. exact Hr.
        * exact Hd'.
        * rewrite He. unfold s1, drainLoop, enqueued; simpl. rewrite Eq. reflexivity.
        * rewrite Hp. unfold s1, drainLoop; simpl. rewrite Eq. reflexivity. }
  intros s Hl.
  destruct (drain s) as [|d|t0] eqn:Hd.
  - exists [], s. repeat split; [constructor | exact Hd].
  - apply (settle s d); [|exact Hd].
    intros s1 Hl1 [t1 Hd1]. apply (timer (length (downloadQueue s1)) s1 t1); auto.
  - apply (timer n s t0); assumption.
Qed.

(* ================================================================== *)
(** * What a run does, event by event *)
(* ================================================================== *)

(** What one event adds to the trace and does to the suspended requests. *)
Lemma step_effects (s s' : Service) (now : Z) (e : Event) :
  step s now e = Some s' ->
  match e with
  | Message m =>
      trace s' = Respond (if wellShaped m then accepted_ack else refused_ack) :: trace s
      /\ pending s' = (pending s ++ requestOf m)%list
  | SettingsLoaded k stored =>
      exists r, nth_error (pending s) k = Some r
                /\ pending s' = remove_nth k (pending s)
                /\ let d := itemOf r (getUserSettings stored) now in
                   (trace s' = Enqueue now d :: trace s
                    \/ exists d', trace s' = Start now d' :: Enqueue now d :: trace s)
  | DownloadSettled o =>
      exists d, drain s = AwaitDownload d
                /\ pending s' = pending s
                /\ trace s' = (End now d (negb (failed o))
                               :: (if failed o
                                   then [Notify (fst (failureNotice d)) (snd (failureNotice d))]
                                   else []) ++ trace s)%list
  | TimerFired =>
      pending s' = pending s
      /\ (trace s' = trace s \/ exists d, trace s' = Start now d :: trace s)
  end.
Proof.
  unfold step. destruct (now <? clock s); [discriminate|].
  destruct e as [m|k stored|o|].
  - intros [= <-]. unfold onMessage, wellShaped, requestOf, hasUrl.
    destruct m; try (split; [reflexivity | symmetry; apply app_nil_r]).
    destruct (Nat.leb 3 (length items)); cbn [andb].
    + unfold handleDownloadRequest.
      destruct (truthy (nth 0 items JUndef)); cbn [negb];
        split; try reflexivity. symmetry; apply app_nil_r.
    + split; [reflexivity | symmetry; apply app_nil_r].
  - cbn [pending tick].
    destruct (nth_error (pending s) k) as [r|] eqn:E; [|discriminate].
    intros [= <-]. exists r. split; [reflexivity|].
    unfold handleDownloadRequest_resume, processDownloadQueue, drainLoop, itemOf.
    cbn [isProcessingQueue downloadQueue set_pending tick pending trace].
    destruct (isProcessingQueue s); cbn [negb orb].
    + split; [reflexivity | left; reflexivity].
    + destruct (downloadQueue s) as [|d0 q]; cbn [app length Nat.eqb];
        (split; [reflexivity | right; eexists; reflexivity]).
  - cbn [drain tick].
    destruct (drain s) as [|d|] eqn:Hd; try discriminate.
    intros [= <-]. exists d. split; [reflexivity|].
    destruct (executeDownload_resume_trace d o now (tick now s)) as (En & _ & _ & _ & Ep).
    split; [exact Ep | exact En].
  - cbn [drain tick].
    destruct (drain s) as [| |t0] eqn:Hd; try discriminate.
    destruct (now <? t0 + cooldown); [discriminate|].
    intros [= <-]. unfold drainLoop. cbn [downloadQueue tick].
    destruct (downloadQueue s) as [|d q];
      (split; [reflexivity|]); [left | right; eexists]; reflexivity.
Qed.

Lemma remove_nth_length {A : Type} (k : nat) (l : list A) (x : A) :
  nth_error l k = Some x -> S (length (remove_nth k l)) = length l.
Proof.
  revert l. induction k as [|k IH]; intros [|y l] E; try discriminate; simpl.
  - reflexivity.
  - f_equal. apply IH. exact E.
Qed.

Lemma remove_nth_Forall {A : Type} (P : A -> Prop) (k : nat) (l : list A) :
  Forall P l -> Forall P (remove_nth k l).
Proof.
  revert l. induction k as [|k IH]; intros [|y l] H; simpl; auto;
    inversion H; subst; auto.
Qed.





Lemma Inv_reachable (evs : list (Z * Event)) (s : Service) :
  run initial evs = Some s -> Inv s.
Proof. apply Inv_run, Inv_initial. Qed.


Lemma Inv_completed (s : Service) :
  Inv s -> drain s = NotRunning -> completed s = enqueued s.
Proof.
  intros [F I0 Q L S C T U] Hd.
  rewrite <- Q, (I0 Hd), app_nil_r, L.
  unfold inFlight. rewrite Hd. symmetry. apply app_nil_r.
Qed.




(** C6.  A failed transfer is reported and does not stop the loop.  In any
    reachable state where the loop waits for the download of [d], when the
    host rejects the request or answers without a download id: a
    notification "Download Failed" that names the file of [d] is shown and
    the transfer ends; the queue is untouched; once the cool-down has
    passed, the timer starts the next queued item (or ends the activation
    when none is left); and whatever the host answers to the later
    downloads, every pushed item gets its start and its end. *)
Theorem failed_transfer_is_notified_and_loop_continues
  (evs : list (Z * Event)) (s : Service) (d : DownloadItem) (o : DownloadOutcome) (now : Z) :
  run initial evs = Some s ->
  drain s = AwaitDownload d ->
  failed o = true ->
  clock s <= now ->
  exists s1,
    step s now (DownloadSettled o) = Some s1
    /\ trace s1 = End now d false
                  :: Notify "Download Failed" ("Failed to download " ++ d_filename d)
                  :: trace s
    /\ downloadQueue s1 = downloadQueue s
    /\ isProcessingQueue s1 = true
    /\ (forall now', now + cooldown <= now' ->
          exists s2,
            step s1 now' TimerFired = Some s2
            /\ match downloadQueue s with
               | next :: rest =>
                   drain s2 = AwaitDownload next /\ downloadQueue s2 = rest
                   /\ trace s2 = Start now' next :: trace s1
               | [] => drain s2 = NotRunning /\ isProcessingQueue s2 = false
               end)
    /\ (forall o' : DownloadOutcome,
          exists host s',
            Forall hostOnly host /\ run s1 host = Some s'
            /\ drain s' = NotRunning /\ completed s' = enqueued s).
Proof.
  intros Hr Hd Hf Hn.
  pose proof (Inv_reachable evs s Hr) as H.
  pose (s1 := set_drain (AwaitTimer now) (executeDownload_resume d o now (tick now s))).
  assert (E1 : step s now (DownloadSettled o) = Some s1)
    by (apply step_settled; assumption).
  destruct (executeDownload_resume_trace d o now (tick now s)) as (En & Eq & Ec & Eb & Ep).
  rewrite Hf in En. cbn [negb app trace tick downloadQueue clock isProcessingQueue] in En, Eq, Ec, Eb.
  exists s1. split; [exact E1|].
  split; [exact En|]. split; [exact Eq|].
  split.
  { unfold s1; simpl. rewrite Eb, (inv_flag s H), Hd. reflexivity. }
  split.
  - intros now' Hn'.
    exists (drainLoop now' (tick now' s1)). split.
    + apply (step_timer s1 now now'); [reflexivity | | exact Hn'].
      unfold s1; simpl. rewrite Ec. unfold cooldown in Hn'. lia.
    + unfold drainLoop; simpl. rewrite Eq.
      destruct (downloadQueue s) as [|next rest]; simpl; auto.
  - intros o'.
    destruct (drain_terminates o' _ s1 eq_refl) as (host & s' & Hh & Hr' & Hd' & He & _).
    exists host, s'. repeat split; auto.
    assert (R : run initial (evs ++ (now, DownloadSettled o) :: host) = Some s').
    { rewrite (run_app evs _ initial s Hr). simpl. rewrite E1. exact Hr'. }
    rewrite (Inv_completed s' (Inv_reachable _ _ R) Hd'), He.
    unfold enqueued, s1. cbn [trace set_drain]. rewrite En. reflexivity.
Qed.

(** In the scenario the first transfer is rejected at 40 ms: the user is
    told that "Bob/u1.jpg" failed, and the second item starts when the timer
    fires at 140 ms. *)
Lemma failed_transfer_is_notified_and_loop_continues_witness :
  exists d s1,
    drain scenario_start = AwaitDownload d
    /\ step scenario_start 40 (DownloadSettled Rejected) = Some s1
    /\ notifications (trace s1) = [("Download Failed", "Failed to download Bob/u1.jpg")]
    /\ exists s2, step s1 140 TimerFired = Some s2
                  /\ map d_filename (inFlight s2) = ["Bob/u2.jpg"].
Proof.
  destruct (drain scenario_start) as [|d|] eqn:Hd;
    try (vm_compute in Hd; discriminate Hd).
  assert (R : run initial (firstn 6 scenario) = Some scenario_start)
    by (vm_compute; reflexivity).
  assert (C : clock scenario_start <= 40) by (vm_compute; discriminate).
  destruct (failed_transfer_is_notified_and_loop_continues
              (firstn 6 scenario) scenario_start d Rejected 40 R Hd eq_refl C)
    as (s1 & E1 & Et & Eq & _ & K & _).
  exists d, s1. split; [reflexivity|]. split; [exact E1|].
  vm_compute in Hd. injection Hd as <-.
  split; [rewrite Et; vm_compute; reflexivity|].
  destruct (K 140) as (s2 & E2 & M); [unfold cooldown; lia|].
  exists s2. split; [exact E2|].
  change (downloadQueue scenario_start) with
    [ {| d_url := JStr "https://cdn.example/a/u2.jpg"; d_filename := "Bob/u2.jpg";
         d_creator := JStr "Bob"; d_type := JStr "download" |};
      {| d_url := JStr "https://cdn.example/v/u3.mp4?sig=3"; d_filename := "Bob/u3.mp4";
         d_creator := JStr "Bob"; d_type := JStr "download video" |} ] in M.
  destruct M as (Hd2 & _). unfold inFlight. rewrite Hd2. vm_compute. reflexivity.
Defined.

(** ** The message boundary *)

(** A message that is no array of three elements or more is refused, and
    nothing else happens. *)
Lemma onMessage_bad_shape (m : JsVal) (s : Service) :
  (forall items, m = JArr items -> (length items < 3)%nat) ->
  onMessage m s =
    emit (Respond {| success := false; error := Some "Invalid message format" |}) s.
Proof.
  intros H. unfold onMessage. destruct m; try reflexivity.
  specialize (H items eq_refl).
  destruct (Nat.leb_spec 3 (length items)); [lia | reflexivity].
Qed.

(** A message of the right shape is acknowledged with success whatever its
    URL; without a URL no request is left behind. *)
Lemma onMessage_array (items : list JsVal) (s : Service) :
  (3 <= length items)%nat ->
  onMessage (JArr items) s =
    emit (Respond {| success := true; error := None |})
      (if truthy (nth 0 items JUndef)
       then set_pending (pending s ++ [{| r_url := nth 0 items JUndef;
                                          r_creator := nth 1 items JUndef;
                                          r_type := nth 2 items JUndef |}])%list s
       else s).
Proof.
  intros H. unfold onMessage, handleDownloadRequest.
  apply Nat.leb_le in H. rewrite H.
  destruct (truthy (nth 0 items JUndef)); reflexivity.
Qed.

(** C4.  At the message [[null, "Bob", "download"]], which has the right
    shape and no URL, the listener performs no download and leaves no
    request behind, and it acknowledges with [{success: true}]: the
    failure acknowledgement that the claim demands is not sent. *)
Theorem missing_url_is_acknowledged_as_success :
  let s := onMessage (JArr [JNull; JStr "Bob"; JStr "download"]) initial in
  responses (trace s) = [{| success := true; error := None |}]
  /\ pending s = [] /\ downloadQueue s = [] /\ starts (trace s) = []
  /\ onMessage (JArr [JNull; JStr "Bob"]) initial
     = emit (Respond {| success := false; error := Some "Invalid message format" |})
         initial.
Proof. repeat split. Qed.

(* ================================================================== *)
(** * The stores *)
(* ================================================================== *)

(** ** Normalization of a payload *)

Lemma processApiResponse_rejects (data : JsVal) :
  accepted data = false -> processApiResponse data = JNull.
Proof.
  unfold accepted, processApiResponse, opt_prop.
  destruct data; simpl; try reflexivity; try discriminate.
  destruct (assoc "list" fields) as [l|]; simpl.
  - destruct (truthy l); simpl; [discriminate|].
    destruct (assoc "id" fields) as [i|]; simpl; [|reflexivity].
    destruct (truthy i); simpl; [|reflexivity].
    destruct (assoc "media" fields) as [m|]; simpl; [|reflexivity].
    destruct (isArray m); [discriminate | reflexivity].
  - destruct (assoc "id" fields) as [i|]; simpl; [|reflexivity].
    destruct (truthy i); simpl; [|reflexivity].
    destruct (assoc "media" fields) as [m|]; simpl; [|reflexivity].
    destruct (isArray m); [discriminate | reflexivity].
Qed.

Lemma recordResponse_null (u : string) (o : FetchOutcome) (s : Downloader) :
  processApiResponse (fetchApiData_resume o) = JNull -> recordResponse u o s = s.
Proof.
  intros H. unfold recordResponse, sendToContentScript_resume.
  destruct (negb (truthy (fetchApiData_resume o))); [reflexivity|].
  rewrite H. reflexivity.
Qed.

(** C5, as the code has it.  [processApiResponse] returns an array as it
    is; of any other payload whose [list] is truthy it returns that [list],
    whatever its type; it returns as it is an object with a truthy [id] and
    an array [media]; for every other input (among them [{}], [null] and a
    string) it returns [null], nothing is handed to the page and no record
    is stored.  The functions are total: what is thrown inside the
    normalizer or inside [processApiData] ends in their [catch]. *)
Theorem payload_normalization :
  (forall items, processApiResponse (JArr items) = JArr items)
  /\ (forall data l, isArray data = false -> prop data "list" = Ok l ->
                     truthy l = true -> processApiResponse data = l)
  /\ (forall data l id entries,
         isArray data = false -> prop data "list" = Ok l -> truthy l = false ->
         prop data "id" = Ok id -> truthy id = true ->
         prop data "media" = Ok (JArr entries) ->
         processApiResponse data = data)
  /\ (forall data, accepted data = false -> processApiResponse data = JNull)
  /\ (forall data u s, accepted data = false ->
                       recordResponse u (Response true (Some data)) s = s)
  /\ accepted (JObj []) = false /\ accepted JNull = false
  /\ accepted (JStr "string") = false.
Proof.
  repeat split.
  - intros data l Ha Hl Ht. unfold processApiResponse.
    rewrite Ha, Hl. simpl. rewrite Ht. reflexivity.
  - intros data l id entries Ha Hl Ht Hi Hti Hm. unfold processApiResponse.
    rewrite Ha, Hl. simpl. rewrite Ht, Hi. simpl. rewrite Hti, Hm. reflexivity.
  - apply processApiResponse_rejects.
  - intros data u s H. apply recordResponse_null. simpl.
    apply processApiResponse_rejects, H.
Qed.

(** A payload that is refused, one that is let through with its [list],
    and one that is stored as a single record. *)
Lemma payload_normalization_witness :
  processApiResponse (JObj [("error", JStr "no")]) = JNull
  /\ processApiResponse (JObj [("list", JArr [payload42]); ("hasMore", JBool false)])
     = JArr [payload42]
  /\ processApiResponse payload42 = payload42.
Proof.
  destruct payload_normalization as (_ & L & O & N & _).
  split; [apply N; reflexivity|].
  split; [eapply L; reflexivity|].
  eapply O; reflexivity.
Defined.

(** C5, as it is worded, fails: the payload [{list: {id: 7, media: []}}]
    is none of the three shapes, its [list] being no array, and yet one
    record is stored. *)
Lemma non_array_list_is_recorded :
  let data := JObj [("list", JObj [("id", JNum 7); ("media", JArr [])])] in
  spec_accepts data = false
  /\ mediaStore (recordResponse "https://onlyfans.com/api2/v2/users/7/posts"
                   (Response true (Some data)) (newDownloader "of-downloader-k3v9x2a"))
     = [(JNum 7, JObj [("id", JNum 7); ("media", JArr [])])].
Proof. split; reflexivity. Qed.

(** ** What the record-processing methods write *)

Lemma sameButImages_refl (s : Downloader) : sameButImages s s.
Proof. repeat split. Qed.

Lemma sameButImages_trans (s1 s2 s3 : Downloader) :
  sameButImages s1 s2 -> sameButImages s2 s3 -> sameButImages s1 s3.
Proof.
  intros (A1 & A2 & A3 & A4) (B1 & B2 & B3 & B4).
  repeat split; congruence.
Qed.

Lemma writes_ret {A : Type} (a : A) : writesImagesOnly (ret a).
Proof. intros s. apply sameButImages_refl. Qed.

Lemma writes_lift {A : Type} (r : Res A) : writesImagesOnly (lift r).
Proof. intros s. apply sameButImages_refl. Qed.

Lemma writes_set (k v : JsVal) :
  writesImagesOnly (fun s => (imageStore_set k v s, Ok tt)).
Proof. intros s. repeat split. Qed.

Lemma writes_mbind {A B : Type} (m : M A) (k : A -> M B) :
  writesImagesOnly m -> (forall a, writesImagesOnly (k a)) ->
  writesImagesOnly (mbind m k).
Proof.
  intros Hm Hk s. unfold mbind.
  specialize (Hm s). destruct (m s) as [s1 [a|]]; simpl in *; [|exact Hm].
  eapply sameButImages_trans; [exact Hm | apply Hk].
Qed.

Lemma writes_forEach (f : JsVal -> M unit) (items : list JsVal) :
  (forall x, writesImagesOnly (f x)) -> writesImagesOnly (forEach f items).
Proof.
  intros Hf. induction items as [|x items IH]; simpl.
  - apply writes_ret.
  - apply writes_mbind; [apply Hf | intros _; exact IH].
Qed.

Create HintDb frames.
#[local] Hint Resolve writes_ret writes_lift writes_set : frames.

Ltac frame_step :=
  first [ apply writes_mbind; [|intros ?]
        | apply writes_forEach; intros ?
        | apply writes_ret | apply writes_lift | apply writes_set
        | match goal with
          | |- writesImagesOnly (if ?b then _ else _) => destruct b
          | |- writesImagesOnly (match ?x with _ => _ end) => destruct x
          end ].

Lemma processVideoMedia_writes (media : JsVal) : writesImagesOnly (processVideoMedia media).
Proof. unfold processVideoMedia. repeat frame_step. Qed.

Lemma processImageMedia_writes (media : JsVal) : writesImagesOnly (processImageMedia media).
Proof. unfold processImageMedia. repeat frame_step. Qed.

(** The loop of [processMediaItem] over the media entries. *)
Lemma mediaLoop_writes (entries : list JsVal) :
  writesImagesOnly
    (forEach (fun m =>
                type <~ lift (prop m "type") ;;
                if sameValueZero type (JStr "video") then processVideoMedia m
                else processImageMedia m)
             entries).
Proof.
  apply writes_forEach; intros m.
  apply writes_mbind; [apply writes_lift|].
  intros type. destruct (sameValueZero type (JStr "video"));
    [apply processVideoMedia_writes | apply processImageMedia_writes].
Qed.

(** [processMediaItem] writes the record of an item with an id first; the
    rest of it touches [imageStore] only. *)
Lemma processMediaItem_stores (item : JsVal) (store : StoreRef) (s : Downloader) :
  exists s0,
    s0 = match prop item "id" with
         | Ok id => if truthy id then store_set store id item s else s
         | Throw => s
         end
    /\ sameButImages s0 (fst (processMediaItem item store s)).
Proof.
  eexists; split; [reflexivity|].
  unfold processMediaItem, mbind, lift at 1.
  destruct (prop item "id") as [id|]; simpl; [|apply sameButImages_refl].
  destruct (truthy id); simpl.
  - destruct (prop item "media") as [media|]; simpl; [|apply sameButImages_refl].
    destruct media; try apply sameButImages_refl. apply mediaLoop_writes.
  - destruct (prop item "media") as [media|]; simpl; [|apply sameButImages_refl].
    destruct media; try apply sameButImages_refl. apply mediaLoop_writes.
Qed.

Lemma store_set_video_frame (k v : JsVal) (s : Downloader) :
  mediaStore (store_set VideoStore k v s) = mediaStore s
  /\ settings (store_set VideoStore k v s) = settings s.
Proof. split; reflexivity. Qed.

(** A payload flagged for chats leaves [mediaStore] and the settings as
    they are. *)
Lemma processApiData_dm_frame (data : JsVal) (s : Downloader) :
  mediaStore (processApiData data true s) = mediaStore s
  /\ settings (processApiData data true s) = settings s.
Proof.
  assert (item : forall x s0, mediaStore (fst (processMediaItem x VideoStore s0)) = mediaStore s0
                              /\ settings (fst (processMediaItem x VideoStore s0)) = settings s0).
  { intros x s0.
    destruct (processMediaItem_stores x VideoStore s0) as (s1 & E & (A & _ & B & _)).
    rewrite A, B, E.
    destruct (prop x "id") as [id|]; [destruct (truthy id)|]; split; reflexivity. }
  unfold processApiData.
  destruct data; simpl; unfold mbind, lift; simpl; try (split; reflexivity).
  - (* an array *)
    revert s. induction items as [|x items IH]; intros s; simpl; [split; reflexivity|].
    unfold mbind. destruct (item x s) as [A B].
    destruct (processMediaItem x VideoStore s) as [s1 [[]|]]; simpl in *.
    + destruct (IH s1) as [A1 B1]. split; congruence.
    + split; assumption.
  - (* a single object *)
    destruct (assoc "id" fields) as [id|]; simpl; [|split; reflexivity].
    destruct (truthy id); simpl; [|split; reflexivity].
    destruct (assoc "media" fields) as [media|]; simpl; [|split; reflexivity].
    destruct (isArray media); [apply item | split; reflexivity].
Qed.

Lemma sameValueZero_string (a : string) : sameValueZero (JStr a) (JStr a) = true.
Proof. simpl. apply String.eqb_refl. Qed.

Lemma Map_get_set (m : JsMap) (k v : JsVal) :
  sameValueZero k k = true -> Map_get (Map_set m k v) k = Some v.
Proof.
  intros H. induction m as [|[k' v'] m IH]; simpl.
  - rewrite H. reflexivity.
  - destruct (sameValueZero k k') eqn:E; simpl; rewrite E; [reflexivity | exact IH].
Qed.

(** A single record with a string id is found again under that id. *)
Lemma processApiData_records (data : JsVal) (id : string) (entries : list JsVal)
  (s : Downloader) :
  prop data "id" = Ok (JStr id) -> id <> "" ->
  prop data "media" = Ok (JArr entries) ->
  Map_get (mediaStore (processApiData data false s)) (JStr id) = Some data.
Proof.
  intros Hi Hn Hm.
  assert (T : truthy (JStr id) = true).
  { simpl. destruct (String.eqb_spec id ""); [contradiction | reflexivity]. }
  destruct (processMediaItem_stores data MediaStore s) as (s0 & E & (A & _)).
  rewrite Hi, T in E.
  assert (P : processApiData data false s = fst (processMediaItem data MediaStore s)).
  { unfold processApiData.
    destruct data; try discriminate Hi.
    unfold mbind at 1, lift at 1. rewrite Hi.
    unfold mbind at 1, lift at 1. rewrite T, Hm. reflexivity. }
  rewrite P, A, E. simpl.
  apply Map_get_set, sameValueZero_string.
Qed.

(* ================================================================== *)
(** * The resolution cascade *)
(* ================================================================== *)

Lemma firstReturn_ext {A B : Type} (f g : A -> Res (option B)) (l : list A) :
  (forall x, f x = g x) -> firstReturn f l = firstReturn g l.
Proof.
  intros H. induction l as [|x l IH]; simpl; [reflexivity|].
  rewrite H, IH. reflexivity.
Qed.

Lemma firstReturn_total {A B : Type} (f : A -> Res (option B)) (l : list A) :
  (forall x, f x <> Throw) -> firstReturn f l <> Throw.
Proof.
  intros H. induction l as [|x l IH]; simpl; [discriminate|].
  specialize (H x). destruct (f x) as [[u|]|]; [discriminate | exact IH | contradiction].
Qed.

Lemma firstSuccess_none (l : list (Res (option JsVal))) :
  firstSuccess l = Ok None <-> Forall (fun r => r = Ok None) l.
Proof.
  unfold firstSuccess. induction l as [|r l IH]; simpl.
  - split; [constructor | reflexivity].
  - destruct r as [[u|]|]; split; intros H;
      try discriminate; try (inversion H; discriminate).
    + constructor; [reflexivity | apply IH, H].
    + inversion H; subst. apply IH; assumption.
Qed.

Lemma method1_steps (wrapper : Node) :
  method1 wrapper =
    match originalSource wrapper with
    | Some u => Some u
    | None => match anySource wrapper with
              | Some u => Some u
              | None => directSrc wrapper
              end
    end.
Proof.
  unfold method1, originalSource, anySource, directSrc, sourceUrl.
  destruct (querySelector wrapper sel_video_vjs_tech) as [video|]; reflexivity.
Qed.

Lemma method2_storeLookup (s : Downloader) (post : option Node) :
  method2 s post = storeLookup s post.
Proof.
  unfold method2, storeLookup, Map_has.
  destruct post as [p|]; [|reflexivity].
  destruct (getAttribute p "data-id") as [id|]; [|reflexivity].
  destruct (id =? "")%string; simpl; [reflexivity|].
  destruct (Map_get (mediaStore s) (JStr id)); reflexivity.
Qed.

Lemma method3_steps (wrapper : Node) : method3 wrapper = videoDataAttribute wrapper.
Proof.
  unfold method3, videoDataAttribute, attrUrl, nonEmpty.
  destruct (querySelector wrapper sel_video) as [v|]; [|reflexivity].
  destruct (getAttribute v "data-src") as [a|]; [|reflexivity].
  destruct (a =? "")%string; reflexivity.
Qed.

Lemma method4_steps (wrapper : Node) : method4 wrapper = wrapperDataSrc wrapper.
Proof. reflexivity. Qed.

(** Method 5 never throws. *)
Lemma method5_steps (wrapper : Node) : method5 wrapper = Ok (scanVideos wrapper).
Proof.
  unfold scanVideos, method5.
  match goal with |- ?x = _ => destruct x as [r|] eqn:E end; [reflexivity|].
  exfalso. revert E. apply firstReturn_total.
  intros video. destruct (nonEmpty (src video)); [discriminate|].
  apply firstReturn_total. discriminate.
Qed.

(** Method 6 never throws, and reads the three attributes in the order
    [data-video], [data-src], [data-url]. *)
Lemma method6_steps (wrapper : Node) : method6 wrapper = Ok (scanDataAttributes wrapper).
Proof.
  unfold scanDataAttributes, method6.
  match goal with |- ?x = _ => destruct x as [r|] eqn:E end.
  - erewrite firstReturn_ext; [rewrite E; reflexivity|].
    intros element. unfold attrUrl, nonEmpty, js_or. simpl.
    destruct (getAttribute element "data-video") as [a|];
      destruct (getAttribute element "data-src") as [b|];
      destruct (getAttribute element "data-url") as [c|]; simpl;
      repeat match goal with
             | H : (?v =? "")%string = _ |- context [(?v =? "")%string] => rewrite H; simpl
             | |- context [(?v =? "")%string] => destruct (v =? "")%string eqn:?; simpl
             end; reflexivity.
  - exfalso. revert E. apply firstReturn_total.
    intros element.
    destruct (js_or _ _); try discriminate.
    destruct (negb (s =? "")%string && includes s "http"); discriminate.
Qed.

(** The source as a cascade: [extractVideoUrl] is its eight steps in order,
    the first success winning. *)
Lemma extractVideoUrl_firstSuccess (s : Downloader) (wrapper : Node) (post : option Node) :
  extractVideoUrl s wrapper post = firstSuccess (strategiesOfSource s wrapper post).
Proof.
  unfold extractVideoUrl, firstSuccess, strategiesOfSource.
  rewrite method1_steps, method2_storeLookup, method3_steps, method4_steps,
    method5_steps, method6_steps.
  cbn [firstReturn].
  destruct (originalSource wrapper); [reflexivity|].
  destruct (anySource wrapper); [reflexivity|].
  destruct (directSrc wrapper); [reflexivity|].
  destruct (storeLookup s post) as [[u|]|]; try reflexivity.
  destruct (videoDataAttribute wrapper); [reflexivity|].
  destruct (wrapperDataSrc wrapper); [reflexivity|].
  destruct (scanVideos wrapper); [reflexivity|].
  destruct (scanDataAttributes wrapper); reflexivity.
Qed.

(* ================================================================== *)
(** * Resolution through the store *)
(* ================================================================== *)

Lemma prop_defined (v : JsVal) (k k' : string) (x : JsVal) :
  prop v k = Ok x -> prop v k' = Ok (opt_prop v k').
Proof. unfold opt_prop. destruct v; simpl; intros H; try discriminate; reflexivity. Qed.

Lemma truthy_string (a : string) : a <> "" -> truthy (JStr a) = true.
Proof. intros H. simpl. destruct (String.eqb_spec a ""); [contradiction | reflexivity]. Qed.

(** The body of the loop of Method 2 on a video entry. *)
Lemma videoUrlOfMedia_video (q : Quality) (m : JsVal) :
  prop m "type" = Ok (JStr "video") ->
  videoUrlOfMedia q m =
    let full := opt_prop (opt_prop m "source") "source" in
    let videoSources := opt_prop m "videoSources" in
    let videoUrl := js_or (qualityMap_get full (opt_prop_idx videoSources 240)
                             (opt_prop_idx videoSources 720) q) full in
    if truthy videoUrl then Ok (Some videoUrl) else Ok None.
Proof.
  intros H. unfold videoUrlOfMedia.
  rewrite H, (prop_defined m "type" "source" _ H),
    (prop_defined m "type" "videoSources" _ H).
  reflexivity.
Qed.

(** Method 2 when the post is in [mediaStore]. *)
Lemma storeLookup_hit (s : Downloader) (post : Node) (id : string) (data : JsVal)
  (entries : list JsVal) :
  getAttribute post "data-id" = Some id -> id <> "" ->
  Map_get (mediaStore s) (JStr id) = Some data ->
  prop data "media" = Ok (JArr entries) ->
  storeLookup s (Some post) = firstReturn (videoUrlOfMedia (quality (settings s))) entries.
Proof.
  intros Ha Hn Hg Hm. unfold storeLookup.
  rewrite Ha. destruct (String.eqb_spec id ""); [contradiction|].
  rewrite Hg, Hm. reflexivity.
Qed.

(** Without a [video.vjs-tech] in the wrapper the first three steps find
    nothing. *)
Lemma extractVideoUrl_without_player (s : Downloader) (wrapper : Node) (post : option Node) :
  querySelector wrapper sel_video_vjs_tech = None ->
  extractVideoUrl s wrapper post =
    firstSuccess [storeLookup s post;
                  Ok (videoDataAttribute wrapper); Ok (wrapperDataSrc wrapper);
                  Ok (scanVideos wrapper); Ok (scanDataAttributes wrapper)].
Proof.
  intros H. rewrite extractVideoUrl_firstSuccess.
  unfold strategiesOfSource, originalSource, anySource, directSrc.
  rewrite H. reflexivity.
Qed.

(** A wrapper without descendants and without [data-src] gives nothing to
    the steps that read the document. *)
Lemma empty_wrapper_steps (wrapper : Node) :
  descendants wrapper = [] -> getAttribute wrapper "data-src" = None ->
  videoDataAttribute wrapper = None /\ wrapperDataSrc wrapper = None
  /\ scanVideos wrapper = None /\ scanDataAttributes wrapper = None.
Proof.
  intros Hd Ha.
  unfold videoDataAttribute, wrapperDataSrc, scanVideos, scanDataAttributes, attrUrl,
    querySelector, querySelectorAll.
  rewrite Hd, Ha. repeat split.
Qed.

Lemma first_part_free (f : string) : free_of "?" f -> first_part (split "?" f) = f.
Proof.
  intros H. pose proof (split_shape "?" f) as S.
  destruct (split "?" f) as [|seg [|seg' parts]] eqn:E; [contradiction| |].
  - destruct S as [-> _]. reflexivity.
  - exfalso. destruct S as (pre & Ef & _). apply H. rewrite Ef.
    clear. induction pre as [|c pre IH]; simpl; [left; reflexivity | right; exact IH].
Qed.

Lemma first_part_query (f query : string) :
  free_of "?" f -> first_part (split "?" (f ++ String "?" query)) = f.
Proof.
  induction f as [|c f IH]; intros H.
  - reflexivity.
  - apply free_of_cons in H as [Hc Hf].
    change (String c f ++ String "?" query) with (String c (f ++ String "?" query)).
    cbn [split]. destruct (Ascii.eqb_spec c "?"); [contradiction|].
    specialize (IH Hf). unfold first_part in *.
    destruct (split "?" (f ++ String "?" query)) as [|seg parts] eqn:E.
    + exfalso. revert E. apply split_not_nil.
    + simpl in *. congruence.
Qed.

(* ================================================================== *)
(** * Fingerprints *)
(* ================================================================== *)

Lemma Map_get_set_string (m : JsMap) (a b : string) (v : JsVal) :
  Map_get (Map_set m (JStr a) v) (JStr b)
  = if (b =? a)%string then Some v else Map_get m (JStr b).
Proof.
  induction m as [|[k0 v0] m IH]; cbn [Map_set Map_get sameValueZero].
  - reflexivity.
  - destruct k0 as [| |x|x|c|x|x]; cbn [sameValueZero Map_get]; try exact IH.
    destruct (String.eqb_spec a c) as [->|N]; cbn [Map_get sameValueZero].
    + destruct (b =? c)%string; reflexivity.
    + rewrite IH. destruct (String.eqb_spec b c) as [->|N'];
        [destruct (String.eqb_spec c a); [congruence | reflexivity] | reflexivity].
Qed.

Lemma filter_Forall {A : Type} (f : A -> bool) (l : list A) :
  Forall (fun x => f x = true) (filter f l).
Proof.
  induction l as [|x l IH]; cbn [filter]; [constructor|].
  destruct (f x) eqn:E; [constructor; assumption | exact IH].
Qed.

(** Writing one value under the fingerprints of a list of previews. *)
Lemma fingerprints_written (v : JsVal) (ps : list string) : forall m : JsMap,
  let m' := fold_left (fun m p => Map_set m (fingerprint p) v) ps m in
  (forall p, In p ps -> Map_get m' (fingerprint p) = Some v)
  /\ (forall k, (forall p, In p ps -> fingerprint p <> JStr k) ->
                Map_get m' (JStr k) = Map_get m (JStr k))
  /\ (forall k, Map_get m (JStr k) = Some v -> Map_get m' (JStr k) = Some v).
Proof.
  induction ps as [|q ps IH]; intros m; cbn [fold_left].
  - repeat split; auto. intros p [].
  - destruct (IH (Map_set m (fingerprint q) v)) as (A & B & C).
    cbv zeta in *. split; [|split].
    + intros p [<-|Hp]; [|apply A, Hp].
      apply C. unfold fingerprint. rewrite Map_get_set_string, String.eqb_refl. reflexivity.
    + intros k Hk. rewrite B.
      * unfold fingerprint. rewrite Map_get_set_string.
        destruct (String.eqb_spec k (first_part (split "?" q))) as [->|N]; [|reflexivity].
        exfalso. apply (Hk q); [left; reflexivity | reflexivity].
      * intros p Hp. apply Hk. right; exact Hp.
    + intros k Hk. apply C. unfold fingerprint. rewrite Map_get_set_string.
      destruct (k =? first_part (split "?" q))%string; [reflexivity | exact Hk].
Qed.

(** The loop of [processVideoMedia] and [processImageMedia] over previews
    that are strings. *)
Lemma previews_loop (v : JsVal) (body : JsVal -> M unit) (ps : list string) :
  (forall p s, In p ps -> body (JStr p) s = (imageStore_set (fingerprint p) v s, Ok tt)) ->
  forall s,
    snd (forEach body (map JStr ps) s) = Ok tt
    /\ sameButImages s (fst (forEach body (map JStr ps) s))
    /\ imageStore (fst (forEach body (map JStr ps) s))
       = fold_left (fun m p => Map_set m (fingerprint p) v) ps (imageStore s).
Proof.
  induction ps as [|p ps IH]; intros Hb s; cbn [map forEach fold_left].
  - repeat split.
  - unfold mbind. rewrite (Hb p s (or_introl eq_refl)).
    destruct (IH (fun q s0 Hq => Hb q s0 (or_intror Hq)) (imageStore_set (fingerprint p) v s))
      as (A & B & C).
    split; [exact A|]. split; [|exact C].
    eapply sameButImages_trans; [|exact B]. repeat split.
Qed.

(** The quality map that [processVideoMedia] builds holds the tiers that
    are present, and building it does not throw on an entry whose
    properties can be read. *)
Lemma buildVideoMap_tiers (media x : JsVal) :
  prop media "preview" = Ok x ->
  buildVideoMap media
  = Ok (JObj (filter (fun tier => truthy (snd tier))
                [("full", opt_prop (opt_prop media "source") "source");
                 ("240", opt_prop_idx (opt_prop media "videoSources") 240);
                 ("720", opt_prop_idx (opt_prop media "videoSources") 720)])).
Proof.
  intros Hx. unfold buildVideoMap.
  rewrite (prop_defined media "preview" "source" x Hx). cbn [bind].
  rewrite (prop_defined media "preview" "videoSources" x Hx). cbn [bind].
  cbn [filter snd].
  destruct (opt_prop media "videoSources") as [| |b|z|str|l|fs] eqn:V; cbn [truthy].
  - destruct (truthy (opt_prop (opt_prop media "source") "source")); reflexivity.
  - destruct (truthy (opt_prop (opt_prop media "source") "source")); reflexivity.
  - destruct b; cbn [prop_idx opt_prop_idx bind truthy];
      destruct (truthy (opt_prop (opt_prop media "source") "source")); reflexivity.
  - destruct (z =? 0); cbn [negb prop_idx opt_prop_idx bind truthy];
      destruct (truthy (opt_prop (opt_prop media "source") "source")); reflexivity.
  - destruct (String.eqb_spec str "") as [->|N]; cbn [negb].
    + destruct (truthy (opt_prop (opt_prop media "source") "source")); reflexivity.
    + unfold opt_prop_idx. cbn [prop_idx bind].
      destruct (truthy (opt_prop (opt_prop media "source") "source"));
        destruct (truthy match String.get 240 str with
                         | Some c => JStr (String c "")
                         | None => JUndef
                         end);
        destruct (truthy match String.get 720 str with
                         | Some c => JStr (String c "")
                         | None => JUndef
                         end); reflexivity.
  - unfold opt_prop_idx. cbn [prop_idx bind].
    destruct (truthy (opt_prop (opt_prop media "source") "source"));
      destruct (truthy (nth 240 l JUndef)); destruct (truthy (nth 720 l JUndef));
      reflexivity.
  - unfold opt_prop_idx. cbn [prop_idx bind].
    destruct (truthy (opt_prop (opt_prop media "source") "source"));
      destruct (truthy match assoc (index_key 240) fs with Some x0 => x0 | None => JUndef end);
      destruct (truthy match assoc (index_key 720) fs with Some x0 => x0 | None => JUndef end);
      reflexivity.
Qed.

(** [processVideoMedia] on an entry whose truthy previews are strings. *)
Lemma processVideoMedia_fingerprints (media : JsVal) (ps : list string) (s : Downloader) :
  previewsOf media = Ok (map JStr ps) ->
  let videoMap :=
    JObj (filter (fun tier => truthy (snd tier))
            [("full", opt_prop (opt_prop media "source") "source");
             ("240", opt_prop_idx (opt_prop media "videoSources") 240);
             ("720", opt_prop_idx (opt_prop media "videoSources") 720)]) in
  let r := processVideoMedia media s in
  snd r = Ok tt
  /\ sameButImages s (fst r)
  /\ (forall p, In p ps -> Map_get (imageStore (fst r)) (fingerprint p) = Some videoMap)
  /\ (forall k, (forall p, In p ps -> fingerprint p <> JStr k) ->
                Map_get (imageStore (fst r)) (JStr k) = Map_get (imageStore s) (JStr k)).
Proof.
  intros Hp videoMap r.
  assert (T : Forall (fun p => truthy (JStr p) = true) ps).
  { assert (F : Forall (fun x => truthy x = true) (map JStr ps)).
    { rewrite <- (f_equal (fun r => match r with Ok l => l | Throw => [] end) Hp).
      unfold previewsOf.
      destruct (prop media "preview"), (prop media "squarePreview"), (prop media "thumb");
        cbn [bind]; try constructor.
      apply filter_Forall. }
    rewrite Forall_map in F. exact F. }
  rewrite Forall_forall in T.
  assert (Hm : exists x, prop media "preview" = Ok x).
  { unfold previewsOf in Hp. destruct (prop media "preview"); [eexists; reflexivity|].
    discriminate Hp. }
  destruct Hm as (x & Hx).
  pose (body := fun preview : JsVal =>
                  if truthy preview
                  then key <~ lift (cleanUrl preview) ;;
                       (fun s0 : Downloader => (imageStore_set key videoMap s0, Ok tt))
                  else ret tt).
  assert (E : processVideoMedia media s = forEach body (map JStr ps) s).
  { unfold processVideoMedia.
    unfold mbind at 1, lift at 1. rewrite (buildVideoMap_tiers media x Hx).
    unfold mbind at 1, lift at 1. rewrite Hp. reflexivity. }
  unfold r. rewrite E. clear E.
  destruct (previews_loop videoMap body ps) with (s := s) as (A & B & C).
  { intros p s0 Hin. unfold body. rewrite (T p Hin).
    unfold mbind, lift, cleanUrl. rewrite (T p Hin). reflexivity. }
  split; [exact A|]. split; [exact B|].
  destruct (fingerprints_written videoMap ps (imageStore s)) as (F1 & F2 & _).
  rewrite C. split; [exact F1 | exact F2].
Qed.

(* ================================================================== *)
(** * Records under their ids *)
(* ================================================================== *)

Lemma Map_get_set_no_string (m : JsMap) (k v : JsVal) (id : string) :
  (forall i, k <> JStr i) ->
  Map_get (Map_set m k v) (JStr id) = Map_get m (JStr id).
Proof.
  intros N. induction m as [|[k0 v0] m IH]; cbn [Map_set Map_get].
  - destruct k; try reflexivity. exfalso. apply (N s). reflexivity.
  - destruct (sameValueZero k k0) eqn:E; cbn [Map_get].
    + destruct (sameValueZero (JStr id) k0) eqn:E'; [|reflexivity].
      exfalso. destruct k0; try discriminate E'.
      destruct k; try discriminate E. apply (N s0). reflexivity.
    + rewrite IH. reflexivity.
Qed.

(** What [mediaStore] answers for a string key after a [set]. *)
Lemma Map_get_set_key (m : JsMap) (k v : JsVal) (id : string) :
  Map_get (Map_set m k v) (JStr id)
  = if sameValueZero (JStr id) k then Some v else Map_get m (JStr id).
Proof.
  destruct k as [| |b|z|a|l|fs]; cbn [sameValueZero];
    try (apply Map_get_set_no_string; intros i; discriminate).
  apply Map_get_set_string.
Qed.

(** What one record does to the answer of [mediaStore] for a string key:
    the record is stored under its id before its media are looked at. *)
Lemma processMediaItem_key (item : JsVal) (s : Downloader) (id : string) :
  Map_get (mediaStore (fst (processMediaItem item MediaStore s))) (JStr id)
  = match prop item "id" with
    | Ok k => if truthy k && sameValueZero (JStr id) k then Some item
              else Map_get (mediaStore s) (JStr id)
    | Throw => Map_get (mediaStore s) (JStr id)
    end.
Proof.
  destruct (processMediaItem_stores item MediaStore s) as (s0 & E & (A & _)).
  rewrite A, E. destruct (prop item "id") as [k|]; [|reflexivity].
  destruct (truthy k); cbn [andb]; [|reflexivity].
  cbn [store_set mediaStore]. apply Map_get_set_key.
Qed.

Lemma processMediaItem_otherId (item : JsVal) (s : Downloader) (id : string) :
  otherId id item ->
  Map_get (mediaStore (fst (processMediaItem item MediaStore s))) (JStr id)
  = Map_get (mediaStore s) (JStr id).
Proof.
  intros N. rewrite processMediaItem_key.
  destruct (prop item "id") as [k|] eqn:E; [|reflexivity].
  destruct (sameValueZero (JStr id) k) eqn:V; [|rewrite andb_false_r; reflexivity].
  exfalso. apply N. destruct k; try discriminate V.
  cbn [sameValueZero] in V. apply String.eqb_eq in V. subst. exact E.
Qed.

(** Records with other ids leave the answer for [id] as it is, wherever
    the loop stops. *)
Lemma forEach_otherId (id : string) (items : list JsVal) : forall s,
  Forall (otherId id) items ->
  Map_get (mediaStore (fst (forEach (fun item => processMediaItem item MediaStore) items s)))
    (JStr id)
  = Map_get (mediaStore s) (JStr id).
Proof.
  induction items as [|x items IH]; intros s H; cbn [forEach]; [reflexivity|].
  inversion H as [|? ? Hx Hl]; subst. unfold mbind.
  pose proof (processMediaItem_otherId x s id Hx) as K.
  destruct (processMediaItem x MediaStore s) as [s1 [[]|]]; cbn [fst] in *; [|exact K].
  rewrite (IH s1 Hl). exact K.
Qed.

Lemma forEach_app (f : JsVal -> M unit) (a b : list JsVal) (s : Downloader) :
  snd (forEach f a s) = Ok tt ->
  forEach f (a ++ b) s = forEach f b (fst (forEach f a s)).
Proof.
  revert s. induction a as [|x a IH]; intros s; cbn [forEach app]; [reflexivity|].
  unfold mbind. destruct (f x s) as [s1 [[]|]]; cbn [snd]; [apply IH | discriminate].
Qed.

(** A record of a listing that the loop reaches, and that no later record
    of the listing replaces, is found under its id. *)
Lemma processApiData_listing (s : Downloader) (before after : list JsVal) (r : JsVal)
  (id : string) :
  snd (forEach (fun item => processMediaItem item MediaStore) before s) = Ok tt ->
  prop r "id" = Ok (JStr id) -> id <> "" ->
  Forall (otherId id) after ->
  Map_get (mediaStore (processApiData (JArr (before ++ r :: after)) false s)) (JStr id)
  = Some r.
Proof.
  intros Hb Hi Hn Ha. unfold processApiData.
  rewrite (forEach_app _ before (r :: after) s Hb).
  set (s0 := fst (forEach (fun item => processMediaItem item MediaStore) before s)).
  cbn [forEach]. unfold mbind.
  assert (K : Map_get (mediaStore (fst (processMediaItem r MediaStore s0))) (JStr id)
              = Some r).
  { rewrite processMediaItem_key, Hi, (truthy_string id Hn).
    cbn [sameValueZero andb]. rewrite String.eqb_refl. reflexivity. }
  destruct (processMediaItem r MediaStore s0) as [s1 [[]|]]; cbn [fst] in *; [|exact K].
  rewrite (forEach_otherId id after s1 Ha). exact K.
Qed.

(** A payload none of whose records carries [id] leaves the answer for
    [id] as it is. *)
Lemma processApiData_otherId (s : Downloader) (data : JsVal) (isForDm : bool)
  (id : string) :
  Forall (otherId id) (recordsOf data) ->
  Map_get (mediaStore (processApiData data isForDm s)) (JStr id)
  = Map_get (mediaStore s) (JStr id).
Proof.
  intros H. destruct isForDm.
  - rewrite (proj1 (processApiData_dm_frame data s)). reflexivity.
  - unfold processApiData.
    destruct data; cbn [recordsOf] in H;
      try (apply forEach_otherId; exact H);
      try reflexivity.
    unfold mbind, lift.
    destruct (prop (JObj fields) "id") as [k|]; [|reflexivity].
    destruct (if truthy k then prop (JObj fields) "media" else Ok JUndef) as [media|];
      [|reflexivity].
    destruct (truthy k && isArray media); [|reflexivity].
    apply processMediaItem_otherId. inversion H; assumption.
Qed.

(** The entries of a media list that come before its first video. *)
Lemma firstReturn_noVideo (q : Quality) (others rest : list JsVal) :
  Forall noVideo others ->
  firstReturn (videoUrlOfMedia q) (others ++ rest) = firstReturn (videoUrlOfMedia q) rest.
Proof.
  induction 1 as [|x others (t & Ht & Hv) _ IH]; [reflexivity|].
  cbn [app firstReturn]. unfold videoUrlOfMedia at 1. rewrite Ht. cbn [bind].
  rewrite Hv. exact IH.
Qed.

(** C3, as the code has it.  A recorded post is resolved under its post
    id, not under a fingerprint.
    - Resolution.  In every state in which [mediaStore] holds, under the
      non-empty string [id], a record whose first video entry is [m] (the
      entries before it have a type that is not "video"), with the quality
      map [Q = {full: m.source.source, 240: m.videoSources[240], 720:
      m.videoSources[720]}] and the preferred quality [q] of the settings:
      for a wrapper without embedded player inside a post whose [data-id]
      is [id], [extractVideoUrl] returns [Q[q]] when that tier is present
      (the tier [preview] never is), [Q[full]] when it is not and the full
      tier is, and [null] when neither is and nothing else is to be found
      (no further entry, a wrapper without descendants and without
      [data-src]).
    - Recording.  A payload not flagged for chats puts a record under its
      id when it is a single record with a non-empty string id and a media
      array, and when it is a listing, for every record with such an id
      that the loop reaches (the records before it are processed without
      exception) and that no later record of the listing replaces.
    - Persistence.  A later payload, flagged or not, none of whose records
      carries [id] leaves the record under [id] as it is.
    - Fingerprints.  For a video entry whose truthy previews are strings,
      [processVideoMedia] does not throw and writes the quality map, with
      the tiers that are truthy, to [imageStore] under every preview URL
      cut at its first [?], so that preview URLs that differ in their
      query strings write one and the same key. *)
Theorem store_resolution_by_post_id :
  (forall (s : Downloader) (id : string) (data : JsVal) (others : list JsVal)
          (m : JsVal) (rest : list JsVal) (wrapper post : Node),
      Map_get (mediaStore s) (JStr id) = Some data -> id <> "" ->
      prop data "media" = Ok (JArr (others ++ m :: rest)) ->
      Forall noVideo others ->
      prop m "type" = Ok (JStr "video") ->
      querySelector wrapper sel_video_vjs_tech = None ->
      getAttribute post "data-id" = Some id ->
      let full := opt_prop (opt_prop m "source") "source" in
      let videoSources := opt_prop m "videoSources" in
      let preferred := match quality (settings s) with
                       | QPreview => JUndef
                       | Q240 => opt_prop_idx videoSources 240
                       | Q720 => opt_prop_idx videoSources 720
                       | QFull => full
                       end in
      (truthy preferred = true ->
       extractVideoUrl s wrapper (Some post) = Ok (Some preferred))
      /\ (truthy preferred = false -> truthy full = true ->
          extractVideoUrl s wrapper (Some post) = Ok (Some full))
      /\ (truthy preferred = false -> truthy full = false -> rest = [] ->
          descendants wrapper = [] -> getAttribute wrapper "data-src" = None ->
          extractVideoUrl s wrapper (Some post) = Ok None))
  /\ (forall (s : Downloader) (data : JsVal) (id : string) (entries : list JsVal),
         prop data "id" = Ok (JStr id) -> id <> "" ->
         prop data "media" = Ok (JArr entries) ->
         Map_get (mediaStore (processApiData data false s)) (JStr id) = Some data)
  /\ (forall (s : Downloader) (before : list JsVal) (r : JsVal) (after : list JsVal)
             (id : string),
         snd (forEach (fun item => processMediaItem item MediaStore) before s) = Ok tt ->
         prop r "id" = Ok (JStr id) -> id <> "" ->
         Forall (otherId id) after ->
         Map_get (mediaStore (processApiData (JArr (before ++ r :: after)) false s))
           (JStr id) = Some r)
  /\ (forall (s : Downloader) (data : JsVal) (isForDm : bool) (id : string),
         Forall (otherId id) (recordsOf data) ->
         Map_get (mediaStore (processApiData data isForDm s)) (JStr id)
         = Map_get (mediaStore s) (JStr id))
  /\ (forall (s : Downloader) (m : JsVal) (ps : list string),
         previewsOf m = Ok (map JStr ps) ->
         let Q := JObj (filter (fun tier => truthy (snd tier))
                          [("full", opt_prop (opt_prop m "source") "source");
                           ("240", opt_prop_idx (opt_prop m "videoSources") 240);
                           ("720", opt_prop_idx (opt_prop m "videoSources") 720)]) in
         snd (processVideoMedia m s) = Ok tt
         /\ forall p, In p ps ->
                      Map_get (imageStore (fst (processVideoMedia m s)))
                        (JStr (first_part (split "?" p))) = Some Q)
  /\ (forall f query,
         free_of "?" f ->
         first_part (split "?" (f ++ String "?" query)) = f
         /\ first_part (split "?" f) = f).
Proof.
  split; [|split; [|split; [|split; [|split]]]].
  - intros s id data others m rest wrapper post Hg Hn Hm Ho Ht Hw Ha
      full videoSources preferred.
    assert (E : extractVideoUrl s wrapper (Some post) =
                firstSuccess
                  [ (if truthy (js_or preferred full) then Ok (Some (js_or preferred full))
                     else firstReturn (videoUrlOfMedia (quality (settings s))) rest);
                    Ok (videoDataAttribute wrapper); Ok (wrapperDataSrc wrapper);
                    Ok (scanVideos wrapper); Ok (scanDataAttributes wrapper)]).
    { rewrite (extractVideoUrl_without_player s wrapper (Some post) Hw).
      rewrite (storeLookup_hit s post id data (others ++ m :: rest) Ha Hn Hg Hm).
      rewrite (firstReturn_noVideo _ others (m :: rest) Ho).
      cbn [firstReturn]. rewrite (videoUrlOfMedia_video _ m Ht).
      cbv zeta. unfold preferred, videoSources, full, qualityMap_get.
      destruct (quality (settings s));
        match goal with |- context [truthy ?u] => destruct (truthy u) end; reflexivity. }
    split; [|split].
    + intros Hp. rewrite E. unfold js_or. rewrite Hp, Hp. reflexivity.
    + intros Hp Hf. rewrite E. unfold js_or. rewrite Hp, Hf. reflexivity.
    + intros Hp Hf -> Hd Hs. rewrite E. unfold js_or. rewrite Hp, Hf.
      destruct (empty_wrapper_steps wrapper Hd Hs) as (-> & -> & -> & ->).
      reflexivity.
  - intros s data id entries. apply processApiData_records.
  - intros s before r after id. apply processApiData_listing.
  - intros s data isForDm id. apply processApiData_otherId.
  - intros s m ps Hp Q.
    destruct (processVideoMedia_fingerprints m ps s Hp) as (A & _ & F & _).
    split; [exact A | exact F].
  - intros f query Hf. split; [apply first_part_query | apply first_part_free]; exact Hf.
Qed.

(** The record of post 42 arrives in a listing, after the record of
    another post, and the record of a third post is recorded later: post
    42 still resolves to the 720 tier when it is preferred, and to the
    full tier when the preview tier, which no map has, is preferred. *)
Lemma store_resolution_by_post_id_witness :
  let s := processApiData record43 false (processApiData listing42 false downloader0) in
  extractVideoUrl (withQuality Q720 s) shell (Some (postWithId "42"))
  = Ok (Some (JStr "https://x/720.mp4"))
  /\ extractVideoUrl (withQuality QPreview s) shell (Some (postWithId "42"))
     = Ok (Some (JStr "https://x/full.mp4"))
  /\ first_part (split "?" "https://x/p.jpg?z=1") = "https://x/p.jpg".
Proof.
  intros s.
  pose (m := JObj [("type", JStr "video");
                   ("preview", JStr "https://x/p.jpg?z=1");
                   ("source", JObj [("source", JStr "https://x/full.mp4")]);
                   ("videoSources", JObj [("720", JStr "https://x/720.mp4")])]).
  assert (N : "42" <> "") by discriminate.
  assert (F : free_of "?" "https://x/p.jpg").
  { unfold free_of. simpl. intros H.
    repeat (destruct H as [H|H]; [discriminate H|]). exact H. }
  destruct store_resolution_by_post_id as (Res & _ & Lst & Per & _ & Cut).
  assert (G : Map_get (mediaStore s) (JStr "42") = Some payload42).
  { unfold s. rewrite Per.
    - apply (Lst downloader0 [JObj [("id", JStr "41"); ("media", JArr [])]]
               payload42 [] "42"); [reflexivity | reflexivity | exact N | constructor].
    - constructor; [discriminate | constructor]. }
  destruct (Res (withQuality Q720 s) "42" payload42 [] m [] shell (postWithId "42")
              G N eq_refl (Forall_nil _) eq_refl eq_refl eq_refl) as (A & _).
  destruct (Res (withQuality QPreview s) "42" payload42 [] m [] shell (postWithId "42")
              G N eq_refl (Forall_nil _) eq_refl eq_refl eq_refl) as (_ & B & _).
  split; [exact (A eq_refl)|]. split; [exact (B eq_refl eq_refl)|].
  exact (proj1 (Cut "https://x/p.jpg" "z=1" F)).
Defined.

(** C3, as it is worded, fails.  After the payload of the scenario has been
    recorded, the quality map of the video lies in [imageStore] under the
    fingerprint ["https://x/p.jpg"] and has a 720 tier; resolving with
    that fingerprint as the key and 720 as the preferred quality returns
    [null], and not the URL of the 720 tier. *)
Lemma fingerprint_is_not_resolved :
  exists Q,
    Map_get (imageStore recorded42) (JStr "https://x/p.jpg") = Some (JObj Q)
    /\ assoc (quality_key Q720) Q = Some (JStr "https://x/720.mp4")
    /\ extractVideoUrl (withQuality Q720 recorded42) shell
         (Some (postWithId "https://x/p.jpg")) = Ok None
    /\ extractVideoUrl (withQuality Q720 recorded42) shell
         (Some (postWithId "https://x/p.jpg?x=1")) = Ok None.
Proof.
  exists [("full", JStr "https://x/full.mp4"); ("720", JStr "https://x/720.mp4")].
  repeat split; vm_compute; reflexivity.
Qed.

(** C10.  [imageStore] and [videoStore] are written and never read.
    Resolution gives the same result whatever the two stores hold: this is
    so for [extractVideoUrl], the only method that consults a store, and
    hence for the collection of the media of a post (the other resolvers,
    [extractVideoUrlFromElement] and [extractVideoUrlFromDataAttributes],
    take no store at all).  A payload flagged for chats is written to
    [videoStore] and [imageStore] and leaves [mediaStore] as it is, so
    resolution is the same after it as before it; an unflagged payload
    writes its fingerprints to [imageStore]. *)
Theorem side_stores_are_write_only :
  (forall s videos images wrapper post,
      extractVideoUrl (withSideStores videos images s) wrapper post
      = extractVideoUrl s wrapper post)
  /\ (forall pg s videos images post,
         extractMediaFromPost pg (withSideStores videos images s) post
         = extractMediaFromPost pg s post)
  /\ (forall data s wrapper post,
         mediaStore (processApiData data true s) = mediaStore s
         /\ extractVideoUrl (processApiData data true s) wrapper post
            = extractVideoUrl s wrapper post)
  /\ (let s := processApiData payload42 true (newDownloader "of-downloader-k3v9x2a") in
      mediaStore s = [] /\ videoStore s = [(JStr "42", payload42)]
      /\ map fst (imageStore s) = [JStr "https://x/p.jpg"]
      /\ extractVideoUrl s shell (Some (postWithId "42")) = Ok None)
  /\ map fst (imageStore recorded42) = [JStr "https://x/p.jpg"].
Proof.
  assert (X : forall s videos images wrapper post,
             extractVideoUrl (withSideStores videos images s) wrapper post
             = extractVideoUrl s wrapper post) by reflexivity.
  split; [exact X|]. split; [|split; [|split]].
  - intros pg s videos images post. unfold extractMediaFromPost.
    assert (C : forall creator ws,
               collectVideos (withSideStores videos images s) post creator ws
               = collectVideos s post creator ws).
    { intros creator ws. induction ws as [|w ws IH]; [reflexivity|].
      cbn [collectVideos]. rewrite X, IH. reflexivity. }
    rewrite C. reflexivity.
  - intros data s wrapper post.
    destruct (processApiData_dm_frame data s) as [A B].
    split; [exact A|].
    unfold extractVideoUrl, method2. rewrite A, B. reflexivity.
  - vm_compute. repeat split.
  - vm_compute. reflexivity.
Qed.

Lemma parentsLoop_firstn (depth : nat) (parents : list Node) :
  firstSuccess (map (fun n => Ok (dataAttributeOf n)) (firstn depth parents))
  = Ok (parentsLoop depth parents).
Proof.
  unfold firstSuccess. revert parents.
  induction depth as [|depth IH]; intros [|p parents]; try reflexivity.
  cbn [firstn map firstReturn parentsLoop].
  destruct (dataAttributeOf p); [reflexivity | apply IH].
Qed.

(** C9, as the code has it.  [extractVideoUrl] applies its steps in one
    fixed order, the first success winning: the [source] labeled original
    of the [video.vjs-tech] of the wrapper, any [source] of it, its [src];
    the record of the post in [mediaStore]; [data-src], then [data-video],
    of the first [video], then [data-src] of the wrapper; the [src] of every
    nested [video] and of its [source]s; a [data-video], [data-src] or
    [data-url] with [http] in it on any nested element.  It returns [null]
    exactly when every step fails.  The other resolvers have cascades of
    their own: [extractVideoUrlFromElement] tries the labeled [source], any
    [source], the [src], [data-src] and [data-video] of the element and
    never the store; [extractVideoUrlFromDataAttributes] reads the four
    data attributes on the element and on up to three ancestors. *)
Theorem extractVideoUrl_is_an_ordered_cascade :
  (forall s wrapper post,
      extractVideoUrl s wrapper post = firstSuccess (strategiesOfSource s wrapper post))
  /\ (forall s wrapper post,
         extractVideoUrl s wrapper post = Ok None
         <-> Forall (fun r => r = Ok None) (strategiesOfSource s wrapper post))
  /\ (forall video,
         Ok (extractVideoUrlFromElement video) = firstSuccess (strategiesOfElement video))
  /\ (forall video parents,
         Ok (extractVideoUrlFromDataAttributes video parents)
         = firstSuccess (map (fun n => Ok (dataAttributeOf n))
                           (video :: firstn 3 parents))).
Proof.
  split; [|split; [|split]].
  - apply extractVideoUrl_firstSuccess.
  - intros s wrapper post. rewrite extractVideoUrl_firstSuccess.
    apply firstSuccess_none.
  - intros video.
    unfold extractVideoUrlFromElement, firstSuccess, strategiesOfElement, sourceUrl, attrUrl.
    cbn [firstReturn].
    destruct (querySelector video sel_source_original) as [so|];
      [destruct (nonEmpty (src so)); [reflexivity|]|];
      (destruct (querySelector video sel_source) as [sa|];
       [destruct (nonEmpty (src sa)); [reflexivity|]|]);
      (destruct (nonEmpty (src video)); [reflexivity|]);
      (destruct (getAttribute video "data-src") as [a|];
       [destruct (nonEmpty a); [reflexivity|]|]);
      (destruct (getAttribute video "data-video") as [b|];
       [destruct (nonEmpty b)|]); reflexivity.
  - intros video parents. unfold extractVideoUrlFromDataAttributes.
    change (map (fun n => Ok (dataAttributeOf n)) (video :: firstn 3 parents))
      with (Ok (dataAttributeOf video)
            :: map (fun n => Ok (dataAttributeOf n)) (firstn 3 parents)).
    unfold firstSuccess at 1. cbn [firstReturn].
    destruct (dataAttributeOf video); [reflexivity|].
    symmetry. apply parentsLoop_firstn.
Qed.

(** The cascade on the post of the scenario: the store answers because
    the player shell gives nothing to the first three steps. *)
Lemma extractVideoUrl_is_an_ordered_cascade_witness :
  extractVideoUrl recorded42 shell (Some (postWithId "42"))
  = Ok (Some (JStr "https://x/full.mp4"))
  /\ (extractVideoUrl downloader0 shell None = Ok None
      <-> Forall (fun r => r = Ok None) (strategiesOfSource downloader0 shell None)).
Proof.
  destruct extractVideoUrl_is_an_ordered_cascade as (A & B & _).
  split; [rewrite A; vm_compute; reflexivity | apply B].
Defined.

(** C9, as it is worded, fails.  On a player whose [video] carries the URL
    in its [data-source] attribute the fifth strategy of the design
    succeeds, and [extractVideoUrl] returns [null]: it reads [data-source]
    nowhere. *)
Lemma data_source_is_not_tried :
  spec_cascade downloader0 lazyWrapper None [lazyWrapper]
  = Ok (Some (JStr "https://x/v.mp4"))
  /\ extractVideoUrl downloader0 lazyWrapper None = Ok None.
Proof. split; vm_compute; reflexivity. Qed.

(* ================================================================== *)
(** * Injected controls *)
(* ================================================================== *)

Lemma descendants_appendChild (d : ElemData) (cs : list Node) (c : Node) :
  descendants (appendChild (Elem d cs) c)
  = (descendants (Elem d cs)
     ++ match c with
        | Text _ => []
        | Elem _ _ => c :: descendants c
        end)%list.
Proof.
  cbn [appendChild descendants]. rewrite flat_map_app.
  cbn [flat_map]. rewrite app_nil_r. reflexivity.
Qed.

(** The buttons of a control do not carry the marker class. *)
Lemma container_inner_controls (s : Downloader) (media : list Media) :
  querySelectorAll (createDownloadButtonContainer s media) (sel_unique s) = [].
Proof.
  unfold createDownloadButtonContainer, querySelectorAll.
  cbn [descendants].
  induction (groupMediaByType media) as [|g gs IH]; [reflexivity|].
  cbn [map flat_map]. unfold createSmartDownloadButton at 1.
  cbn [descendants flat_map app filter node_matches matches existsb forallb
       matches_simple classes sel_unique sel_class].
  exact IH.
Qed.

Lemma container_is_control (s : Downloader) (media : list Media) :
  node_matches (createDownloadButtonContainer s media) (sel_unique s) = true.
Proof.
  unfold createDownloadButtonContainer, sel_unique, sel_class.
  cbn [node_matches matches existsb forallb matches_simple classes].
  rewrite String.eqb_refl. reflexivity.
Qed.

(** Appending a control to a container adds one to its controls. *)
Lemma controls_appendChild (s : Downloader) (d : ElemData) (cs : list Node)
  (media : list Media) :
  controls s (appendChild (Elem d cs) (createDownloadButtonContainer s media))
  = S (controls s (Elem d cs)).
Proof.
  unfold controls, querySelectorAll.
  rewrite descendants_appendChild.
  pose proof (container_is_control s media) as C.
  pose proof (container_inner_controls s media) as I.
  unfold querySelectorAll in I.
  destruct (createDownloadButtonContainer s media) as [t|d' cs'] eqn:E;
    [discriminate C|].
  rewrite filter_app, length_app. cbn [filter]. rewrite C, I. cbn [length]. lia.
Qed.

(** [handleNewPost] adds a control to a post with media, whether or not the
    post carries one already. *)
Lemma handleNewPost_adds_control (pg : Page) (s : Downloader) (post : Node)
  (media : list Media) :
  extractMediaFromPost pg s post = Ok media -> media <> [] ->
  exists post', handleNewPost pg s post = Ok post'
                /\ controls s post' = S (controls s post).
Proof.
  intros E N. unfold handleNewPost. rewrite E. cbn [bind].
  destruct media as [|m media]; [contradiction|]. cbn [length Nat.ltb Nat.leb].
  eexists; split; [reflexivity|].
  destruct post as [t|d cs].
  - vm_compute in E. discriminate E.
  - apply controls_appendChild.
Qed.

(** A post that carries a control is skipped by [handleFeedPosts]. *)
Lemma handleFeedPost_idempotent (pg : Page) (s : Downloader) (post : Node) :
  (0 < controls s post)%nat -> handleFeedPost pg s post = Ok post.
Proof.
  unfold controls, handleFeedPost, querySelector.
  destruct (querySelectorAll post (sel_unique s)); cbn [length hd_error];
    [lia | reflexivity].
Qed.

(** After [removeAll] no descendant matches the selector. *)
Lemma removeAll_none (sel : Selector) :
  forall n, querySelectorAll (removeAll sel n) sel = [].
Proof.
  unfold querySelectorAll.
  fix IH 1. intros [t|d cs]; [reflexivity|].
  cbn [removeAll descendants].
  revert cs. fix IHcs 1. intros [|x cs]; [reflexivity|].
  destruct (node_matches x sel) eqn:E.
  - apply IHcs.
  - cbn [flat_map]. rewrite filter_app, (IHcs cs), app_nil_r.
    specialize (IH x). destruct x as [t|dx csx]; [reflexivity|].
    cbn [removeAll] in *. cbn [filter node_matches] in *.
    rewrite E. exact IH.
Qed.

(** The paths that remove before they append leave exactly one control. *)
Lemma createVideoDownloadButton_one_control (pg : Page) (s : Downloader)
  (d : ElemData) (cs : list Node) (videoUrl : JsVal) :
  controls s (createVideoDownloadButton pg s (Elem d cs) videoUrl) = 1%nat.
Proof.
  unfold createVideoDownloadButton.
  pose proof (removeAll_none (sel_unique s) (Elem d cs)) as R.
  cbn [removeAll] in *.
  rewrite controls_appendChild. unfold controls. rewrite R. reflexivity.
Qed.

Lemma handleNewMedia_one_control (pg : Page) (s : Downloader) (post : Node)
  (media : list Media) :
  extractMediaFromPost pg s post = Ok media -> media <> [] ->
  exists post', handleNewMedia pg s post = Ok post' /\ controls s post' = 1%nat.
Proof.
  intros E N. unfold handleNewMedia. rewrite E. cbn [bind].
  destruct media as [|m media]; [contradiction|]. cbn [length Nat.ltb Nat.leb].
  eexists; split; [reflexivity|].
  destruct post as [t|d cs].
  - vm_compute in E. discriminate E.
  - pose proof (removeAll_none (sel_unique s) (Elem d cs)) as R.
    cbn [removeAll] in *.
    rewrite controls_appendChild. unfold controls. rewrite R. reflexivity.
Qed.

(** The paths that look before they append skip a container that carries
    a control. *)
Lemma guarded_paths_idempotent (pg : Page) (s : Downloader) (container : Node) :
  (0 < controls s container)%nat ->
  handleFeedPost pg s container = Ok container
  /\ handleChatMessage pg s container = Ok container
  /\ ensureButtons pg s container = Ok container.
Proof.
  unfold controls, handleFeedPost, handleChatMessage, ensureButtons, querySelector.
  destruct (querySelectorAll container (sel_unique s)); cbn [length hd_error];
    [lia | repeat split].
Qed.

(** C8.  A post that carries a control gets a second one from
    [handleNewPost].  The post of the feed receives its control from
    [handleFeedPosts], and further passes of [handleFeedPosts] leave it
    alone; when [handleNewPost] is called on that post, it appends a
    control without looking for the one that is there, and the post carries
    two; [handleNewMedia], on the same post, removes before it appends. *)
Theorem handleNewPost_stacks_a_second_control :
  exists p1 p2 p3,
    handleFeedPost feedPage downloader0 imagePost = Ok p1
    /\ controls downloader0 p1 = 1%nat
    /\ handleFeedPost feedPage downloader0 p1 = Ok p1
    /\ handleNewPost feedPage downloader0 p1 = Ok p2
    /\ controls downloader0 p2 = 2%nat
    /\ handleNewMedia feedPage downloader0 p1 = Ok p3
    /\ controls downloader0 p3 = 1%nat.
Proof.
  destruct (handleFeedPost feedPage downloader0 imagePost) as [p1|] eqn:E1;
    [|vm_compute in E1; discriminate E1].
  assert (C1 : controls downloader0 p1 = 1%nat).
  { vm_compute in E1. injection E1 as <-. vm_compute. reflexivity. }
  destruct (extractMediaFromPost feedPage downloader0 p1) as [media|] eqn:EM.
  2:{ vm_compute in E1. injection E1 as <-. vm_compute in EM. discriminate EM. }
  assert (NM : media <> []).
  { vm_compute in E1. injection E1 as <-. vm_compute in EM. injection EM as <-.
    discriminate. }
  destruct (handleNewPost_adds_control feedPage downloader0 p1 media EM NM)
    as (p2 & E2 & C2).
  destruct (handleNewMedia feedPage downloader0 p1) as [p3|] eqn:E3.
  2:{ vm_compute in E1. injection E1 as <-. vm_compute in E3. discriminate E3. }
  exists p1, p2, p3. repeat split; auto.
  - apply handleFeedPost_idempotent. rewrite C1. lia.
  - rewrite C2, C1. reflexivity.
  - vm_compute in E1. injection E1 as <-. vm_compute in E3. injection E3 as <-.
    vm_compute. reflexivity.
Qed.

(* ================================================================== *)
(** * More on the runs of the service *)
(* ================================================================== *)

Lemma responses_run (evs : list (Z * Event)) : forall s s',
  run s evs = Some s' ->
  responses (trace s') =
    (rev (map (fun m => if wellShaped m then accepted_ack else refused_ack)
            (messagesOf evs)) ++ responses (trace s))%list.
Proof.
  induction evs as [|[now e] evs IH]; intros s s'; cbn [run].
  - intros [= <-]. reflexivity.
  - destruct (step s now e) as [s1|] eqn:E; [|discriminate].
    intros R. rewrite (IH s1 s' R).
    apply step_effects in E.
    unfold messagesOf. cbn [flat_map snd]. fold (messagesOf evs).
    destruct e as [m|k stored|o|].
    + destruct E as [-> _]. cbn [app map rev responses].
      rewrite <- app_assoc. reflexivity.
    + destruct E as (r & _ & _ & [-> | [d' ->]]); reflexivity.
    + destruct E as (d & _ & _ & ->). destruct (failed o); reflexivity.
    + destruct E as (_ & [-> | [d ->]]); reflexivity.
Qed.

(** X1.  Over any run, the acknowledgements sent are, message by message
    and in order, [{success: true}] for an array of three elements or more
    and [{success: false, error: 'Invalid message format'}] for anything
    else: every message is answered once, at once, and nothing else is
    ever answered. *)
Theorem every_message_is_acknowledged_once (evs : list (Z * Event)) (s : Service) :
  run initial evs = Some s ->
  rev (responses (trace s)) =
    map (fun m => if wellShaped m then accepted_ack else refused_ack) (messagesOf evs).
Proof.
  intros R. rewrite (responses_run evs initial s R).
  cbn [initial trace responses]. rewrite app_nil_r. apply rev_involutive.
Qed.

Lemma every_message_is_acknowledged_once_witness :
  rev (responses (trace scenario_end)) = [accepted_ack; accepted_ack; accepted_ack].
Proof.
  rewrite (every_message_is_acknowledged_once scenario scenario_end);
    vm_compute; reflexivity.
Defined.

Lemma pushes_run_count (evs : list (Z * Event)) : forall s s',
  run s evs = Some s' ->
  Forall (fun r => truthy (r_url r) = true) (pending s) ->
  Forall (fun d => truthy (d_url d) = true) (pushes (trace s)) ->
  (length (pushes (trace s')) + length (pending s')
   = length (filter hasUrl (messagesOf evs))
     + (length (pushes (trace s)) + length (pending s)))%nat
  /\ Forall (fun r => truthy (r_url r) = true) (pending s')
  /\ Forall (fun d => truthy (d_url d) = true) (pushes (trace s')).
Proof.
  induction evs as [|[now e] evs IH]; intros s s'; cbn [run].
  - intros [= <-] Hp Hq. auto.
  - destruct (step s now e) as [s1|] eqn:E; [|discriminate].
    intros R Hp Hq.
    apply step_effects in E.
    unfold messagesOf. cbn [flat_map snd]. fold (messagesOf evs).
    destruct e as [m|k stored|o|].
    + destruct E as [Et Ep].
      destruct (IH s1 s' R) as (C & P & Q).
      * rewrite Ep. apply Forall_app. split; [exact Hp|].
        unfold requestOf, hasUrl. destruct m; try constructor.
        destruct (Nat.leb 3 (length items)); cbn [andb]; [|constructor].
        destruct (truthy (nth 0 items JUndef)) eqn:T; constructor; [exact T | constructor].
      * rewrite Et. exact Hq.
      * split; [|split; assumption].
        rewrite C, Et, Ep, length_app. cbn [pushes app filter].
        unfold requestOf. destruct m; try (cbn [hasUrl length]; lia).
        destruct (hasUrl (JArr items)); cbn [length app]; lia.
    + destruct E as (r & En & Ep & Et).
      assert (Hr : truthy (r_url r) = true).
      { apply nth_error_In in En. rewrite Forall_forall in Hp. apply Hp, En. }
      destruct (IH s1 s' R) as (C & P & Q).
      * rewrite Ep. apply remove_nth_Forall, Hp.
      * destruct Et as [-> | [d' ->]]; cbn [pushes]; constructor; assumption.
      * split; [|split; assumption].
        rewrite C, Ep. pose proof (remove_nth_length k (pending s) r En).
        destruct Et as [-> | [d' ->]]; cbn [pushes length app]; lia.
    + destruct E as (d & _ & Ep & Et).
      assert (Eq : pushes (trace s1) = pushes (trace s))
        by (rewrite Et; destruct (failed o); reflexivity).
      destruct (IH s1 s' R) as (C & P & Q); [rewrite Ep; exact Hp | rewrite Eq; exact Hq|].
      split; [|split; assumption]. rewrite C, Ep, Eq. reflexivity.
    + destruct E as (Ep & Et).
      assert (Eq : pushes (trace s1) = pushes (trace s))
        by (destruct Et as [-> | [d ->]]; reflexivity).
      destruct (IH s1 s' R) as (C & P & Q); [rewrite Ep; exact Hp | rewrite Eq; exact Hq|].
      split; [|split; assumption]. rewrite C, Ep, Eq. reflexivity.
Qed.

(** X2.  Requests are neither lost nor made up.  Over any run, the items
    pushed so far and the requests still waiting for the settings are as
    many as the messages received that are arrays of three elements or
    more with a truthy URL; and every pushed item and every waiting request
    has a truthy URL, so a message without URL never reaches the queue. *)
Theorem requests_are_conserved (evs : list (Z * Event)) (s : Service) :
  run initial evs = Some s ->
  (length (enqueued s) + length (pending s)
   = length (filter hasUrl (messagesOf evs)))%nat
  /\ Forall (fun d => truthy (d_url d) = true) (enqueued s)
  /\ Forall (fun r => truthy (r_url r) = true) (pending s).
Proof.
  intros R.
  destruct (pushes_run_count evs initial s R) as (C & P & Q);
    [constructor | constructor |].
  unfold enqueued. rewrite length_rev. cbn [initial trace pending pushes length] in C.
  split; [lia|]. split; [|exact P].
  apply Forall_rev. exact Q.
Qed.

Lemma requests_are_conserved_witness :
  (length (enqueued scenario_end) + length (pending scenario_end) = 3)%nat.
Proof.
  destruct (requests_are_conserved scenario scenario_end) as (C & _);
    [vm_compute; reflexivity|].
  rewrite C. vm_compute. reflexivity.
Defined.

Lemma notifications_run (evs : list (Z * Event)) : forall s s',
  run s evs = Some s' ->
  notifications (trace s) = map failureNotice (failures (trace s)) ->
  notifications (trace s') = map failureNotice (failures (trace s')).
Proof.
  induction evs as [|[now e] evs IH]; intros s s'; cbn [run].
  - intros [= <-] H. exact H.
  - destruct (step s now e) as [s1|] eqn:E; [|discriminate].
    intros R H. apply (IH s1 s' R).
    apply step_effects in E.
    destruct e as [m|k stored|o|].
    + destruct E as [-> _]. exact H.
    + destruct E as (r & _ & _ & [-> | [d' ->]]); exact H.
    + destruct E as (d & _ & _ & ->). destruct (failed o); cbn [negb app notifications failures].
      * rewrite map_app, H. reflexivity.
      * exact H.
    + destruct E as (_ & [-> | [d ->]]); exact H.
Qed.

(** X3.  The notifications are the failures.  Over any run, the
    notifications shown are, one for one and in order, "Download Failed" /
    "Failed to download <filename>" for the items whose transfer ended in
    failure: a transfer that starts well is never notified, and no failure
    goes unnoticed. *)
Theorem notifications_are_the_failures (evs : list (Z * Event)) (s : Service) :
  run initial evs = Some s ->
  notifications (trace s) = map failureNotice (failures (trace s)).
Proof. intros R. apply (notifications_run evs initial s R). reflexivity. Qed.

Lemma notifications_are_the_failures_witness :
  notifications (trace scenario_end) = [("Download Failed", "Failed to download Bob/u1.jpg")].
Proof.
  rewrite (notifications_are_the_failures scenario scenario_end);
    vm_compute; reflexivity.
Defined.

(** X4.  The flag tells the truth.  In every reachable state
    [isProcessingQueue] is false exactly when no activation of the drain
    loop is suspended, and then the queue is empty: no item is ever left in
    the queue without a loop that will take it. *)
Theorem idle_service_has_empty_queue (evs : list (Z * Event)) (s : Service) :
  run initial evs = Some s ->
  (isProcessingQueue s = false <-> drain s = NotRunning)
  /\ (isProcessingQueue s = false -> downloadQueue s = []).
Proof.
  intros R. pose proof (Inv_reachable evs s R) as [F I0 _ _ _ _ _ _].
  assert (E : isProcessingQueue s = false <-> drain s = NotRunning).
  { rewrite F. destruct (drain s); split; intros H; try discriminate; reflexivity. }
  split; [exact E|]. intros H. apply I0, E, H.
Qed.

Lemma idle_service_has_empty_queue_witness :
  isProcessingQueue scenario_end = false /\ downloadQueue scenario_end = [].
Proof.
  assert (R : run initial scenario = Some scenario_end) by (vm_compute; reflexivity).
  assert (F : isProcessingQueue scenario_end = false) by (vm_compute; reflexivity).
  split; [exact F|].
  apply (proj2 (idle_service_has_empty_queue scenario scenario_end R) F).
Defined.

(* ================================================================== *)
(** * The replayed headers *)
(* ================================================================== *)

Lemma assoc_obj_set_same {A : Type} (o : list (string * A)) (k : string) (v : A) :
  assoc k (obj_set o k v) = Some v.
Proof.
  induction o as [|[k' v'] o IH]; cbn [obj_set assoc].
  - rewrite String.eqb_refl. reflexivity.
  - destruct (k =? k')%string eqn:E; cbn [assoc]; rewrite E; [reflexivity | exact IH].
Qed.

Lemma assoc_obj_set_other {A : Type} (o : list (string * A)) (k k' : string) (v : A) :
  k' <> k -> assoc k' (obj_set o k v) = assoc k' o.
Proof.
  intros N. induction o as [|[k0 v0] o IH]; cbn [obj_set assoc].
  - destruct (String.eqb_spec k' k); [contradiction | reflexivity].
  - destruct (String.eqb_spec k k0) as [->|N0]; cbn [assoc].
    + destruct (String.eqb_spec k' k0); [contradiction | reflexivity].
    + rewrite IH. reflexivity.
Qed.

(** A header is replayed when its name is not on the deny list and can be
    a property of the object. *)
Lemma extractHeaders_lookup (hs : list Header) (n : string) :
  assoc n
    (fold_left
       (fun headers header =>
          if negb (Set_has excludedHeaders (h_name header))
          then header_set headers (h_name header) (h_value header)
          else headers)
       hs [])
  = option_map h_value
      (find (fun h => (h_name h =? n)%string
                      && negb (Set_has excludedHeaders (h_name h))
                      && negb (h_name h =? "__proto__")%string)
            (rev hs)).
Proof.
  rewrite <- fold_left_rev_right.
  induction (rev hs) as [|h l IH]; cbn [fold_right find]; [reflexivity|].
  destruct (Set_has excludedHeaders (h_name h)); cbn [negb].
  - rewrite andb_false_r. exact IH.
  - rewrite andb_true_r. unfold header_set.
    destruct (h_name h =? "__proto__")%string; cbn [negb].
    + rewrite andb_false_r. exact IH.
    + rewrite andb_true_r.
      destruct (String.eqb_spec (h_name h) n) as [<-|N].
      * apply assoc_obj_set_same.
      * rewrite assoc_obj_set_other; [exact IH | congruence].
Qed.

Lemma find_agree {A : Type} (f g : A -> bool) (l : list A) :
  (forall x, f x = g x) -> find f l = find g l.
Proof.
  intros E. induction l as [|x l IH]; cbn [find]; [reflexivity|].
  rewrite E, IH. reflexivity.
Qed.

(** X5.  The headers replayed by the re-fetch.  For a request with headers,
    [extractHeaders] succeeds, and under every name the object holds the
    value of the last request header of that name that is neither on the
    deny list nor named [__proto__], and nothing when there is none.  So
    none of [Sec-Fetch-Site], [Sec-Fetch-Mode], [Sec-Fetch-Dest],
    [Sec-Fetch-User], [DNT], [User-Agent] (spelled so; the test is
    case-sensitive) is ever replayed, and neither is a header named
    [__proto__]: assigning a string under that name to an object creates
    no property.  Without headers it throws, and the request is not
    re-fetched. *)
Theorem extractHeaders_keeps_the_last_allowed :
  (forall hs, exists headers,
      extractHeaders (Some hs) = Ok headers
      /\ (forall n, assoc n headers
                    = option_map h_value
                        (find (fun h => (h_name h =? n)%string
                                        && negb (existsb (String.eqb (h_name h))
                                                   ["Sec-Fetch-Site"; "Sec-Fetch-Mode";
                                                    "Sec-Fetch-Dest"; "Sec-Fetch-User";
                                                    "DNT"; "User-Agent"; "__proto__"]))
                              (rev hs)))
      /\ (forall n, In n ["Sec-Fetch-Site"; "Sec-Fetch-Mode"; "Sec-Fetch-Dest";
                          "Sec-Fetch-User"; "DNT"; "User-Agent"; "__proto__"] ->
                    assoc n headers = None))
  /\ extractHeaders None = Throw
  /\ (forall tab u, handleApiRequest {| tabId := tab; url := u; requestHeaders := None |}
                    = []).
Proof.
  assert (L : forall hs n,
             assoc n
               (fold_left
                  (fun headers header =>
                     if negb (Set_has excludedHeaders (h_name header))
                     then header_set headers (h_name header) (h_value header)
                     else headers)
                  hs [])
             = option_map h_value
                 (find (fun h => (h_name h =? n)%string
                                 && negb (existsb (String.eqb (h_name h))
                                            ["Sec-Fetch-Site"; "Sec-Fetch-Mode";
                                             "Sec-Fetch-Dest"; "Sec-Fetch-User";
                                             "DNT"; "User-Agent"; "__proto__"]))
                       (rev hs))).
  { intros hs n. rewrite extractHeaders_lookup. f_equal. apply find_agree.
    intros h. unfold Set_has, excludedHeaders. cbn [existsb].
    rewrite <- andb_assoc. f_equal.
    rewrite !orb_false_r, !negb_orb, <- !andb_assoc. reflexivity. }
  split; [|split].
  - intros hs. eexists. split; [reflexivity|]. split.
    + intros n. apply L.
    + intros n E. cbn [extractHeaders]. rewrite L.
      induction (rev hs) as [|h l IH]; cbn [find]; [reflexivity|].
      destruct (String.eqb_spec (h_name h) n) as [->|N]; cbn [andb]; [|exact IH].
      replace (existsb (String.eqb n)
                 ["Sec-Fetch-Site"; "Sec-Fetch-Mode"; "Sec-Fetch-Dest";
                  "Sec-Fetch-User"; "DNT"; "User-Agent"; "__proto__"]) with true.
      * exact IH.
      * symmetry. apply existsb_exists. exists n. split; [exact E | apply String.eqb_refl].
  - reflexivity.
  - intros tab u. unfold handleApiRequest. cbn [tabId url requestHeaders extractHeaders].
    destruct ((tab <? 0) || includes u trilobite); [reflexivity|].
    destruct (negb (isRelevantEndpoint u)); reflexivity.
Qed.

(** Of two cookies the last is replayed; [User-Agent] is dropped and
    [user-agent] is not; a header named [__proto__] leaves no trace. *)
Lemma extractHeaders_keeps_the_last_allowed_witness :
  extractHeaders
    (Some [ {| h_name := "Cookie"; h_value := "a=1" |};
            {| h_name := "User-Agent"; h_value := "UA" |};
            {| h_name := "__proto__"; h_value := "x" |};
            {| h_name := "user-agent"; h_value := "ua" |};
            {| h_name := "Cookie"; h_value := "a=2" |} ])
  = Ok [("Cookie", "a=2"); ("user-agent", "ua")].
Proof.
  destruct extractHeaders_keeps_the_last_allowed as (K & _).
  destruct (K [ {| h_name := "Cookie"; h_value := "a=1" |};
                {| h_name := "User-Agent"; h_value := "UA" |};
                {| h_name := "__proto__"; h_value := "x" |};
                {| h_name := "user-agent"; h_value := "ua" |};
                {| h_name := "Cookie"; h_value := "a=2" |} ]) as (headers & E & _).
  rewrite E. vm_compute in E. injection E as <-. reflexivity.
Defined.

(* ================================================================== *)
(** * More on the stores *)
(* ================================================================== *)

Section Preserved.

Variable R : Downloader -> Downloader -> Prop.
Hypothesis R_refl : forall s, R s s.
Hypothesis R_trans : forall s1 s2 s3, R s1 s2 -> R s2 s3 -> R s1 s3.

Lemma preserves_ret {A : Type} (a : A) : preserves R (ret a).
Proof. intros s. apply R_refl. Qed.

Lemma preserves_lift {A : Type} (r : Res A) : preserves R (lift r).
Proof. intros s. apply R_refl. Qed.

Lemma preserves_mbind {A B : Type} (m : M A) (k : A -> M B) :
  preserves R m -> (forall a, preserves R (k a)) -> preserves R (mbind m k).
Proof.
  intros Hm Hk s. unfold mbind.
  specialize (Hm s). destruct (m s) as [s1 [a|]]; cbn [fst] in *; [|exact Hm].
  eapply R_trans; [exact Hm | apply Hk].
Qed.

Lemma preserves_forEach (f : JsVal -> M unit) (items : list JsVal) :
  (forall x, preserves R (f x)) -> preserves R (forEach f items).
Proof.
  intros Hf. induction items as [|x items IH]; cbn [forEach].
  - apply preserves_ret.
  - apply preserves_mbind; [apply Hf | intros _; exact IH].
Qed.

End Preserved.

Lemma keepsKeys_refl (m : JsMap) : keepsKeys m m.
Proof. intros k H. exact H. Qed.

Lemma keepsKeys_trans (m1 m2 m3 : JsMap) :
  keepsKeys m1 m2 -> keepsKeys m2 m3 -> keepsKeys m1 m3.
Proof. intros A B k H. apply B, A, H. Qed.

(** [set] keeps every key that was there. *)
Lemma Map_set_keepsKeys (m : JsMap) (k v : JsVal) : keepsKeys m (Map_set m k v).
Proof.
  intros k'. unfold Map_has.
  induction m as [|[k0 v0] m IH]; cbn [Map_set Map_get]; [discriminate|].
  destruct (sameValueZero k k0); cbn [Map_get];
    destruct (sameValueZero k' k0); auto.
Qed.

Lemma grown_refl (s : Downloader) : grown s s.
Proof. repeat split; apply keepsKeys_refl. Qed.

Lemma grown_trans (s1 s2 s3 : Downloader) : grown s1 s2 -> grown s2 s3 -> grown s1 s3.
Proof.
  intros (A1 & A2 & A3 & A4 & A5) (B1 & B2 & B3 & B4 & B5).
  repeat split; try (eapply keepsKeys_trans; eassumption); congruence.
Qed.

Lemma grown_imageStore_set (k v : JsVal) :
  preserves grown (fun s => (imageStore_set k v s, Ok tt)).
Proof.
  intros s. repeat split; try apply keepsKeys_refl. apply Map_set_keepsKeys.
Qed.

Lemma grown_store_set (store : StoreRef) (k v : JsVal) :
  preserves grown (fun s => (store_set store k v s, Ok tt)).
Proof.
  intros s. destruct store; repeat split;
    try apply keepsKeys_refl; apply Map_set_keepsKeys.
Qed.

Ltac grown_step :=
  first [ apply (preserves_mbind grown grown_trans); [|intros ?]
        | apply (preserves_forEach grown grown_refl grown_trans); intros ?
        | apply (preserves_ret grown grown_refl)
        | apply (preserves_lift grown grown_refl)
        | apply grown_imageStore_set
        | apply grown_store_set
        | match goal with
          | |- preserves grown (if ?b then _ else _) => destruct b
          | |- preserves grown (match ?x with _ => _ end) => destruct x
          end ].

Lemma processVideoMedia_grown (media : JsVal) : preserves grown (processVideoMedia media).
Proof. unfold processVideoMedia. repeat grown_step. Qed.

Lemma processImageMedia_grown (media : JsVal) : preserves grown (processImageMedia media).
Proof. unfold processImageMedia. repeat grown_step. Qed.

Lemma processMediaItem_grown (item : JsVal) (store : StoreRef) :
  preserves grown (processMediaItem item store).
Proof.
  unfold processMediaItem.
  apply (preserves_mbind grown grown_trans); [apply (preserves_lift grown grown_refl)|].
  intros id.
  apply (preserves_mbind grown grown_trans).
  { destruct (truthy id); [apply grown_store_set | apply (preserves_ret grown grown_refl)]. }
  intros _.
  apply (preserves_mbind grown grown_trans); [apply (preserves_lift grown grown_refl)|].
  intros media. destruct media; try apply (preserves_ret grown grown_refl).
  apply (preserves_forEach grown grown_refl grown_trans). intros m.
  apply (preserves_mbind grown grown_trans); [apply (preserves_lift grown grown_refl)|].
  intros type. destruct (sameValueZero type (JStr "video"));
    [apply processVideoMedia_grown | apply processImageMedia_grown].
Qed.

Lemma processApiData_grown (data : JsVal) (isForDm : bool) (s : Downloader) :
  grown s (processApiData data isForDm s).
Proof.
  unfold processApiData.
  match goal with |- grown s (fst (?body s)) => assert (H : preserves grown body) end.
  { destruct data;
      try (apply (preserves_mbind grown grown_trans);
           [apply (preserves_lift grown grown_refl)|]; intros id;
           apply (preserves_mbind grown grown_trans);
           [apply (preserves_lift grown grown_refl)|]; intros media;
           destruct (truthy id && isArray media);
           [apply processMediaItem_grown | apply (preserves_ret grown grown_refl)]).
    apply (preserves_forEach grown grown_refl grown_trans). intros item.
    apply processMediaItem_grown. }
  apply H.
Qed.

(** X6.  The stores only grow.  Whatever payload is processed, flagged for
    chats or not, and whether or not the processing throws on the way,
    every key that was in [mediaStore], [videoStore] or [imageStore] before
    is still there afterwards ([set] is the only operation ever applied
    to them), and the settings and the marker class are untouched.  The
    same holds from one intercepted response to the next. *)
Theorem stores_only_grow :
  (forall data isForDm s, grown s (processApiData data isForDm s))
  /\ (forall u o s, grown s (recordResponse u o s)).
Proof.
  split; [apply processApiData_grown|].
  intros u o s. unfold recordResponse.
  destruct (sendToContentScript_resume u [] 0 o) as [m|]; [|apply grown_refl].
  unfold onTabMessage. destruct (msg_type m =? "apiData")%string;
    [apply processApiData_grown | apply grown_refl].
Qed.

(** The record of post 42 survives a later listing, even one that makes
    the processing throw. *)
Lemma stores_only_grow_witness :
  Map_has (mediaStore (processApiData (JArr [JNull]) false recorded42)) (JStr "42") = true
  /\ Map_has (imageStore (processApiData (JArr [JNull]) false recorded42))
       (JStr "https://x/p.jpg") = true.
Proof.
  destruct stores_only_grow as (G & _).
  destruct (G (JArr [JNull]) false recorded42) as (A & _ & C & _).
  split; [apply A | apply C]; vm_compute; reflexivity.
Defined.

Lemma forEach_stops_at_throw (f : JsVal -> M unit) (x : JsVal) (a b : list JsVal) :
  (forall s, f x s = (s, Throw)) ->
  forall s, fst (forEach f (a ++ x :: b) s) = fst (forEach f a s)
            /\ snd (forEach f (a ++ x :: b) s) = Throw.
Proof.
  intros Hx. induction a as [|y a IH]; intros s; cbn [app forEach].
  - unfold mbind. rewrite Hx. split; reflexivity.
  - unfold mbind.
    destruct (f y s) as [s1 [[]|]]; [apply IH | split; reflexivity].
Qed.

Lemma forEach_stops_after_throw (f : JsVal -> M unit) (x : JsVal) (a b : list JsVal) :
  (forall s, snd (f x s) = Throw) ->
  forall s, fst (forEach f (a ++ x :: b) s) = fst (forEach f (a ++ [x]) s).
Proof.
  intros Hx. induction a as [|y a IH]; intros s; cbn [app forEach]; unfold mbind.
  - specialize (Hx s). destruct (f x s) as [s1 [[]|]];
      [cbn [snd] in Hx; discriminate Hx | reflexivity].
  - destruct (f y s) as [s1 [[]|]]; [apply IH | reflexivity].
Qed.

(** X7.  An entry that throws ends the listing.  When the processing of a
    record of an array payload throws at every state it can be run from,
    the records after it are never looked at: the stores end up as if the
    array had stopped with that record.  A [null] entry is such a record,
    and it writes nothing itself: the stores are as if the array had
    stopped before it. *)
Theorem throwing_entry_ends_the_listing :
  (forall a x b isForDm s,
      (forall s0, snd (processMediaItem x (storeFor isForDm) s0) = Throw) ->
      processApiData (JArr (a ++ x :: b)) isForDm s
      = processApiData (JArr (a ++ [x])) isForDm s)
  /\ (forall a b isForDm s,
         processApiData (JArr (a ++ JNull :: b)) isForDm s
         = processApiData (JArr a) isForDm s).
Proof.
  split.
  - intros a x b isForDm s Hx. unfold processApiData.
    apply (forEach_stops_after_throw
             (fun item => processMediaItem item (if isForDm then VideoStore else MediaStore))
             x a b Hx).
  - intros a b isForDm s. unfold processApiData.
    apply (forEach_stops_at_throw
             (fun item => processMediaItem item (if isForDm then VideoStore else MediaStore))
             JNull a b).
    reflexivity.
Qed.

(** After a record whose media list begins with [null] the listing is not
    read any further: post 43 is not recorded. *)
Lemma throwing_entry_ends_the_listing_witness :
  map fst (mediaStore
             (processApiData
                (JArr [brokenRecord; JObj [("id", JStr "43"); ("media", JArr [])]])
                false downloader0))
  = [JStr "42"].
Proof.
  destruct throwing_entry_ends_the_listing as (T & _).
  change [brokenRecord; JObj [("id", JStr "43"); ("media", JArr [])]]
    with ([] ++ brokenRecord :: [JObj [("id", JStr "43"); ("media", JArr [])]])%list.
  rewrite (T [] brokenRecord [JObj [("id", JStr "43"); ("media", JArr [])]]
             false downloader0).
  - vm_compute. reflexivity.
  - intros s0. reflexivity.
Defined.

(** ** Fingerprints *)

(** X8.  Every fingerprint leads to the record.  When the previews of a
    media entry ([preview], [squarePreview], [thumb], those that are
    truthy) are strings: [processVideoMedia] does not throw, and afterwards
    [imageStore] holds, under the fingerprint of each of them, the quality
    map of the entry: the tiers [full] ([source.source]), [240] and [720]
    (of [videoSources]) that are truthy, and no other.  [processImageMedia]
    does not throw either; it stores the [src] of the entry under the same
    fingerprints when it is truthy, and writes nothing when it is not.
    Keys that are no fingerprint of the entry keep their values. *)
Theorem every_fingerprint_leads_to_the_record
  (media : JsVal) (ps : list string) (s : Downloader) :
  previewsOf media = Ok (map JStr ps) ->
  let videoMap :=
    JObj (filter (fun tier => truthy (snd tier))
            [("full", opt_prop (opt_prop media "source") "source");
             ("240", opt_prop_idx (opt_prop media "videoSources") 240);
             ("720", opt_prop_idx (opt_prop media "videoSources") 720)]) in
  (let r := processVideoMedia media s in
   snd r = Ok tt
   /\ (forall p, In p ps ->
                 Map_get (imageStore (fst r)) (JStr (first_part (split "?" p)))
                 = Some videoMap)
   /\ (forall k, (forall p, In p ps -> first_part (split "?" p) <> k) ->
                 Map_get (imageStore (fst r)) (JStr k) = Map_get (imageStore s) (JStr k)))
  /\ (let r := processImageMedia media s in
      snd r = Ok tt
      /\ (truthy (opt_prop media "src") = true ->
          forall p, In p ps ->
                    Map_get (imageStore (fst r)) (JStr (first_part (split "?" p)))
                    = Some (opt_prop media "src"))
      /\ (truthy (opt_prop media "src") = false -> imageStore (fst r) = imageStore s)).
Proof.
  intros Hp videoMap.
  assert (T : Forall (fun p => truthy (JStr p) = true) ps).
  { assert (F : Forall (fun x => truthy x = true) (map JStr ps)).
    { rewrite <- (f_equal (fun r => match r with Ok l => l | Throw => [] end) Hp).
      unfold previewsOf.
      destruct (prop media "preview"), (prop media "squarePreview"), (prop media "thumb");
        cbn [bind]; try constructor.
      apply filter_Forall. }
    rewrite Forall_map in F. exact F. }
  rewrite Forall_forall in T.
  assert (Hm : exists x, prop media "preview" = Ok x).
  { unfold previewsOf in Hp. destruct (prop media "preview"); [eexists; reflexivity|].
    discriminate Hp. }
  destruct Hm as (x & Hx).
  split.
  - destruct (processVideoMedia_fingerprints media ps s Hp) as (A & _ & F1 & F2).
    cbv zeta in *. split; [exact A|]. split; [exact F1|].
    intros k Hk. apply F2. intros p Hin E. apply (Hk p Hin).
    unfold fingerprint in E. injection E as E. exact E.
  - intros r.
    pose (body := fun preview : JsVal =>
                    media_src <~ lift (if truthy preview then prop media "src"
                                       else Ok JUndef) ;;
                    if truthy preview && truthy media_src
                    then key <~ lift (cleanUrl preview) ;;
                         (fun s0 : Downloader => (imageStore_set key media_src s0, Ok tt))
                    else ret tt).
    assert (E : processImageMedia media s = forEach body (map JStr ps) s).
    { unfold processImageMedia.
      unfold mbind at 1, lift at 1. rewrite Hp. reflexivity. }
    unfold r. rewrite E. clear E.
    destruct (truthy (opt_prop media "src")) eqn:Ts.
    + destruct (previews_loop (opt_prop media "src") body ps) with (s := s) as (A & B & C).
      { intros p s0 Hin. unfold body. rewrite (T p Hin).
        unfold mbind at 1, lift at 1. rewrite (prop_defined media "preview" "src" x Hx).
        rewrite Ts. cbn [andb].
        unfold mbind, lift, cleanUrl. rewrite (T p Hin). reflexivity. }
      split; [exact A|]. split; [|discriminate].
      intros _. rewrite C.
      apply (fingerprints_written (opt_prop media "src") ps (imageStore s)).
    + assert (L : forall l s0, Forall (fun p => truthy p = true) l ->
                   forEach body l s0 = (s0, Ok tt)).
      { induction l as [|p l IH]; intros s0 Hl; [reflexivity|].
        inversion Hl as [|? ? Tp Hl']; subst.
        cbn [forEach]. unfold mbind at 1. unfold body at 1.
        rewrite Tp. unfold mbind at 1, lift at 1.
        rewrite (prop_defined media "preview" "src" x Hx), Ts. cbn [andb].
        unfold ret. apply IH, Hl'. }
      rewrite L.
      * repeat split. discriminate.
      * rewrite Forall_map. rewrite Forall_forall. exact T.
Qed.

(** The video of the scenario with a preview and a thumbnail: both
    fingerprints lead to its quality map, which has the one tier that the
    entry has. *)
Lemma every_fingerprint_leads_to_the_record_witness :
  let media := JObj [("type", JStr "video");
                     ("preview", JStr "https://x/p.jpg?z=1");
                     ("thumb", JStr "https://x/t.jpg?w=2");
                     ("source", JObj [("source", JStr "https://x/full.mp4")])] in
  let s := fst (processVideoMedia media downloader0) in
  Map_get (imageStore s) (JStr "https://x/p.jpg")
  = Some (JObj [("full", JStr "https://x/full.mp4")])
  /\ Map_get (imageStore s) (JStr "https://x/t.jpg")
     = Some (JObj [("full", JStr "https://x/full.mp4")]).
Proof.
  intros media s.
  destruct (every_fingerprint_leads_to_the_record media
              ["https://x/p.jpg?z=1"; "https://x/t.jpg?w=2"] downloader0 eq_refl)
    as ((_ & F & _) & _).
  split.
  - apply (F "https://x/p.jpg?z=1"). left; reflexivity.
  - apply (F "https://x/t.jpg?w=2"). right; left; reflexivity.
Defined.

(* ================================================================== *)
(** * More on resolution through the store *)
(* ================================================================== *)

Lemma sameStringKeys_refl (s : Downloader) : sameStringKeys s s.
Proof. split; reflexivity. Qed.

Lemma sameStringKeys_trans (s1 s2 s3 : Downloader) :
  sameStringKeys s1 s2 -> sameStringKeys s2 s3 -> sameStringKeys s1 s3.
Proof.
  intros (A & B) (C & D). split; [intros id; rewrite C; apply A | congruence].
Qed.

Lemma sameButImages_sameStringKeys (s s' : Downloader) :
  sameButImages s s' -> sameStringKeys s s'.
Proof. intros (A & _ & B & _). split; [intros id; rewrite A; reflexivity | exact B]. Qed.

(** A record whose id is no string changes no string key of [mediaStore]. *)
Lemma processMediaItem_sameStringKeys (item : JsVal) (store : StoreRef) (s : Downloader) :
  idIsNoString item -> sameStringKeys s (fst (processMediaItem item store s)).
Proof.
  intros N.
  destruct (processMediaItem_stores item store s) as (s0 & E & B).
  apply (sameStringKeys_trans s s0); [|apply sameButImages_sameStringKeys, B].
  rewrite E. destruct (prop item "id") as [id|] eqn:Ei; [|apply sameStringKeys_refl].
  destruct (truthy id); [|apply sameStringKeys_refl].
  destruct store; split; try reflexivity.
  intros i. cbn [store_set mediaStore]. apply Map_get_set_no_string.
  intros j ->. apply (N j). exact Ei.
Qed.

Lemma forEach_sameStringKeys (store : StoreRef) (items : list JsVal) : forall s,
  Forall idIsNoString items ->
  sameStringKeys s (fst (forEach (fun item => processMediaItem item store) items s)).
Proof.
  induction items as [|x items IH]; intros s H; cbn [forEach].
  - apply sameStringKeys_refl.
  - inversion H as [|? ? Hx Hl]; subst. unfold mbind.
    pose proof (processMediaItem_sameStringKeys x store s Hx) as K.
    destruct (processMediaItem x store s) as [s1 [[]|]]; cbn [fst] in *; [|exact K].
    eapply sameStringKeys_trans; [exact K | apply IH, Hl].
Qed.

Lemma extractVideoUrl_sameStringKeys (s s' : Downloader) (wrapper : Node) (post : option Node) :
  sameStringKeys s s' -> extractVideoUrl s' wrapper post = extractVideoUrl s wrapper post.
Proof.
  intros (A & B). unfold extractVideoUrl.
  assert (E : method2 s' post = method2 s post).
  { unfold method2, Map_has. destruct post as [p|]; [|reflexivity].
    destruct (getAttribute p "data-id") as [id|]; [|reflexivity].
    rewrite A, B. reflexivity. }
  rewrite E. reflexivity.
Qed.

(** X9.  A record is found under a string id only.  [mediaStore] is keyed
    by the [id] of the record as the payload has it and is asked with the
    [data-id] attribute of the post, a string; a [Map] tells a number from
    the string that spells it.  So when no record of a payload has a string
    for its id (the ids are numbers, say), recording the payload changes
    nothing for [extractVideoUrl], whatever the wrapper and the post. *)
Theorem records_are_found_under_string_ids_only
  (data : JsVal) (isForDm : bool) (s : Downloader) (wrapper : Node) (post : option Node) :
  Forall idIsNoString (recordsOf data) ->
  extractVideoUrl (processApiData data isForDm s) wrapper post
  = extractVideoUrl s wrapper post.
Proof.
  intros H. apply extractVideoUrl_sameStringKeys.
  unfold processApiData. fold (storeFor isForDm).
  assert (single : forall d,
             idIsNoString d ->
             sameStringKeys s
               (fst ((id <~ lift (prop d "id") ;;
                      media <~ lift (if truthy id then prop d "media" else Ok JUndef) ;;
                      if truthy id && isArray media
                      then processMediaItem d (storeFor isForDm)
                      else ret tt) s))).
  { intros d Hd. unfold mbind, lift.
    destruct (prop d "id") as [id|]; [|apply sameStringKeys_refl].
    destruct (if truthy id then prop d "media" else Ok JUndef) as [media|];
      [|apply sameStringKeys_refl].
    destruct (truthy id && isArray media);
      [apply processMediaItem_sameStringKeys; exact Hd | apply sameStringKeys_refl]. }
  destruct data; cbn [recordsOf] in H;
    try (apply single; inversion H; assumption).
  apply forEach_sameStringKeys. exact H.
Qed.

(** The record of post 42 with the number 42 for its id is stored, and the
    post whose [data-id] is "42" is resolved to nothing. *)
Lemma records_are_found_under_string_ids_only_witness :
  map fst (mediaStore (processApiData numberedRecord false downloader0)) = [JNum 42]
  /\ extractVideoUrl (processApiData numberedRecord false downloader0) shell
       (Some (postWithId "42")) = Ok None.
Proof.
  split; [vm_compute; reflexivity|].
  rewrite (records_are_found_under_string_ids_only numberedRecord false downloader0).
  - vm_compute. reflexivity.
  - constructor; [|constructor]. intros i. discriminate.
Defined.

(** X10.  A [null] in a recorded media list makes resolution throw.  When
    the record of a post is in [mediaStore] and its media list begins with
    [null], [extractVideoUrl] throws for every wrapper of that post in
    which Method 1 finds nothing (reading [media.type] of [null]); nothing
    catches it on the way up, so [handleFeedPosts] stops at that post:
    the post and all the posts after it are left without control. *)
Theorem null_media_entry_makes_resolution_throw
  (s : Downloader) (wrapper post : Node) (id : string) (data : JsVal) (rest : list JsVal) :
  method1 wrapper = None ->
  getAttribute post "data-id" = Some id -> id <> "" ->
  Map_get (mediaStore s) (JStr id) = Some data ->
  prop data "media" = Ok (JArr (JNull :: rest)) ->
  extractVideoUrl s wrapper (Some post) = Throw
  /\ (forall pg ws others,
         querySelector post (sel_unique s) = None ->
         querySelectorAll post (sel_tag_class "div" "video-wrapper") = wrapper :: ws ->
         handleFeedPosts pg s (post :: others) = (post :: others, Throw)).
Proof.
  intros H1 Ha Hn Hg Hm.
  assert (E : extractVideoUrl s wrapper (Some post) = Throw).
  { unfold extractVideoUrl. rewrite H1, method2_storeLookup.
    rewrite (storeLookup_hit s post id data (JNull :: rest) Ha Hn Hg Hm).
    reflexivity. }
  split; [exact E|].
  intros pg ws others Hu Hw.
  unfold handleFeedPosts. cbn [forEachNode].
  unfold handleFeedPost. rewrite Hu.
  unfold extractMediaFromPost. rewrite Hw. cbn [collectVideos]. rewrite E.
  reflexivity.
Qed.

(** After the broken record of post 42 has come in, the injection pass
    over the feed stops at post 42 and never reaches the post after it. *)
Lemma null_media_entry_makes_resolution_throw_witness :
  let s := processApiData brokenRecord false downloader0 in
  handleFeedPosts feedPage s [postWithId "42"; imagePost]
  = ([postWithId "42"; imagePost], Throw).
Proof.
  intros s.
  assert (N : "42" <> "") by discriminate.
  destruct (null_media_entry_makes_resolution_throw s shell (postWithId "42") "42"
              brokenRecord [] eq_refl eq_refl N eq_refl eq_refl) as (_ & K).
  apply (K feedPage []); reflexivity.
Defined.

(* ================================================================== *)
(** * More on the injected controls *)
(* ================================================================== *)

Lemma groupMediaByType_groups (media : list Media) :
  groupMediaByType media
  = match media with
    | [] => []
    | _ => [(filter isVideoEntry media
             ++ filter (fun m => negb (isVideoEntry m)) media)%list]
    end.
Proof.
  unfold groupMediaByType. fold isVideoEntry.
  change (fun m : Media => negb (includes (snd m) "video"))
    with (fun m : Media => negb (isVideoEntry m)).
  destruct media as [|m media]; [reflexivity|].
  destruct (filter isVideoEntry (m :: media)) as [|v vs] eqn:Ev;
    destruct (filter (fun m => negb (isVideoEntry m)) (m :: media)) as [|i is'] eqn:Ei;
    cbn [length Nat.eqb negb andb filter app]; try reflexivity.
  - exfalso. cbn [filter] in Ev, Ei. destruct (isVideoEntry m); discriminate.
  - rewrite app_nil_r. reflexivity.
Qed.

(** X11.  One control, one button.  [groupMediaByType] never returns two
    groups: for an empty list it returns none, and otherwise the single
    group of all the entries, those whose type includes "video" first and
    the others after them, each part in the order of the list.  So the
    control that [createDownloadButtonContainer] makes holds exactly one
    button when there is something to download, the button stands for
    every entry, and the control for an empty list is an empty box. *)
Theorem one_control_one_button (s : Downloader) (media : list Media) :
  groupMediaByType media
  = match media with
    | [] => []
    | _ => [(filter isVideoEntry media
             ++ filter (fun m => negb (isVideoEntry m)) media)%list]
    end
  /\ exists d,
      classes d = [uniqueClass s]
      /\ createDownloadButtonContainer s media
         = Elem d (match media with
                   | [] => []
                   | _ => [createSmartDownloadButton
                             (filter isVideoEntry media
                              ++ filter (fun m => negb (isVideoEntry m)) media)%list]
                   end).
Proof.
  split; [apply groupMediaByType_groups|].
  unfold createDownloadButtonContainer. rewrite groupMediaByType_groups.
  eexists. split; [|destruct media; reflexivity]. reflexivity.
Qed.

(** The loop over the wrappers lists, wrapper by wrapper and in their
    order, what [extractVideoUrl] finds. *)
Lemma collectVideos_found (s : Downloader) (post : Node) (creator : string)
  (wrappers : list Node) : forall videos,
  collectVideos s post creator wrappers = Ok videos ->
  exists found : list (option JsVal),
    Forall2 (fun wrapper r => extractVideoUrl s wrapper (Some post) = Ok r) wrappers found
    /\ videos = flat_map (fun r : option JsVal =>
                            match r with
                            | Some u => [(u, creator, "download video")]
                            | None => []
                            end) found.
Proof.
  induction wrappers as [|w ws IH]; intros videos; cbn [collectVideos].
  - intros [= <-]. exists []. split; [constructor | reflexivity].
  - destruct (extractVideoUrl s w (Some post)) as [r|] eqn:E; cbn [bind]; [|discriminate].
    destruct (collectVideos s post creator ws) as [rest|]; cbn [bind]; [|discriminate].
    destruct (IH rest eq_refl) as (found & F & ->).
    intros H. exists (r :: found). split; [constructor; [exact E | exact F]|].
    cbn [flat_map]. destruct r as [u|]; injection H as <-; reflexivity.
Qed.

Lemma filter_all {A : Type} (f : A -> bool) (l : list A) :
  Forall (fun x => f x = true) l -> filter f l = l.
Proof.
  induction 1 as [|x l Hx _ IH]; cbn [filter]; [reflexivity|].
  rewrite Hx, IH. reflexivity.
Qed.

Lemma filter_none {A : Type} (f : A -> bool) (l : list A) :
  Forall (fun x => f x = false) l -> filter f l = [].
Proof.
  induction 1 as [|x l Hx _ IH]; cbn [filter]; [reflexivity|].
  rewrite Hx, IH. reflexivity.
Qed.

(** X12.  What a post offers.  When [extractMediaFromPost] returns, its
    list is, first, for every [div.video-wrapper] of the post in document
    order, the URL that [extractVideoUrl] finds for that wrapper (nothing
    for a wrapper where it finds none), typed "download video"; then, for
    every [img.b-post__media__img] of the post in document order that has
    a [src], that [src], typed "download", where with at least one video
    listed the images that [isVideoThumbnail] takes for a thumbnail are
    left out.  Every entry carries the creator of the post.  The one
    button of the control made from a non-empty list stands for exactly
    that list, in that order. *)
Theorem what_a_post_offers (pg : Page) (s : Downloader) (post : Node) (media : list Media) :
  extractMediaFromPost pg s post = Ok media ->
  let creator := getCreatorUsername pg post in
  let wrappers := querySelectorAll post (sel_tag_class "div" "video-wrapper") in
  let images := querySelectorAll post (sel_tag_class "img" "b-post__media__img") in
  exists found : list (option JsVal),
    Forall2 (fun wrapper r => extractVideoUrl s wrapper (Some post) = Ok r) wrappers found
    /\ let videos :=
         flat_map (fun r : option JsVal =>
                     match r with
                     | Some u => [(u, creator, "download video")]
                     | None => []
                     end) found in
       let pictures :=
         map (fun img => (JStr (src img), creator, "download"))
           (filter (fun img =>
                      negb (src img =? "")%string
                      && match videos with
                         | [] => true
                         | _ :: _ => negb (isVideoThumbnail img wrappers)
                         end) images) in
       media = (videos ++ pictures)%list
       /\ (media <> [] -> groupMediaByType media = [media]).
Proof.
  intros E creator wrappers images. unfold extractMediaFromPost in E.
  fold creator wrappers images in E.
  destruct (collectVideos s post creator wrappers) as [videos|] eqn:Ev;
    cbn [bind] in E; [|discriminate].
  injection E as <-.
  destruct (collectVideos_found _ _ _ _ _ Ev) as (found & F & Evs).
  exists found. split; [exact F|]. cbv zeta. rewrite <- Evs.
  assert (V1 : Forall (fun m => isVideoEntry m = true) videos).
  { rewrite Evs. apply Forall_flat_map. apply Forall_forall. intros [u|] _;
      repeat constructor. }
  match goal with
  | |- (videos ++ map ?f (filter ?g images))%list = _ /\ _ =>
      set (entry := f); set (kept := g)
  end.
  assert (K : filter kept images
              = filter (fun img =>
                          negb (src img =? "")%string
                          && match videos with
                             | [] => true
                             | _ :: _ => negb (isVideoThumbnail img wrappers)
                             end) images).
  { apply filter_ext. intros img. unfold kept.
    destruct videos; reflexivity. }
  assert (P1 : Forall (fun m => isVideoEntry m = false) (map entry (filter kept images))).
  { rewrite Forall_map. apply Forall_forall. intros img _. reflexivity. }
  split; [f_equal; f_equal; exact K|].
  intros N. rewrite groupMediaByType_groups.
  destruct (videos ++ map entry (filter kept images))%list as [|m l] eqn:El;
    [contradiction|]. rewrite <- El. f_equal.
  rewrite !filter_app.
  rewrite (filter_all _ _ V1), (filter_none _ _ P1).
  rewrite (filter_none (fun m => negb (isVideoEntry m)) videos),
    (filter_all (fun m => negb (isVideoEntry m)) (map entry (filter kept images))).
  - rewrite app_nil_r. reflexivity.
  - eapply Forall_impl; [|exact P1]. intros x Hx. cbv beta. rewrite Hx. reflexivity.
  - eapply Forall_impl; [|exact V1]. intros x Hx. cbv beta. rewrite Hx. reflexivity.
Qed.

(** The post of the scenario, recorded and with an empty player shell,
    offers the video that the record gives for it. *)
Lemma what_a_post_offers_witness :
  exists media,
    extractMediaFromPost feedPage recorded42 (postWithId "42") = Ok media
    /\ media = [(JStr "https://x/full.mp4", "bob", "download video")]
    /\ groupMediaByType media = [media].
Proof.
  destruct (extractMediaFromPost feedPage recorded42 (postWithId "42")) as [media|] eqn:E;
    [|vm_compute in E; discriminate E].
  exists media. split; [reflexivity|].
  destruct (what_a_post_offers feedPage recorded42 (postWithId "42") media E)
    as (found & _ & _ & G).
  vm_compute in E. injection E as <-.
  split; [reflexivity|]. apply G. discriminate.
Defined.

(* ================================================================== *)
(** * Controls that follow the carousel, and late videos *)
(* ================================================================== *)

Lemma src_afterRemoval (s : Downloader) (n : Node) : src (afterRemoval s n) = src n.
Proof. destruct n; reflexivity. Qed.

(** The common end of the update methods: after the removal, the post
    carries the new control and no other. *)
Lemma controls_appendControlFor (pg : Page) (s : Downloader) (post : Node)
  (mediaUrl : option JsVal) (buttonLabel : string) :
  controls s (appendControlFor pg s (afterRemoval s post) mediaUrl buttonLabel)
  = match post, mediaUrl with
    | Elem _ _, Some _ => 1%nat
    | _, _ => 0%nat
    end.
Proof.
  unfold appendControlFor, afterRemoval.
  pose proof (removeAll_none (sel_unique s) post) as R.
  destruct post as [t|d cs].
  - destruct mediaUrl; reflexivity.
  - cbn [removeAll] in *. destruct mediaUrl as [u|].
    + rewrite controls_appendChild. unfold controls. rewrite R. reflexivity.
    + unfold controls. rewrite R. reflexivity.
Qed.

Lemma controls_appendControlFor_le (pg : Page) (s : Downloader) (post : Node)
  (mediaUrl : option JsVal) (buttonLabel : string) :
  (controls s (appendControlFor pg s (afterRemoval s post) mediaUrl buttonLabel) <= 1)%nat.
Proof.
  rewrite controls_appendControlFor. destruct post, mediaUrl; lia.
Qed.

(** X13.  The controls that follow the carousel never stack.  Whatever a
    post carried before, after [updateButtonsForMediaElement] or
    [updateButtonsForClickedImage] it carries at most one control: the
    old ones are removed first, also when no URL is found for the new
    one.  For a clicked image outside a video container the post ends
    with one control when the image has a [src] and with none when it has
    not.  [updateButtonsForMediaIndex] removes and replaces in the same
    way when the index names a media item of the post, and leaves the
    post as it is, old controls included, when it does not. *)
Theorem carousel_updates_never_stack (pg : Page) (s : Downloader)
  (d : ElemData) (cs : list Node) :
  let post := Elem d cs in
  (forall mediaElement,
      (controls s (updateButtonsForMediaElement pg s post mediaElement) <= 1)%nat)
  /\ (forall clickedImage videoContainer,
         (controls s (updateButtonsForClickedImage pg s post clickedImage videoContainer)
          <= 1)%nat)
  /\ (forall clickedImage,
         controls s (updateButtonsForClickedImage pg s post clickedImage None)
         = if (src clickedImage =? "")%string then 0%nat else 1%nat)
  /\ (forall currentIndex,
         match nth_error (querySelectorAll post sel_media_items) currentIndex with
         | Some _ =>
             (controls s (updateButtonsForMediaIndex pg s post currentIndex) <= 1)%nat
         | None => updateButtonsForMediaIndex pg s post currentIndex = post
         end).
Proof.
  intros post. repeat split.
  - intros mediaElement. unfold updateButtonsForMediaElement.
    repeat match goal with
           | |- context [if ?b then _ else _] => destruct b
           | |- context [match querySelector ?n ?q with _ => _ end] =>
               destruct (querySelector n q)
           end; apply controls_appendControlFor_le.
  - intros clickedImage videoContainer. unfold updateButtonsForClickedImage.
    match goal with
    | |- context [match ?u with Some _ => _ | None => appendControlFor _ _ _ _ _ end] =>
        destruct u
    end; apply controls_appendControlFor_le.
  - intros clickedImage. unfold updateButtonsForClickedImage.
    rewrite controls_appendControlFor, src_afterRemoval. unfold post, nonEmpty.
    destruct (src clickedImage =? "")%string; reflexivity.
  - intros currentIndex. unfold updateButtonsForMediaIndex.
    destruct (nth_error (querySelectorAll post sel_media_items) currentIndex);
      [|reflexivity].
    repeat match goal with
           | |- context [if ?b then _ else _] => destruct b
           | |- context [match querySelector ?n ?q with _ => _ end] =>
               destruct (querySelector n q)
           end; apply controls_appendControlFor_le.
Qed.

Lemma querySelector_control (s : Downloader) (n : Node) :
  querySelector n (sel_unique s) = None <-> controls s n = 0%nat.
Proof.
  unfold querySelector, controls.
  destruct (querySelectorAll n (sel_unique s)); cbn [hd_error length];
    split; intros H; try reflexivity; discriminate H.
Qed.

(** The guarded append of [handleVideoLoad] and of the second branch of
    [retryVideoExtraction]. *)
Lemma guarded_append (s : Downloader) (n : Node) (media : list Media) :
  let n' := match querySelector n (sel_unique s) with
            | Some _ => n
            | None => appendChild n (createDownloadButtonContainer s media)
            end in
  (controls s n' <= Nat.max 1 (controls s n))%nat
  /\ (querySelector n' (sel_unique s) = None -> n' = n).
Proof.
  cbv zeta. destruct (querySelector n (sel_unique s)) as [c|] eqn:Q.
  - split; [lia | reflexivity].
  - destruct n as [t|d cs].
    + split; [cbn [appendChild]; lia | reflexivity].
    + apply querySelector_control in Q.
      split.
      * rewrite controls_appendChild, Q. reflexivity.
      * intros Q'. apply querySelector_control in Q'.
        rewrite controls_appendChild in Q'. discriminate Q'.
Qed.

(** X14.  A video that loads late never stacks controls.
    [handleVideoLoad] leaves the parent of the video with no more than
    one control (or the number it had, if it had more), and running it
    again, as on the [canplay] event after [loadeddata], changes nothing.
    [retryVideoExtraction] keeps the same bound when it returns: on a
    [video-wrapper] it replaces the controls by one, elsewhere it appends
    only where there is none. *)
Theorem late_videos_never_stack (pg : Page) (s : Downloader) :
  (forall video parent,
      (controls s (handleVideoLoad pg s video parent) <= Nat.max 1 (controls s parent))%nat
      /\ handleVideoLoad pg s video (handleVideoLoad pg s video parent)
         = handleVideoLoad pg s video parent)
  /\ (forall element post,
         match retryVideoExtraction pg s element post with
         | Ok element' =>
             (controls s element' <= Nat.max 1 (controls s element))%nat
         | Throw => True
         end).
Proof.
  split.
  - intros video parent. unfold handleVideoLoad.
    destruct (extractVideoUrlFromElement video) as [u|]; [|split; [lia | reflexivity]].
    pose proof (guarded_append s parent [(u, getCreatorUsername pg video, "download video")])
      as (L & F).
    cbv zeta in *. split; [exact L|].
    remember (match querySelector parent (sel_unique s) with
              | Some _ => parent
              | None => appendChild parent
                          (createDownloadButtonContainer s
                             [(u, getCreatorUsername pg video, "download video")])
              end) as parent' eqn:E.
    destruct (querySelector parent' (sel_unique s)) eqn:Q; [reflexivity|].
    specialize (F eq_refl). rewrite F in Q. rewrite Q in E. rewrite F at 1. symmetry. exact E.
  - intros element post. unfold retryVideoExtraction.
    destruct (classList_contains element "video-wrapper") eqn:W.
    + destruct (extractVideoUrl s element post) as [[u|]|]; cbn [bind]; try lia; try exact I.
      destruct element as [t|d cs]; [discriminate W|].
      pose proof (removeAll_none (sel_unique s) (Elem d cs)) as R.
      cbn [removeAll] in *. rewrite controls_appendChild.
      unfold controls at 1. rewrite R. cbn [length]. lia.
    + destruct (querySelector element sel_video) as [video|]; [|lia].
      destruct (extractVideoUrlFromElement video) as [u|]; [|lia].
      pose proof (guarded_append s element
                    [(u, getCreatorUsername pg video, "download video")]) as (L & _).
      cbv zeta in L.
      destruct (querySelector element (sel_unique s)); exact L.
Qed.

(* ================================================================== *)
(** * Waiting for the content *)
(* ================================================================== *)





(* ================================================================== *)
(** * Where the feed passes put the control *)
(* ================================================================== *)

Lemma matching_elem (sel : Selector) (d : ElemData) (cs : list Node) :
  matching sel (Elem d cs)
  = ((if matches d sel then 1 else 0)
     + length (querySelectorAll (Elem d cs) sel))%nat.
Proof.
  unfold matching, querySelectorAll. cbn [filter node_matches].
  destruct (matches d sel); reflexivity.
Qed.

(** [appendChildAt] finds no place exactly when [querySelector] finds no
    node. *)
Lemma appendChildAt_none (sel : Selector) (c : Node) :
  forall n, appendChildAt sel c n = None <-> querySelectorAll n sel = [].
Proof.
  unfold querySelectorAll.
  fix IH 1. intros [t|d cs]; [split; reflexivity|].
  cbn [appendChildAt descendants].
  revert cs. fix IHcs 1. intros [|x cs]; [split; reflexivity|].
  cbn [flat_map]. rewrite filter_app.
  specialize (IH x). specialize (IHcs cs).
  destruct (node_matches x sel) eqn:E.
  - destruct x as [t|dx csx]; [discriminate E|].
    cbn [filter]. rewrite E. cbn [option_map app]. split; intros H; discriminate H.
  - destruct (appendChildAt sel c x) as [x'|].
    + cbn [option_map]. split; intros H; [discriminate H|].
      apply app_eq_nil in H as (H & _).
      destruct x as [t|dx csx]; [apply IH in H; discriminate H|].
      cbn [filter] in H. rewrite E in H. apply IH in H. discriminate H.
    + destruct IH as (IH & _). specialize (IH eq_refl).
      assert (X : filter (fun c0 => node_matches c0 sel)
                    match x with
                    | Text _ => []
                    | Elem _ _ => x :: descendants x
                    end = []).
      { destruct x as [t|dx csx]; [reflexivity|].
        cbn [filter]. rewrite E. exact IH. }
      rewrite X. cbn [app].
      match goal with
      | |- option_map (Elem d) (option_map (cons x) ?g) = None <-> _ =>
          destruct g; cbn [option_map] in *
      end.
      * split; intros H; [discriminate H|]. apply IHcs in H. discriminate H.
      * split; intros _; [apply IHcs|]; reflexivity.
Qed.

Lemma descendants_cons (d : ElemData) (x : Node) (cs : list Node) :
  descendants (Elem d (x :: cs))
  = (match x with
     | Text _ => []
     | Elem _ _ => x :: descendants x
     end ++ descendants (Elem d cs))%list.
Proof. reflexivity. Qed.

(** Where [appendChildAt] finds a place, the tree gains the child and the
    child's descendants, and nothing else changes. *)
Lemma appendChildAt_count (sel0 : Selector) (c : Node) (sel : Selector) :
  forall n n',
    appendChildAt sel0 c n = Some n' ->
    node_matches n' sel = node_matches n sel
    /\ length (querySelectorAll n' sel)
       = (length (querySelectorAll n sel) + matching sel c)%nat.
Proof.
  unfold querySelectorAll.
  fix IH 1. intros [t|d cs] n'; [intros H; discriminate H|].
  cbn [appendChildAt node_matches].
  revert n'. revert cs. fix IHcs 1. intros [|x cs] n'; [intros H; discriminate H|].
  destruct (node_matches x sel0) eqn:E.
  - cbn [option_map]. intros [= <-].
    destruct x as [t|dx csx]; [discriminate E|].
    split; [reflexivity|].
    pose proof (descendants_appendChild dx csx c) as D. cbn [appendChild] in D.
    rewrite !descendants_cons. cbn [appendChild]. rewrite D. unfold matching.
    rewrite !filter_app, !length_app. cbn [filter node_matches].
    rewrite !filter_app.
    destruct (matches dx sel); cbn [length]; rewrite !length_app; lia.
  - destruct (appendChildAt sel0 c x) as [x'|] eqn:A.
    + cbn [option_map]. intros [= <-]. split; [reflexivity|].
      rewrite !descendants_cons, !filter_app, !length_app.
      destruct (IH x x' A) as (M & L).
      destruct x as [t|dx csx]; [discriminate A|].
      destruct x' as [t'|dx' csx'].
      { cbn [appendChildAt] in A.
        match type of A with option_map _ ?g = _ => destruct g; discriminate A end. }
      cbn [filter]. rewrite M. cbn [node_matches] in *.
      destruct (matches dx sel); cbn [length]; lia.
    + match goal with
      | |- option_map (Elem d) (option_map (cons x) ?g) = _ -> _ =>
          destruct g as [cs'|] eqn:G; cbn [option_map]; [|intros H; discriminate H]
      end.
      intros [= <-]. split; [reflexivity|].
      rewrite !descendants_cons, !filter_app, !length_app.
      destruct (IHcs cs (Elem d cs')) as (_ & L).
      { rewrite G. reflexivity. }
      lia.
Qed.

(** The place that [appendChildAt] finds is the node that [querySelector]
    finds, and it is found again afterwards, with the child in it. *)
Lemma appendChildAt_first (sel : Selector) (c : Node) :
  forall n n',
    appendChildAt sel c n = Some n' ->
    exists t, querySelector n sel = Some t
              /\ querySelector n' sel = Some (appendChild t c).
Proof.
  unfold querySelector, querySelectorAll.
  fix IH 1. intros [t|d cs] n'; [intros H; discriminate H|].
  cbn [appendChildAt].
  revert n'. revert cs. fix IHcs 1. intros [|x cs] n'; [intros H; discriminate H|].
  destruct (node_matches x sel) eqn:E.
  - cbn [option_map]. intros [= <-].
    destruct x as [t|dx csx]; [discriminate E|].
    exists (Elem dx csx). rewrite !descendants_cons. cbn [appendChild].
    cbn [app filter]. cbn [node_matches] in *. rewrite E. split; reflexivity.
  - destruct (appendChildAt sel c x) as [x'|] eqn:A.
    + cbn [option_map]. intros [= <-].
      destruct (IH x x' A) as (t & Q & Q').
      destruct (appendChildAt_count sel c sel x x' A) as (M & _).
      exists t. rewrite !descendants_cons, !filter_app.
      destruct x as [tx|dx csx]; [discriminate A|].
      destruct x' as [t'|dx' csx'].
      { cbn [appendChildAt] in A.
        match type of A with option_map _ ?g = _ => destruct g; discriminate A end. }
      cbn [filter]. rewrite M, E.
      destruct (filter (fun c0 => node_matches c0 sel) (descendants (Elem dx csx)));
        [discriminate Q|].
      destruct (filter (fun c0 => node_matches c0 sel) (descendants (Elem dx' csx')));
        [discriminate Q'|].
      split; [exact Q | exact Q'].
    + match goal with
      | |- option_map (Elem d) (option_map (cons x) ?g) = _ -> _ =>
          destruct g as [cs'|] eqn:G; cbn [option_map]; [|intros H; discriminate H]
      end.
      intros [= <-].
      destruct (IHcs cs (Elem d cs')) as (t & Q & Q').
      { rewrite G. reflexivity. }
      exists t. rewrite !descendants_cons, !filter_app.
      apply (appendChildAt_none sel c) in A. unfold querySelectorAll in A.
      assert (X : filter (fun c0 => node_matches c0 sel)
                    match x with
                    | Text _ => []
                    | Elem _ _ => x :: descendants x
                    end = []).
      { destruct x as [tx|dx csx]; [reflexivity|].
        cbn [filter]. rewrite E. exact A. }
      rewrite X. cbn [app]. split; [exact Q | exact Q'].
Qed.

Lemma matching_control (s : Downloader) (media : list Media) :
  matching (sel_unique s) (createDownloadButtonContainer s media) = 1%nat.
Proof.
  pose proof (container_is_control s media) as C.
  pose proof (container_inner_controls s media) as I.
  destruct (createDownloadButtonContainer s media) as [t|d cs] eqn:E;
    [discriminate C|].
  rewrite matching_elem. cbn [node_matches] in C. rewrite C, I. reflexivity.
Qed.

(** A control placed by selector in a container that carries none. *)
Lemma placed_control (s : Downloader) (sel : Selector) (n : Node) (media : list Media) :
  controls s n = 0%nat ->
  match appendChildAt sel (createDownloadButtonContainer s media) n with
  | Some n' =>
      exists t, querySelector n sel = Some t
                /\ querySelector n' sel
                   = Some (appendChild t (createDownloadButtonContainer s media))
                /\ controls s n' = 1%nat
  | None => querySelector n sel = None
  end.
Proof.
  intros Z.
  destruct (appendChildAt sel (createDownloadButtonContainer s media) n) as [n'|] eqn:A.
  - destruct (appendChildAt_first _ _ _ _ A) as (t & Q & Q').
    destruct (appendChildAt_count _ _ (sel_unique s) _ _ A) as (_ & L).
    exists t. split; [exact Q|]. split; [exact Q'|].
    unfold controls in *. rewrite L, Z, matching_control. reflexivity.
  - apply appendChildAt_none in A. unfold querySelector. rewrite A. reflexivity.
Qed.

(** X16.  The feed pass puts the control into the tool bar.  For a post
    that carries no control and has media, [handleFeedPost] appends the
    control as the last child of the first [.b-post__tools] of the post,
    and the post then carries exactly one control; a post without a tool
    bar, or with no media, is left as it is. *)
Theorem feed_control_goes_into_the_tool_bar (pg : Page) (s : Downloader)
  (post : Node) (media : list Media) :
  controls s post = 0%nat ->
  extractMediaFromPost pg s post = Ok media ->
  match querySelector post sel_tools, media with
  | Some tools, _ :: _ =>
      exists post',
        handleFeedPost pg s post = Ok post'
        /\ querySelector post' sel_tools
           = Some (appendChild tools (createDownloadButtonContainer s media))
        /\ controls s post' = 1%nat
  | _, _ => handleFeedPost pg s post = Ok post
  end.
Proof.
  intros Z E. unfold handleFeedPost.
  pose proof (proj2 (querySelector_control s post) Z) as Q0. rewrite Q0, E. cbn [bind].
  pose proof (placed_control s sel_tools post media Z) as P.
  fold sel_tools.
  destruct media as [|m media].
  - cbn [length Nat.ltb Nat.leb]. destruct (querySelector post sel_tools); reflexivity.
  - cbn [length Nat.ltb Nat.leb].
    destruct (appendChildAt sel_tools (createDownloadButtonContainer s (m :: media)) post)
      as [post'|].
    + destruct P as (t & Q & Q' & C). rewrite Q.
      exists post'. split; [reflexivity|]. split; [exact Q' | exact C].
    + rewrite P. reflexivity.
Qed.

Lemma feed_control_goes_into_the_tool_bar_witness :
  exists post',
    handleFeedPost feedPage downloader0 imagePost = Ok post'
    /\ querySelector post' sel_tools
       = Some (element "div" ["b-post__tools"] []
                 [createDownloadButtonContainer downloader0
                    [(JStr "https://x/a.jpg", "bob", "download")]])
    /\ controls downloader0 post' = 1%nat.
Proof.
  exact (feed_control_goes_into_the_tool_bar feedPage downloader0 imagePost
           [(JStr "https://x/a.jpg", "bob", "download")] eq_refl eq_refl).
Defined.

(** X17.  The chat pass puts the control into the message body.  For a
    message that carries no control, [handleChatMessage] appends the
    control for what [extractMediaFromMessage] lists as the last child of
    the first [.b-chat__message__body], and the message then carries
    exactly one control; a message without a body, or with nothing
    listed, is left as it is. *)
Theorem chat_control_goes_into_the_message_body (pg : Page) (s : Downloader)
  (message : Node) :
  controls s message = 0%nat ->
  match querySelector message sel_message_body, extractMediaFromMessage pg message with
  | Some body, (_ :: _) as media =>
      exists message',
        handleChatMessage pg s message = Ok message'
        /\ querySelector message' sel_message_body
           = Some (appendChild body (createDownloadButtonContainer s media))
        /\ controls s message' = 1%nat
  | _, _ => handleChatMessage pg s message = Ok message
  end.
Proof.
  intros Z. unfold handleChatMessage.
  pose proof (proj2 (querySelector_control s message) Z) as Q0. rewrite Q0.
  pose proof (placed_control s sel_message_body message
                (extractMediaFromMessage pg message) Z) as P.
  fold sel_message_body.
  destruct (extractMediaFromMessage pg message) as [|m media].
  - cbn [length Nat.ltb Nat.leb]. destruct (querySelector message sel_message_body);
      reflexivity.
  - cbn [length Nat.ltb Nat.leb].
    destruct (appendChildAt sel_message_body
                (createDownloadButtonContainer s (m :: media)) message) as [message'|].
    + destruct P as (t & Q & Q' & C). rewrite Q.
      exists message'. split; [reflexivity|]. split; [exact Q' | exact C].
    + rewrite P. reflexivity.
Qed.

Lemma chat_control_goes_into_the_message_body_witness :
  exists message',
    handleChatMessage feedPage downloader0 chatMessage = Ok message'
    /\ querySelector message' sel_message_body
       = Some (appendChild
                 (element "div" ["b-chat__message__body"] []
                    [ element "div" ["b-chat__message__media"] []
                        [ element "img" [] [("src", "https://x/m.jpg")] [] ] ])
                 (createDownloadButtonContainer downloader0
                    [(JStr "https://x/m.jpg", "bob", "download")]))
    /\ controls downloader0 message' = 1%nat.
Proof.
  exact (chat_control_goes_into_the_message_body feedPage downloader0 chatMessage eq_refl).
Defined.

(* ================================================================== *)
(** * URLs from data attributes *)
(* ================================================================== *)

Lemma dataAttributeOf_some (n : Node) (u : JsVal) :
  dataAttributeOf n = Some u ->
  exists attr value,
    In attr dataAttributes /\ getAttribute n attr = Some value
    /\ includes value "http" = true /\ u = JStr value.
Proof.
  unfold dataAttributeOf.
  induction dataAttributes as [|attr attrs IH]; cbn [firstReturn]; [discriminate|].
  destruct (getAttribute n attr) as [value|] eqn:G.
  - destruct (negb (value =? "")%string && includes value "http") eqn:T.
    + intros [= <-]. apply andb_true_iff in T as (_ & T).
      exists attr, value. repeat split; [left; reflexivity | exact G | exact T].
    + intros H. destruct (IH H) as (a & v & I & R).
      exists a, v. split; [right; exact I | exact R].
  - intros H. destruct (IH H) as (a & v & I & R).
    exists a, v. split; [right; exact I | exact R].
Qed.

Lemma includes_empty (t : string) : t <> EmptyString -> includes "" t = false.
Proof. destruct t; [contradiction | reflexivity]. Qed.

Lemma dataAttributeOf_none (n : Node) :
  dataAttributeOf n = None ->
  forall attr value,
    In attr dataAttributes -> getAttribute n attr = Some value ->
    includes value "http" = false.
Proof.
  unfold dataAttributeOf.
  induction dataAttributes as [|attr attrs IH]; cbn [firstReturn];
    [intros _ a v []|].
  destruct (getAttribute n attr) as [value|] eqn:G.
  - destruct (negb (value =? "")%string && includes value "http") eqn:T;
      [discriminate|].
    intros H a v [<-|I] Ga; [|exact (IH H a v I Ga)].
    rewrite G in Ga. injection Ga as <-.
    destruct (String.eqb_spec value ""); [subst; reflexivity|].
    cbn [negb andb] in T. exact T.
  - intros H a v [<-|I] Ga; [|exact (IH H a v I Ga)].
    rewrite G in Ga. discriminate Ga.
Qed.

(** X18.  URLs from data attributes carry [http] and come from near the
    video.  What [extractVideoUrlFromDataAttributes] returns is the value
    of one of [data-src], [data-video], [data-url], [data-source] on the
    video or on one of its three nearest ancestors, and the value
    includes [http]; it returns [null] exactly when none of these
    attributes on these elements has such a value.  Ancestors beyond the
    third are never looked at. *)
Theorem data_attribute_urls (video : Node) (parents : list Node) :
  let near := video :: firstn 3 parents in
  (forall u,
      extractVideoUrlFromDataAttributes video parents = Some u ->
      exists n attr value,
        In n near /\ In attr dataAttributes /\ getAttribute n attr = Some value
        /\ includes value "http" = true /\ u = JStr value)
  /\ (extractVideoUrlFromDataAttributes video parents = None
      <-> forall n attr value,
          In n near -> In attr dataAttributes -> getAttribute n attr = Some value ->
          includes value "http" = false)
  /\ extractVideoUrlFromDataAttributes video parents
     = extractVideoUrlFromDataAttributes video (firstn 3 parents).
Proof.
  cbv zeta. unfold extractVideoUrlFromDataAttributes.
  assert (S1 : forall depth ps u,
             parentsLoop depth ps = Some u ->
             exists n attr value,
               In n (firstn depth ps) /\ In attr dataAttributes
               /\ getAttribute n attr = Some value
               /\ includes value "http" = true /\ u = JStr value).
  { induction depth as [|depth IH]; intros [|p ps] u; cbn [parentsLoop firstn];
      try discriminate.
    destruct (dataAttributeOf p) as [v|] eqn:D.
    - intros [= <-]. destruct (dataAttributeOf_some _ _ D) as (a & value & R).
      exists p, a, value. split; [left; reflexivity | exact R].
    - intros H. destruct (IH ps u H) as (n & a & value & I & R).
      exists n, a, value. split; [right; exact I | exact R]. }
  assert (S0 : forall depth ps,
             parentsLoop depth ps = None ->
             forall n attr value,
               In n (firstn depth ps) -> In attr dataAttributes ->
               getAttribute n attr = Some value -> includes value "http" = false).
  { induction depth as [|depth IH]; intros [|p ps]; cbn [parentsLoop firstn];
      try (intros _ n a v F; exact (match F with end)).
    destruct (dataAttributeOf p) as [v|] eqn:D; [discriminate|].
    intros H n a value [<-|I]; [apply (dataAttributeOf_none _ D) | apply (IH ps H n a value I)]. }
  assert (S2 : forall depth ps,
             parentsLoop depth ps = parentsLoop depth (firstn depth ps)).
  { induction depth as [|depth IH]; intros [|p ps]; cbn [parentsLoop firstn];
      try reflexivity.
    destruct (dataAttributeOf p); [reflexivity | apply IH]. }
  split; [|split].
  - intros u. destruct (dataAttributeOf video) as [v|] eqn:D.
    + intros [= <-]. destruct (dataAttributeOf_some _ _ D) as (a & value & R).
      exists video, a, value. split; [left; reflexivity | exact R].
    + intros H. destruct (S1 3%nat parents u H) as (n & a & value & I & R).
      exists n, a, value. split; [right; exact I | exact R].
  - destruct (dataAttributeOf video) as [v|] eqn:D.
    + split; [discriminate|]. intros H.
      destruct (dataAttributeOf_some _ _ D) as (a & value & I & G & T & _).
      rewrite (H video a value (or_introl eq_refl) I G) in T. discriminate T.
    + split.
      * intros H n a value [<-|I]; [apply (dataAttributeOf_none _ D) | apply (S0 _ _ H n a value I)].
      * intros H. destruct (parentsLoop 3 parents) as [u|] eqn:P; [|reflexivity].
        destruct (S1 _ _ _ P) as (n & a & value & I & Ia & G & T & _).
        rewrite (H n a value (or_intror I) Ia G) in T. discriminate T.
  - rewrite (S2 3%nat parents). reflexivity.
Qed.

Lemma data_attribute_urls_witness :
  exists n attr value,
    In n [bareVideo; carrier] /\ In attr dataAttributes
    /\ getAttribute n attr = Some value
    /\ includes value "http" = true /\ JStr "https://cdn/v.mp4" = JStr value.
Proof.
  exact (proj1 (data_attribute_urls bareVideo [carrier]) (JStr "https://cdn/v.mp4") eq_refl).
Defined.
